(** * Teamwork task delegation engine: a shallow embedding and its properties

    The development follows the Python sources of the repository:

    - [adws/adw_modules/data_models.py]            ([TeamworkTask], [TeamworkCronConfig])
    - [adws/adw_get_teamwork_tasks_direct.py]      (trigger detection, prompt extraction)
    - [adws/adw_triggers/adw_trigger_cron_teamwork_tasks.py]        ([TeamworkTaskManager])
    - [adws/adw_triggers/adw_trigger_cron_teamwork_tasks_split.py]  (the split monitor)
    - [adws/adw_build_update_teamwork_task.py] and
      [adws/adw_plan_implement_update_teamwork_task.py]             (the spawned workflows)

    Python [str] values are Rocq [string]s.  Character-level operations work
    on [list ascii]; a character is a code point in the range 0..255, and the
    character classes below are the ones Python's [str] methods and [re]
    module use on that range. *)

From Stdlib Require Import Ascii.
From Stdlib Require String.
From stdpp Require Import base option list gmap sets strings pretty.

Local Open Scope char_scope.
Local Open Scope stdpp_scope.

(** ** Python strings *)

Module PyStr.

Definition chars (s : string) : list ascii := String.list_ascii_of_string s.
Definition str (l : list ascii) : string := String.string_of_list_ascii l.

Definition between (lo hi : N) (c : ascii) : bool :=
  ((lo <=? N_of_ascii c) && (N_of_ascii c <=? hi))%N.

(** [str.isspace] and the class [\s]. *)
Definition isspace (c : ascii) : bool :=
  between 9 13 c || between 28 32 c || between 133 133 c || between 160 160 c.

(** The class [\w]. *)
Definition isword (c : ascii) : bool :=
  between 48 57 c || between 65 90 c || between 95 95 c || between 97 122 c
  || between 170 170 c || between 178 179 c || between 181 181 c
  || between 185 186 c || between 188 190 c || between 192 214 c
  || between 216 246 c || between 248 255 c.

(** [str.lower] on one character of the range 0..255.  Beyond that range
    [str.lower] can lengthen a text (U+0130) and can yield a letter of
    [a-z] from a character that is no ASCII letter (U+212A, the Kelvin
    sign); what depends on that is stated below for ASCII texts only. *)
Definition lower_char (c : ascii) : ascii :=
  if between 65 90 c || between 192 214 c || between 216 222 c
  then ascii_of_N (N_of_ascii c + 32) else c.

Definition lower_chars (l : list ascii) : list ascii := map lower_char l.
Definition lower (s : string) : string := str (lower_chars (chars s)).

Fixpoint dropwhile (p : ascii -> bool) (l : list ascii) : list ascii :=
  match l with
  | [] => []
  | c :: l' => if p c then dropwhile p l' else l
  end.

Definition lstrip_chars (p : ascii -> bool) (l : list ascii) : list ascii :=
  dropwhile p l.
Definition rstrip_chars (p : ascii -> bool) (l : list ascii) : list ascii :=
  rev (dropwhile p (rev l)).

(** [s.strip()] and [s.strip('-')] on character lists. *)
Definition strip_with (p : ascii -> bool) (l : list ascii) : list ascii :=
  rstrip_chars p (lstrip_chars p l).
Definition strip_chars (l : list ascii) : list ascii := strip_with isspace l.
Definition strip (s : string) : string := str (strip_chars (chars s)).

(** [s.endswith(suf)] *)
Definition endswith_chars (l suf : list ascii) : bool :=
  bool_decide (suf `suffix_of` l).
Definition endswith (s suf : string) : bool :=
  endswith_chars (chars s) (chars suf).

(** [len(s)] *)
Definition len (s : string) : nat := length (chars s).

(** Truthiness of a [str] and of an [Optional[str]]. *)
Definition truthy (s : string) : bool := negb (String.eqb s "").
Definition truthy_opt (o : option string) : bool :=
  match o with Some s => truthy s | None => false end.

(** [x in [a, b, ...]] on strings. *)
Definition str_in (s : string) (l : list string) : bool :=
  existsb (String.eqb s) l.
Definition opt_in (o : option string) (l : list string) : bool :=
  match o with Some s => str_in s l | None => false end.

(** [s.replace(old, "")], for a non-empty [old]: occurrences are removed
    left to right, without overlap. *)
Fixpoint remove_all_from (old : list ascii) (skip : nat) (l : list ascii)
  : list ascii :=
  match l with
  | [] => []
  | c :: l' =>
      match skip with
      | S n => remove_all_from old n l'
      | O => if bool_decide (old `prefix_of` l)
             then remove_all_from old (length old - 1) l'
             else c :: remove_all_from old 0 l'
      end
  end.
Definition remove_all (old l : list ascii) : list ascii :=
  remove_all_from old 0 l.

(** Case-insensitive equality of two character lists, as [re.IGNORECASE]
    compares a literal on this range of code points. *)
Definition ci_char (a c : ascii) : bool :=
  bool_decide (lower_char c = lower_char a).
Definition ci_eq (k lit : list ascii) : Prop :=
  Forall2 (fun c a => ci_char a c = true) k lit.

End PyStr.
Import PyStr.

(** ** The fragment of Python's [re] that the sources use

    Every pattern in the sources is a sequence of single-character classes,
    greedy [*] and [+] over a class, capturing parentheses and [$].  The
    matcher below is the backtracking matcher of [re] on that fragment: a
    greedy repetition first takes as many characters as it can and gives
    them back one at a time while the rest of the pattern fails. *)

Module Re.

Inductive atom : Type :=
| Ch (p : ascii -> bool)      (* one character of the class *)
| Star (p : ascii -> bool)    (* greedy [p*] *)
| Plus (p : ascii -> bool)    (* greedy [p+] *)
| Paren                       (* an opening or closing parenthesis of a group *)
| Eos.                        (* [$] without [re.MULTILINE] *)

Definition regex := list atom.

(** A match reports the text at every parenthesis it passed, in order,
    and the text left after the match. *)
Definition result : Type := list (list ascii) * list ascii.

Fixpoint greedy (p : ascii -> bool) (k : list ascii -> option result)
    (s : list ascii) : option result :=
  match s with
  | c :: s' =>
      if p c then
        match greedy p k s' with
        | Some r => Some r
        | None => k s
        end
      else k s
  | [] => k s
  end.

Definition at_end (s : list ascii) : bool :=
  match s with
  | [] => true
  | [c] => bool_decide (c = "010"%char)
  | _ => false
  end.

Fixpoint match_here (re : regex) (s : list ascii) : option result :=
  match re with
  | [] => Some ([], s)
  | Ch p :: k =>
      match s with
      | c :: s' => if p c then match_here k s' else None
      | [] => None
      end
  | Star p :: k => greedy p (match_here k) s
  | Plus p :: k =>
      match s with
      | c :: s' => if p c then greedy p (match_here k) s' else None
      | [] => None
      end
  | Paren :: k =>
      match match_here k s with
      | Some (marks, rest) => Some (s :: marks, rest)
      | None => None
      end
  | Eos :: k => if at_end s then match_here k s else None
  end.

(** [re.search]: the leftmost position that matches. *)
Fixpoint search (re : regex) (s : list ascii) : option result :=
  match match_here re s with
  | Some r => Some r
  | None =>
      match s with
      | [] => None
      | _ :: s' => search re s'
      end
  end.

(** The text between two parenthesis marks. *)
Definition between_marks (a b : list ascii) : list ascii :=
  take (length a - length b) a.

(** [m.group(1)] *)
Definition group1 (r : result) : list ascii :=
  match fst r with
  | a :: b :: _ => between_marks a b
  | _ => []
  end.

(** [m.group(2)] *)
Definition group2 (r : result) : list ascii :=
  match fst r with
  | _ :: _ :: a :: b :: _ => between_marks a b
  | _ => []
  end.

(** [re.sub(re, repl, s)] for a pattern that matches no empty text (every
    pattern of the sources has a [Ch] or a [Plus]): matches are replaced
    left to right, and the scan resumes after each match. *)
Fixpoint sub_from (re : regex) (repl : list ascii) (skip : nat)
    (s : list ascii) : list ascii :=
  match s with
  | [] => []
  | c :: s' =>
      match skip with
      | S n => sub_from re repl n s'
      | O =>
          match match_here re s with
          | Some (_, rest) =>
              match length s - length rest with
              | S n => repl ++ sub_from re repl n s'
              | O => c :: sub_from re repl 0 s'
              end
          | None => c :: sub_from re repl 0 s'
          end
      end
  end.
Definition sub (re : regex) (repl s : list ascii) : list ascii :=
  sub_from re repl 0 s.

(** [re.findall] for a pattern with two groups: the pairs of captured
    texts of the successive matches. *)
Fixpoint findall2_from (re : regex) (skip : nat) (s : list ascii)
  : list (list ascii * list ascii) :=
  match s with
  | [] => []
  | c :: s' =>
      match skip with
      | S n => findall2_from re n s'
      | O =>
          match match_here re s with
          | Some r =>
              match length s - length (snd r) with
              | S n => (group1 r, group2 r) :: findall2_from re n s'
              | O => findall2_from re 0 s'
              end
          | None => findall2_from re 0 s'
          end
      end
  end.
Definition findall2 (re : regex) (s : list ascii) := findall2_from re 0 s.

(** Character classes and literals. *)
Definition lit (a : ascii) : atom := Ch (fun c => bool_decide (c = a)).
Definition lit_ci (a : ascii) : atom := Ch (ci_char a).
Definition literal_ci (s : string) : regex := map lit_ci (chars s).
Definition any_char : ascii -> bool := fun _ => true.            (* [.] with DOTALL *)
Definition not_newline : ascii -> bool := fun c => negb (bool_decide (c = "010"%char)).  (* [.] *)
Definition not_rbrace : ascii -> bool := fun c => negb (bool_decide (c = "}"%char)).     (* [[^}]] *)
Definition not_lower_alnum : ascii -> bool :=
  fun c => negb (between 97 122 c || between 48 57 c).           (* [[^a-z0-9]] *)

End Re.
Import Re.

(** ** [adw_get_teamwork_tasks_direct.py] *)

(** r'\{\{\w+:\s*[^}]+\}\}' *)
Definition inline_tag_re : regex :=
  [lit "{"; lit "{"; Plus isword; lit ":"; Star isspace; Plus not_rbrace; lit "}"; lit "}"].

(** r'\{\{(\w+):\s*([^}]+)\}\}' *)
Definition inline_tag_groups_re : regex :=
  [lit "{"; lit "{"; Paren; Plus isword; Paren; lit ":"; Star isspace;
   Paren; Plus not_rbrace; Paren; lit "}"; lit "}"].

(** r'\s*execute\s*$' with re.IGNORECASE *)
Definition trailing_execute_re : regex :=
  Star isspace :: literal_ci "execute" ++ [Star isspace; Eos].

(** r'continue\s*-\s*.+' with re.IGNORECASE *)
Definition continue_re : regex :=
  literal_ci "continue" ++ [Star isspace; lit "-"; Star isspace; Plus not_newline].

(** r'continue\s*-\s*(.+)' with re.IGNORECASE | re.DOTALL *)
Definition continue_group_re : regex :=
  literal_ci "continue" ++ [Star isspace; lit "-"; Star isspace; Paren; Plus any_char; Paren].

Definition detect_execution_trigger (description : string) : option string :=
  if endswith (strip description) "execute" then Some "execute"
  else match search continue_re (chars description) with
       | Some _ => Some "continue"
       | None => None
       end.

Definition extract_task_prompt (description : string)
    (execution_trigger : option string) : string :=
  let prompt := sub inline_tag_re [] (chars description) in
  match execution_trigger with
  | Some "execute" =>
      str (strip_chars (sub trailing_execute_re [] prompt))
  | Some "continue" =>
      match search continue_group_re prompt with
      | Some m => str (strip_chars (group1 m))
      | None => str (strip_chars prompt)
      end
  | _ => str (strip_chars prompt)
  end.

(** [extract_inline_tags]: later occurrences of a key overwrite earlier ones. *)
Definition extract_inline_tags (description : string) : gmap string string :=
  foldl (fun tags kv => <[str (strip_chars (fst kv)) := str (strip_chars (snd kv))]> tags)
        ∅ (findall2 inline_tag_groups_re (chars description)).

(** ** [adw_modules/data_models.py] *)

(** [a or b] on an [Optional[str]] and a [str]. *)
Definition py_or (a : option string) (b : string) : string :=
  match a with
  | Some s => if truthy s then s else b
  | None => b
  end.

(** [a or b] on two [Optional[str]]. *)
Definition py_or_opt (a b : option string) : option string :=
  if truthy_opt a then a else b.

(** [a == "lit"] for an [Optional[str]] *)
Definition opt_is (a : option string) (s : string) : bool :=
  match a with
  | Some x => String.eqb x s
  | None => false
  end.

Record TeamworkTask : Type := {
  task_id : string;
  project_id : string;
  title : string;
  status : string;
  description : string;
  tags : gmap string string;
  worktree : option string;
  model : option string;
  workflow_type : option string;
  prototype : option string;
  execution_trigger : option string;
  task_prompt : option string;
  assigned_to : option string;
  created_time : option string;
  last_edited_time : option string;
  due_date : option string;
  priority : option string;
  estimated_minutes : option Z
}.

Definition eligible_statuses : list string := ["new"; "to do"; "review"].

(** The Python expression is a chain of [and]; its truth value is modelled. *)
Definition is_eligible_for_processing (self : TeamworkTask) : bool :=
  truthy (status self)
  && str_in (lower (status self)) eligible_statuses
  && opt_in (execution_trigger self) ["execute"; "continue"].

(** r'\{\{[^}]+\}\}' *)
Definition brace_span_re : regex :=
  [lit "{"; lit "{"; Plus not_rbrace; lit "}"; lit "}"].

Definition get_task_prompt_for_agent (self : TeamworkTask) : string :=
  if opt_is (execution_trigger self) "continue" then py_or (task_prompt self) ""
  else
    let desc := sub brace_span_re [] (chars (description self)) in
    let desc := remove_all (chars "execute") desc in
    str (strip_chars desc).

Definition get_preferred_model (self : TeamworkTask) : string :=
  let model := py_or (model self) (default "sonnet" (tags self !! "model")) in
  if str_in model ["opus"; "sonnet"] then model else "sonnet".

Definition should_use_full_workflow (self : TeamworkTask) : bool :=
  opt_is (workflow_type self) "plan"
  || opt_is (tags self !! "workflow") "plan"
  || bool_decide (500 < len (py_or (task_prompt self) "")).

Record TeamworkCronConfig : Type := {
  cfg_project_id : string;
  polling_interval : nat;
  max_concurrent_tasks : nat;
  default_model : string;
  apps_directory : string;
  worktree_base_path : string;
  dry_run : bool;
  status_mapping : gmap string string;
  status_filter : list string;
  enable_hil_review : bool
}.

Definition default_status_mapping : gmap string string :=
  <["Not started" := "New"]> (<["In progress" := "In Progress"]> (<["Done" := "Complete"]>
  (<["HIL Review" := "Review"]> (<["Failed" := "Blocked"]> ∅)))).

(** [TeamworkCronConfig(project_id=..., polling_interval=..., max_concurrent_tasks=..., dry_run=...)] *)
Definition make_config (project : string) (interval max_tasks : nat) (dry : bool)
  : TeamworkCronConfig :=
  {| cfg_project_id := project; polling_interval := interval;
     max_concurrent_tasks := max_tasks; default_model := "sonnet";
     apps_directory := "apps"; worktree_base_path := "trees"; dry_run := dry;
     status_mapping := default_status_mapping;
     status_filter := ["new"; "to do"; "review"]; enable_hil_review := true |}.

(** The field constraints pydantic checks when the configuration is built. *)
Definition valid_config (c : TeamworkCronConfig) : Prop :=
  5 <= polling_interval c /\ 1 <= max_concurrent_tasks c <= 10
  /\ (default_model c = "opus" \/ default_model c = "sonnet").

Definition map_status_to_teamwork (self : TeamworkCronConfig) (system_status : string)
  : string :=
  default system_status (status_mapping self !! system_status).

(** ** The world around the monitor

    The agent framework ([execute_template], [generate_short_id],
    [parse_json]), the clock, [subprocess.Popen] and [json] live outside the
    sources.  They are oracles: the n-th interaction of a run may answer
    anything, so a property proved for every [Env] holds for every run. *)

Record AgentTemplateRequest : Type := {
  agent_name : string;
  slash_command : string;
  args : list string;
  adw_id : string;
  req_model : string;
  working_dir : string
}.

(** What a call into the outside world does: it returns a response with its
    [success] flag and [output], or it raises. *)
Inductive call_result : Type :=
| Returned (success : bool) (output : string)
| Raised (msg : string).

(** A JSON value that pydantic is asked to read as a [datetime]: either it
    is the text of a date and time, or it is any other text and the model
    that is given it is rejected. *)
Inductive time_field : Type :=
| DateTime (iso : string)
| NotDateTime (raw : string).

(** The JSON object of a task as [/get_teamwork_tasks] reports it; a field
    is [None] when the key is missing.  The values that are present are
    JSON strings, and [tags] is an object of strings. *)
Record task_dict : Type := {
  d_task_id : option string;
  d_project_id : option string;
  d_title : option string;
  d_status : option string;
  d_description : option string;
  d_tags : option (gmap string string);
  d_execution_trigger : option string;
  d_task_prompt : option string;
  d_assigned_to : option string;
  d_created_time : option time_field;
  d_due_date : option string
}.

(** A task of the [/list_teamwork_tasks] listing. *)
Record listed_task : Type := {
  l_id : string;                       (* str(task.get("id")) *)
  l_name : option string;
  l_description : option string;
  l_status : option string;
  l_tag_ids : list string;
  l_priority : option string
}.

(** [subprocess.run(["git", "rev-parse", "HEAD"], cwd=...)] *)
Inductive git_result : Type :=
| GitExit (returncode : Z) (stdout : string)
| GitRaised (msg : string).

(** The search for the newest [specs/plan-*.md]. *)
Inductive lookup_result : Type :=
| PlanFound (path : string)
| PlanMissing
| LookupRaised (msg : string).

Inductive event : Type :=
| EvTemplate (req : AgentTemplateRequest) (res : call_result)
| EvPopen (argv : list string) (raised : option string)
| EvGit (cwd : string) (res : git_result)
| EvSleep (seconds : nat).

Record Env : Type := {
  generate_short_id : nat -> string;
  now_isoformat : nat -> string;
  execute_template : nat -> AgentTemplateRequest -> call_result;
  popen : nat -> list string -> option string;     (* [Some e]: Popen raised [e] *)
  getcwd : string;
  json_dumps : list (string * string) -> string;   (* json.dumps of a dict *)
  json_dumps_list : list string -> string;         (* json.dumps of a list *)
  parse_json : string -> option (list task_dict);  (* parse_json(output, list) *)
  json_loads_tasks : string -> option (list listed_task);
                                    (* json.loads(output).get("tasks", []) *)
  git_rev_parse : nat -> string -> git_result;
  path_exists : string -> bool;                    (* Path(p).exists() *)
  absolute : string -> string;                     (* str(Path(p).absolute()) *)
  newest_plan_file : nat -> string -> lookup_result
}.

(** The manager's state, the count of interactions so far and their log. *)
Record State : Type := {
  active_adw_ids : gset string;
  tick : nat;
  trace : list event
}.

Definition initial_state : State :=
  {| active_adw_ids := ∅; tick := 0; trace := [] |}.

Definition M (A : Type) : Type := State -> A * State.

Definition ret {A} (a : A) : M A := fun st => (a, st).
Definition bind {A B} (m : M A) (f : A -> M B) : M B :=
  fun st => let (a, st') := m st in f a st'.

Notation "'let*' x ':=' m 'in' k" := (bind m (fun x => k))
  (at level 10, x binder, m at level 200, k at level 200).

Section World.
Context (env : Env).

Definition log (e : event) : M unit := fun st =>
  (tt, {| active_adw_ids := active_adw_ids st; tick := S (tick st);
          trace := trace st ++ [e] |}).

Definition short_id : M string := fun st =>
  (generate_short_id env (tick st),
   {| active_adw_ids := active_adw_ids st; tick := S (tick st); trace := trace st |}).

Definition now : M string := fun st =>
  (now_isoformat env (tick st),
   {| active_adw_ids := active_adw_ids st; tick := S (tick st); trace := trace st |}).

Definition call_template (req : AgentTemplateRequest) : M call_result := fun st =>
  let r := execute_template env (tick st) req in
  (r, snd (log (EvTemplate req r) st)).

Definition call_popen (argv : list string) : M (option string) := fun st =>
  let r := popen env (tick st) argv in
  (r, snd (log (EvPopen argv r) st)).

Definition call_git (cwd : string) : M git_result := fun st =>
  let r := git_rev_parse env (tick st) cwd in
  (r, snd (log (EvGit cwd r) st)).

Definition plan_lookup (dir : string) : M lookup_result := fun st =>
  (newest_plan_file env (tick st) dir,
   {| active_adw_ids := active_adw_ids st; tick := S (tick st); trace := trace st |}).

Definition sleep (seconds : nat) : M unit := log (EvSleep seconds).

Definition ids_contains (x : string) : M bool := fun st =>
  (bool_decide (x ∈ active_adw_ids st), st).
Definition ids_add (x : string) : M unit := fun st =>
  (tt, {| active_adw_ids := {[x]} ∪ active_adw_ids st; tick := tick st;
          trace := trace st |}).
Definition ids_discard (x : string) : M unit := fun st =>
  (tt, {| active_adw_ids := active_adw_ids st ∖ {[x]}; tick := tick st;
          trace := trace st |}).

End World.

(** ** [adw_trigger_cron_teamwork_tasks.py]: [TeamworkTaskManager] *)

(** r'[^a-z0-9]+' *)
Definition non_alnum_run_re : regex := [Plus not_lower_alnum].

Definition is_hyphen (c : ascii) : bool := bool_decide (c = "-"%char).

Definition build_script : string := "./adws/adw_build_update_teamwork_task.py".
Definition plan_implement_script : string :=
  "./adws/adw_plan_implement_update_teamwork_task.py".

(** What pydantic makes of the value given for an [Optional[datetime]]
    field: [None] when it raises. *)
Definition read_datetime (value : option time_field) : option (option string) :=
  match value with
  | None => Some None
  | Some (DateTime iso) => Some (Some iso)
  | Some (NotDateTime _) => None
  end.

(** The [TeamworkTask(...)] call of [get_eligible_tasks]: pydantic rejects
    a task whose required [str] field is missing, and one whose
    [created_time] is no [datetime]. *)
Definition task_of_dict (d : task_dict) : option TeamworkTask :=
  match d_task_id d, d_project_id d, d_status d, read_datetime (d_created_time d) with
  | Some tid, Some pid, Some st, Some created =>
      let tgs := default ∅ (d_tags d) in
      Some {| task_id := tid; project_id := pid;
              title := default "" (d_title d);
              status := st;
              description := default "" (d_description d);
              tags := tgs;
              worktree := tgs !! "worktree";
              model := tgs !! "model";
              workflow_type := tgs !! "workflow";
              prototype := tgs !! "prototype";
              execution_trigger := d_execution_trigger d;
              task_prompt := Some (default "" (d_task_prompt d));
              assigned_to := d_assigned_to d;
              created_time := created;
              last_edited_time := None;
              due_date := d_due_date d;
              priority := None;
              estimated_minutes := None |}
  | _, _, _, _ => None
  end.

Section Manager.
Context (env : Env) (config : TeamworkCronConfig).

Definition get_eligible_tasks (limit : nat) : M (list TeamworkTask) :=
  let* id := short_id env in
  let request :=
    {| agent_name := "teamwork-task-fetcher";
       slash_command := "/get_teamwork_tasks";
       args := [cfg_project_id config; json_dumps_list env (status_filter config);
                pretty limit];
       adw_id := id; req_model := "sonnet"; working_dir := getcwd env |} in
  let* response := call_template env request in
  match response with
  | Raised _ => ret []
  | Returned false _ => ret []
  | Returned true output =>
      match parse_json env output with
      | None => ret []
      | Some task_data =>
          ret (filter (fun t => is_eligible_for_processing t = true)
                      (omap task_of_dict task_data))
      end
  end.

Definition update_task_status (task : string) (status : string)
    (update_content : string) : M bool :=
  let teamwork_status := map_status_to_teamwork config status in
  let* id := short_id env in
  let request :=
    {| agent_name := "teamwork-task-updater";
       slash_command := "/update_teamwork_task";
       args := [task; teamwork_status; update_content];
       adw_id := id; req_model := "sonnet"; working_dir := getcwd env |} in
  let* response := call_template env request in
  match response with
  | Returned true _ => ret true
  | Returned false _ => ret false
  | Raised _ => ret false
  end.

(** [task.title.lower()] is taken with [lower_chars]: see [lower_char] for
    the range of characters it covers. *)
Definition _generate_worktree_name (task : TeamworkTask) : string :=
  let name := lower_chars (chars (title task)) in
  let name := sub non_alnum_run_re ["-"%char] name in
  let name := strip_with is_hyphen name in
  let name := if bool_decide (50 < length name) then take 50 name else name in
  if truthy_opt (prototype task) then "proto-" +:+ str name else "feat-" +:+ str name.

(** [task.worktree or task.tags.get("worktree")], or a generated name. *)
Definition worktree_name_for (task : TeamworkTask) : string :=
  match py_or_opt (worktree task) (tags task !! "worktree") with
  | Some w => if truthy w then w else _generate_worktree_name task
  | None => _generate_worktree_name task
  end.

Definition _determine_workflow (task : TeamworkTask) : string :=
  if truthy_opt (prototype task)
  then "plan-implement (" +:+ default "" (prototype task) +:+ ")"
  else if should_use_full_workflow task then "plan-implement"
  else "build".

(** The script and the arguments [delegate_task] hands to [Popen]. *)
Definition workflow_command (task : TeamworkTask)
    (id task_prompt worktree_name model : string) : string * list string :=
  if truthy_opt (prototype task) then
    (plan_implement_script,
     [id; task_id task; task_prompt; worktree_name; default "" (prototype task);
      model; cfg_project_id config])
  else if should_use_full_workflow task then
    (plan_implement_script,
     [id; task_id task; task_prompt; worktree_name; ""; model; cfg_project_id config])
  else
    (build_script,
     [id; task_id task; task_prompt; worktree_name; model; cfg_project_id config]).

Definition delegate_task (task : TeamworkTask) : M bool :=
  let* id := short_id env in
  let* duplicate := ids_contains id in
  let* id := (if duplicate then short_id env else ret id) in
  let* _ := ids_add id in
  let model := get_preferred_model task in
  let worktree_name := worktree_name_for task in
  let task_prompt := get_task_prompt_for_agent task in
  let* timestamp := now env in
  let update_metadata :=
    [("adw_id", id); ("timestamp", timestamp); ("model", model);
     ("worktree_name", worktree_name); ("status", "In progress")] in
  let* claimed :=
    update_task_status (task_id task) "In progress" (json_dumps env update_metadata) in
  if negb claimed then
    let* _ := ids_discard id in
    ret false
  else
    let (script_path, script_args) :=
      workflow_command task id task_prompt worktree_name model in
    if dry_run config then ret true
    else
      let* raised := call_popen env (script_path :: script_args) in
      match raised with
      | None => ret true
      | Some e =>
          let* timestamp := now env in
          let error_metadata :=
            [("adw_id", id); ("error", e); ("timestamp", timestamp)] in
          let* _ :=
            update_task_status (task_id task) "Failed" (json_dumps env error_metadata) in
          let* _ := ids_discard id in
          ret false
      end.

(** The [for task in tasks] loop of [run_once]. *)
Fixpoint delegate_all (tasks : list TeamworkTask) (processed : nat) : M nat :=
  match tasks with
  | [] => ret processed
  | task :: rest =>
      let* ok := delegate_task task in
      let* _ := sleep 1 in
      delegate_all rest (if ok then S processed else processed)
  end.

Definition run_once : M nat :=
  let* tasks := get_eligible_tasks (max_concurrent_tasks config) in
  match tasks with
  | [] => ret 0
  | _ => delegate_all tasks 0
  end.

End Manager.

(** ** [adw_trigger_cron_teamwork_tasks_split.py]: one polling cycle of [main] *)

Record eligible_task : Type := {
  e_task_id : string;
  e_title : option string;
  e_description : string;
  e_status : string;
  e_tags : gmap string string;
  e_execution_trigger : option string;
  e_task_prompt : string;
  e_priority : option string
}.

(** Step 2 of the cycle: the status filter and the trigger check. *)
Definition split_check (task : listed_task) : option eligible_task :=
  let description := default "" (l_description task) in
  let status := lower (default "" (l_status task)) in
  if negb (str_in status ["new"; "to do"; "review"]) then None
  else
    let execution_trigger := detect_execution_trigger description in
    if negb (truthy_opt execution_trigger) then None
    else
      let inline_tags := extract_inline_tags description in
      Some {| e_task_id := l_id task; e_title := l_name task;
              e_description := description; e_status := status;
              e_tags := inline_tags;
              e_execution_trigger := execution_trigger;
              e_task_prompt := extract_task_prompt description execution_trigger;
              e_priority := l_priority task |}.

Section SplitMonitor.
Context (env : Env) (config : TeamworkCronConfig).

(** [task_description[:50].lower()] is taken with [lower_chars]: see
    [lower_char] for the range of characters it covers. *)
Definition make_worktree_name (task_description : string) (has_prototype : bool)
  : M string :=
  let name := lower_chars (take 50 (chars task_description)) in
  let name := sub non_alnum_run_re ["-"%char] name in
  let name := strip_with is_hyphen name in
  let prefix := if has_prototype then "proto" else "feat" in
  match name with
  | [] => let* id := short_id env in ret (prefix +:+ "-task-" +:+ id)
  | _ => ret (prefix +:+ "-" +:+ str name)
  end.

Definition spawn_workflow (script_path : string) (script_args : list string)
    (dry : bool) : M bool :=
  if dry then ret true
  else
    let* raised := call_popen env (script_path :: script_args) in
    match raised with
    | None => ret true
    | Some _ => ret false
    end.

(** Step 3: the loop over [eligible_tasks[:config.max_concurrent_tasks]]. *)
Fixpoint spawn_all (tasks : list eligible_task) (processed : nat) : M nat :=
  match tasks with
  | [] => ret processed
  | task :: rest =>
      let* id := short_id env in
      let prototype := e_tags task !! "prototype" in
      let has_prototype := truthy_opt prototype in
      let model := default "sonnet" (e_tags task !! "model") in
      let* worktree_name := make_worktree_name (e_task_prompt task) has_prototype in
      let (script_path, script_args) :=
        if has_prototype then
          (plan_implement_script,
           [id; e_task_id task; e_task_prompt task; worktree_name;
            default "" prototype; "--model"; model;
            "--project-id"; cfg_project_id config])
        else
          (build_script,
           [id; e_task_id task; e_task_prompt task; worktree_name;
            "--model"; model; "--project-id"; cfg_project_id config]) in
      let* ok := spawn_workflow script_path script_args (dry_run config) in
      spawn_all rest (if ok then S processed else processed)
  end.

Definition split_cycle : M nat :=
  let* id := short_id env in
  let request :=
    {| agent_name := "list-tasks"; slash_command := "/list_teamwork_tasks";
       args := [cfg_project_id config; "10"];
       adw_id := id; req_model := "sonnet"; working_dir := getcwd env |} in
  let* response := call_template env request in
  match response with
  | Raised _ => ret 0
  | Returned false _ => ret 0
  | Returned true output =>
      match json_loads_tasks env output with
      | None => ret 0
      | Some tasks =>
          let eligible_tasks := omap split_check tasks in
          spawn_all (take (max_concurrent_tasks config) eligible_tasks) 0
      end
  end.

End SplitMonitor.

(** ** The spawned workflows: [adw_build_update_teamwork_task.py] and
       [adw_plan_implement_update_teamwork_task.py]

    [main] returns the exit status of the process.  The state of a workflow
    process has no in-flight set of its own; [active_adw_ids] is left alone. *)

Section Workflows.
Context (env : Env).

Definition workflow_dir (worktree_name : string) : string :=
  let worktree_path :=
    "../trees/" +:+ worktree_name +:+ "/tac8_app4__agentic_prototyping" in
  if path_exists env worktree_path then absolute env worktree_path else getcwd env.

(** The inner [try] around [git rev-parse HEAD]: [result.stdout.strip()[:8]]
    when the return code is 0, no hash otherwise. *)
Definition read_commit_hash (dir : string) : M (option string) :=
  let* result := call_git env dir in
  match result with
  | GitExit 0 stdout => ret (Some (str (take 8 (strip_chars (chars stdout)))))
  | GitExit _ _ => ret None
  | GitRaised _ => ret None
  end.

(** What the [try] block of a workflow leaves in its local variables. *)
Record outcome : Type := {
  workflow_success : bool;
  commit_hash : option string;
  error_message : option string;
  plan_path : option string;
  last_output : string      (* the response output used for "result" *)
}.

Definition final_status (o : outcome) : string :=
  if workflow_success o && truthy_opt (commit_hash o) then "Done" else "Failed".

(** Phase "update": the request sent to Teamwork and the exit status. *)
Definition send_update (o : outcome) (id task model worktree_name dir : string)
    (update_content : list (string * string)) : M Z :=
  let update_request :=
    {| agent_name := "teamwork-updater-" +:+ worktree_name;
       slash_command := "/update_teamwork_task";
       args := [task; final_status o; json_dumps env update_content];
       adw_id := id; req_model := model; working_dir := dir |} in
  let* update_response := call_template env update_request in
  match update_response with
  | Raised _ => ret 1%Z       (* the exception leaves [main]: status 1 *)
  | Returned _ _ => ret (if workflow_success o then 0 else 1)%Z
  end.

Definition build_try (id task_description worktree_name model dir : string)
  : M outcome :=
  let build_request :=
    {| agent_name := "build-" +:+ worktree_name; slash_command := "/build";
       args := [task_description; "."];
       adw_id := id; req_model := model; working_dir := dir |} in
  let* build_response := call_template env build_request in
  match build_response with
  | Raised e =>
      ret {| workflow_success := false; commit_hash := None;
             error_message := Some ("Exception during build: " +:+ e);
             plan_path := None; last_output := "" |}
  | Returned false output =>
      ret {| workflow_success := false; commit_hash := None;
             error_message := Some ("Build failed: " +:+ output);
             plan_path := None; last_output := "" |}
  | Returned true output =>
      let* hash := read_commit_hash dir in
      ret {| workflow_success := true; commit_hash := hash;
             error_message := None; plan_path := None; last_output := output |}
  end.

Definition build_main (id task task_description worktree_name model : string)
    (project : option string) : M Z :=
  let dir := workflow_dir worktree_name in
  let* o := build_try id task_description worktree_name model dir in
  let* timestamp := now env in
  let update_content :=
    [("status", final_status o); ("adw_id", id);
     ("commit_hash", py_or (commit_hash o) "");
     ("error", py_or (error_message o) "");
     ("timestamp", timestamp); ("model", model);
     ("workflow", "build-update"); ("worktree_name", worktree_name);
     ("result", if workflow_success o then last_output o else "")] in
  send_update o id task model worktree_name dir update_content.

Definition plan_command (prototype : string) : string :=
  if truthy prototype then
    if String.eqb prototype "uv_script" then "/plan_uv_script"
    else if String.eqb prototype "vite_vue" then "/plan_vite_vue"
    else if String.eqb prototype "bun_scripts" then "/plan_bun_scripts"
    else if String.eqb prototype "uv_mcp" then "/plan_uv_mcp"
    else "/plan"
  else "/plan".

Definition failed (msg : string) (plan : option string) : outcome :=
  {| workflow_success := false; commit_hash := None;
     error_message := Some ("Exception during workflow: " +:+ msg);
     plan_path := plan; last_output := "" |}.

Definition plan_implement_try
    (id task_description worktree_name prototype model dir : string) : M outcome :=
  let plan_request :=
    {| agent_name := "plan-" +:+ worktree_name;
       slash_command := plan_command prototype;
       args := [id; task_description];
       adw_id := id; req_model := model; working_dir := dir |} in
  let* plan_response := call_template env plan_request in
  match plan_response with
  | Raised e => ret (failed e None)
  | Returned false output => ret (failed ("Planning failed: " +:+ output) None)
  | Returned true _ =>
      let* found := plan_lookup env dir in
      match found with
      | LookupRaised e => ret (failed e None)
      | _ =>
          let plan := match found with PlanFound p => Some p | _ => None end in
          let implement_args :=
            match plan with
            | Some p => if truthy p then [id; p] else [id; task_description]
            | None => [id; task_description]
            end in
          let implement_request :=
            {| agent_name := "implement-" +:+ worktree_name;
               slash_command := "/implement";
               args := implement_args;
               adw_id := id; req_model := model; working_dir := dir |} in
          let* implement_response := call_template env implement_request in
          match implement_response with
          | Raised e => ret (failed e plan)
          | Returned false output =>
              ret (failed ("Implementation failed: " +:+ output) plan)
          | Returned true output =>
              let* hash := read_commit_hash dir in
              ret {| workflow_success := true; commit_hash := hash;
                     error_message := None; plan_path := plan;
                     last_output := output |}
          end
      end
  end.

Definition plan_implement_main
    (id task task_description worktree_name prototype model : string)
    (project : option string) : M Z :=
  let dir := workflow_dir worktree_name in
  let* o := plan_implement_try id task_description worktree_name prototype model dir in
  let* timestamp := now env in
  let update_content :=
    [("status", final_status o); ("adw_id", id);
     ("commit_hash", py_or (commit_hash o) "");
     ("error", py_or (error_message o) "");
     ("timestamp", timestamp); ("model", model);
     ("workflow", "plan-implement-update"); ("worktree_name", worktree_name);
     ("prototype", prototype);
     ("plan_path", py_or (plan_path o) "");
     ("result", if workflow_success o then last_output o else "")] in
  send_update o id task model worktree_name dir update_content.

End Workflows.

(** ** Vocabulary of the statements *)

Definition all_of (p : ascii -> bool) (l : list ascii) : Prop :=
  Forall (fun c => p c = true) l.

(** The model choice as the specification words it: the explicit model when
    it is set and valid, else the [model] tag when it is valid, else sonnet. *)
Definition valid_model (m : string) : bool := str_in m ["opus"; "sonnet"].

Definition tag_model_or_sonnet (tags : gmap string string) : string :=
  match tags !! "model" with
  | Some m => if valid_model m then m else "sonnet"
  | None => "sonnet"
  end.

Definition spec_select_model (tags : gmap string string) (explicit : option string)
  : string :=
  match explicit with
  | Some m => if valid_model m then m else tag_model_or_sonnet tags
  | None => tag_model_or_sonnet tags
  end.

(** A task with the given status, description, tags, stored trigger and
    explicit model, and nothing else. *)
Definition plain_task (st desc : string) (tgs : gmap string string)
    (trigger explicit : option string) : TeamworkTask :=
  {| task_id := "1"; project_id := "805682"; title := ""; status := st;
     description := desc; tags := tgs; worktree := None; model := explicit;
     workflow_type := None; prototype := None; execution_trigger := trigger;
     task_prompt := None; assigned_to := None; created_time := None;
     last_edited_time := None; due_date := None; priority := None;
     estimated_minutes := None |}.

(** The JSON object of a task with the given tags and prompt. *)
Definition plain_dict (tgs : gmap string string) (prompt : string) : task_dict :=
  {| d_task_id := Some "1"; d_project_id := Some "805682"; d_title := Some "task";
     d_status := Some "new"; d_description := Some ""; d_tags := Some tgs;
     d_execution_trigger := Some "execute"; d_task_prompt := Some prompt;
     d_assigned_to := None; d_created_time := None; d_due_date := None |}.

(** The routing condition of the specification. *)
Definition wants_plan (tgs : gmap string string) (prompt : string) : Prop :=
  truthy_opt (tgs !! "prototype") = true
  \/ tgs !! "workflow" = Some "plan"
  \/ 500 < len prompt.

(** Events of a run. *)
Definition is_update (e : event) : bool :=
  match e with
  | EvTemplate req _ => String.eqb (slash_command req) "/update_teamwork_task"
  | _ => false
  end.

Definition is_popen (e : event) : bool :=
  match e with
  | EvPopen _ _ => true
  | _ => false
  end.

Definition is_spawned (e : event) : bool :=
  match e with
  | EvPopen _ None => true
  | _ => false
  end.

(** The agent command [cmd] ran and reported success. *)
Definition command_succeeded (cmd : string) (tr : list event) : Prop :=
  exists req output, EvTemplate req (Returned true output) ∈ tr /\ slash_command req = cmd.

(** [git rev-parse HEAD] returned 0 and printed a hash. *)
Definition hash_retrieved (tr : list event) : Prop :=
  exists cwd stdout, EvGit cwd (GitExit 0 stdout) ∈ tr /\ strip stdout <> "".

(** The run of a workflow ends with exactly one status update [req], sent
    with [status], preceded by the events [before] among which is no update. *)
Definition single_final_update (old new : list event) (before : list event)
    (req : AgentTemplateRequest) (res : call_result) (task status : string) : Prop :=
  new = old ++ before ++ [EvTemplate req res]
  /\ slash_command req = "/update_teamwork_task"
  /\ (exists payload, args req = [task; status; payload])
  /\ Forall (fun e => is_update e = false) before.

(** The outcomes of one [delegate_task]: what it returns, the events it
    logs and the in-flight set it leaves, from the in-flight set [ids] it
    started with and the dispatch identifier [id] it chose. *)
Section Delegation.
Context (env : Env) (config : TeamworkCronConfig) (task : TeamworkTask).

Definition claim_payload (id timestamp : string) : string :=
  json_dumps env
    [("adw_id", id); ("timestamp", timestamp); ("model", get_preferred_model task);
     ("worktree_name", worktree_name_for task); ("status", "In progress")].

Definition error_payload (id e timestamp : string) : string :=
  json_dumps env [("adw_id", id); ("error", e); ("timestamp", timestamp)].

Definition status_update (req : AgentTemplateRequest) (status payload : string) : Prop :=
  slash_command req = "/update_teamwork_task"
  /\ args req = [task_id task; map_status_to_teamwork config status; payload].

Definition spawn_argv (id : string) : list string :=
  let (script_path, script_args) :=
    workflow_command config task id (get_task_prompt_for_agent task)
      (worktree_name_for task) (get_preferred_model task) in
  script_path :: script_args.

Inductive delegation (ids : gset string) (id : string)
  : bool -> list event -> gset string -> Prop :=
| claim_rejected claim res timestamp :
    status_update claim "In progress" (claim_payload id timestamp) ->
    (forall output, res <> Returned true output) ->
    delegation ids id false [EvTemplate claim res] (({[id]} ∪ ids) ∖ {[id]})
| dry_run_only claim output timestamp :
    status_update claim "In progress" (claim_payload id timestamp) ->
    dry_run config = true ->
    delegation ids id true [EvTemplate claim (Returned true output)] ({[id]} ∪ ids)
| spawned claim output timestamp :
    status_update claim "In progress" (claim_payload id timestamp) ->
    dry_run config = false ->
    delegation ids id true
      [EvTemplate claim (Returned true output); EvPopen (spawn_argv id) None]
      ({[id]} ∪ ids)
| rolled_back claim output timestamp e rollback res timestamp' :
    status_update claim "In progress" (claim_payload id timestamp) ->
    dry_run config = false ->
    status_update rollback "Failed" (error_payload id e timestamp') ->
    delegation ids id false
      [EvTemplate claim (Returned true output); EvPopen (spawn_argv id) (Some e);
       EvTemplate rollback res]
      (({[id]} ∪ ids) ∖ {[id]}).

(** The identifier [delegate_task] settles on: the first one generated,
    or the second one when the first is in flight. *)
Definition chosen_id (st : State) : string :=
  if bool_decide (generate_short_id env (tick st) ∈ active_adw_ids st)
  then generate_short_id env (S (tick st))
  else generate_short_id env (tick st).

End Delegation.

(** The events of the loop of [run_once] over [tasks]: for each task in
    turn the events of one [delegate_task], which begin with the claim of
    that task, and one second of sleep. *)
Inductive delegated_in_turn (env : Env) (config : TeamworkCronConfig)
  : list TeamworkTask -> list event -> Prop :=
| delegated_none : delegated_in_turn env config [] []
| delegated_next task rest ids id ok new ids' events :
    delegation env config task ids id ok new ids' ->
    delegated_in_turn env config rest events ->
    delegated_in_turn env config (task :: rest) (new ++ EvSleep 1 :: events).

(** A concrete world for examples: identifiers, agent responses and spawn
    results are given per interaction; the listing commands always report
    the same tasks. *)
Definition scripted_env (ids : nat -> string)
    (respond : nat -> AgentTemplateRequest -> call_result)
    (spawn : nat -> list string -> option string)
    (fetched : list task_dict) (listed : list listed_task) : Env :=
  {| generate_short_id := ids;
     now_isoformat := fun _ => "2025-11-11T09:00:00";
     execute_template := respond;
     popen := spawn;
     getcwd := "/repo";
     json_dumps := fun kv =>
       String.concat "," (map (fun p => fst p +:+ "=" +:+ snd p) kv);
     json_dumps_list := String.concat ",";
     parse_json := fun _ => Some fetched;
     json_loads_tasks := fun _ => Some listed;
     git_rev_parse := fun _ _ => GitExit 0 "0123456789abcdef";
     path_exists := fun _ => false;
     absolute := fun p => p;
     newest_plan_file := fun _ _ => PlanMissing |}.

(** A world in which the agent answers as [respond] says and
    [git rev-parse HEAD] fails: the working directory is no repository. *)
Definition no_repository_env (respond : nat -> AgentTemplateRequest -> call_result)
  : Env :=
  {| generate_short_id := fun _ => "a1b2c3d4";
     now_isoformat := fun _ => "2025-11-11T09:00:00";
     execute_template := respond;
     popen := fun _ _ => None;
     getcwd := "/repo";
     json_dumps := fun kv =>
       String.concat "," (map (fun p => fst p +:+ "=" +:+ snd p) kv);
     json_dumps_list := String.concat ",";
     parse_json := fun _ => None;
     json_loads_tasks := fun _ => None;
     git_rev_parse := fun _ _ => GitExit 128 "";
     path_exists := fun _ => false;
     absolute := fun p => p;
     newest_plan_file := fun _ _ => PlanMissing |}.

(** Every command succeeds, and the call that sends the status update
    raises. *)
Definition update_raises (n : nat) (req : AgentTemplateRequest) : call_result :=
  if String.eqb (slash_command req) "/update_teamwork_task"
  then Raised "connection refused"
  else Returned true "ok".

(** An eligible task "fix the login bug execute" with the given identifier. *)
Definition login_task (id : string) : TeamworkTask :=
  {| task_id := id; project_id := "805682"; title := "Fix the login bug!!";
     status := "new"; description := "fix the login bug execute"; tags := ∅;
     worktree := None; model := None; workflow_type := None; prototype := None;
     execution_trigger := Some "execute"; task_prompt := Some "fix the login bug";
     assigned_to := None; created_time := None; last_edited_time := None;
     due_date := None; priority := None; estimated_minutes := None |}.

Definition login_dict (id : string) : task_dict :=
  {| d_task_id := Some id; d_project_id := Some "805682";
     d_title := Some "Fix the login bug!!"; d_status := Some "new";
     d_description := Some "fix the login bug execute"; d_tags := None;
     d_execution_trigger := Some "execute"; d_task_prompt := Some "fix the login bug";
     d_assigned_to := None; d_created_time := None; d_due_date := None |}.

(** [login_dict] with the given value under ["created_time"]. *)
Definition login_dict_created (id : string) (created : time_field) : task_dict :=
  {| d_task_id := Some id; d_project_id := Some "805682";
     d_title := Some "Fix the login bug!!"; d_status := Some "new";
     d_description := Some "fix the login bug execute"; d_tags := None;
     d_execution_trigger := Some "execute"; d_task_prompt := Some "fix the login bug";
     d_assigned_to := None; d_created_time := Some created; d_due_date := None |}.

Definition login_listed (id : string) : listed_task :=
  {| l_id := id; l_name := Some "Fix the login bug!!";
     l_description := Some "fix the login bug execute"; l_status := Some "New";
     l_tag_ids := []; l_priority := None |}.

Definition default_config : TeamworkCronConfig := make_config "805682" 15 3 false.

(** The claim succeeded: the first logged event is a status update that
    returned success. *)
Definition claim_succeeded (new : list event) : Prop :=
  exists claim output rest, new = EvTemplate claim (Returned true output) :: rest.

(** [Popen] was called and raised. *)
Definition spawn_failed (new : list event) : Prop :=
  exists argv e, EvPopen argv (Some e) ∈ new.

Definition count (p : event -> bool) (l : list event) : nat :=
  length (List.filter p l).

(** The task identifiers handed to the executions that were started. *)
Definition spawned_task_ids (l : list event) : list string :=
  omap (fun e => match e with
                 | EvPopen argv None => argv !! 2
                 | _ => None
                 end) l.

(** What a pattern denotes, without the order in which the matcher tries
    the alternatives: [parses re s r] when [re] matches a prefix of [s] and
    reports [r]. *)
Fixpoint parses (re : regex) (s : list ascii) (r : result) : Prop :=
  match re with
  | [] => r = ([], s)
  | Ch p :: k => exists c s', s = c :: s' /\ p c = true /\ parses k s' r
  | Star p :: k => exists w t, s = w ++ t /\ all_of p w /\ parses k t r
  | Plus p :: k =>
      exists c w t, s = c :: w ++ t /\ p c = true /\ all_of p w /\ parses k t r
  | Paren :: k => exists marks rest, r = (s :: marks, rest) /\ parses k s (marks, rest)
  | Eos :: k => at_end s = true /\ parses k s r
  end.

Definition no_space (l : list ascii) : Prop := Forall (fun c => isspace c = false) l.

(** The text starts with "continue", optional whitespace and a hyphen. *)
Definition starts_with_marker (t : list ascii) : Prop :=
  exists k w r, t = k ++ w ++ "-"%char :: r
                /\ ci_eq k (chars "continue") /\ all_of isspace w.

(** No place inside [pre] starts such a marker in [pre ++ rest]: a marker
    at the start of [rest] is the first one. *)
Definition first_marker (pre rest : list ascii) : Prop :=
  forall a b, pre = a ++ b -> b <> [] -> ~ starts_with_marker (b ++ rest).

Definition is_newline (c : ascii) : bool := bool_decide (c = "010"%char).

Definition has_non_newline (l : list ascii) : Prop :=
  exists c, c ∈ l /\ is_newline c = false.

Definition is_brace (c : ascii) : bool :=
  bool_decide (c = "{"%char) || bool_decide (c = "}"%char).

Definition no_brace (l : list ascii) : Prop := Forall (fun c => is_brace c = false) l.

(** A text whose braces all belong to inline tags [{{key: value}}]: the key
    is made of word characters, the value has no brace. *)
Inductive tagged_text : list ascii -> Prop :=
| tagged_nil : tagged_text []
| tagged_char c s : is_brace c = false -> tagged_text s -> tagged_text (c :: s)
| tagged_tag key value s :
    key <> [] -> all_of isword key -> value <> [] -> no_brace value ->
    tagged_text s ->
    tagged_text ("{"%char :: "{"%char :: key ++ ":"%char :: value
                   ++ "}"%char :: "}"%char :: s).

(** The text has a piece that starts with "{{" and ends with "}}". *)
Definition has_span (l : list ascii) : Prop :=
  exists a b c, l = a ++ "{"%char :: "{"%char :: b ++ "}"%char :: "}"%char :: c.

(** [k] is the keyword of the trigger as a body spells it: "execute" in
    lower case (the detection is exact), "continue" in any letter case. *)
Definition keyword_matches (trigger : string) (k : list ascii) : Prop :=
  (trigger = "execute" /\ k = chars "execute")
  \/ (trigger = "continue" /\ ci_eq k (chars "continue")).

Definition contains_keyword (trigger : string) (l : list ascii) : Prop :=
  exists a k b, l = a ++ k ++ b /\ keyword_matches trigger k.

(** The keyword occurs once in the text, as the trigger: "execute" followed
    by whitespace only, or "continue" followed by optional whitespace, a
    hyphen and some text. *)
Definition keyword_once (trigger : string) (l : list ascii) : Prop :=
  exists pre k post,
    l = pre ++ k ++ post
    /\ keyword_matches trigger k
    /\ (forall a k' b, l = a ++ k' ++ b -> keyword_matches trigger k' -> a = pre)
    /\ (trigger = "execute" -> all_of isspace post)
    /\ (trigger = "continue" ->
        exists w rest, post = w ++ "-"%char :: rest /\ all_of isspace w /\ rest <> []).

(** The task the fetch step builds for a body and its detected trigger. *)
Definition fetched_task (body : string) (trigger : option string) : TeamworkTask :=
  {| task_id := "1"; project_id := "805682"; title := ""; status := "new";
     description := body; tags := extract_inline_tags body; worktree := None;
     model := None; workflow_type := None; prototype := None;
     execution_trigger := trigger;
     task_prompt := Some (extract_task_prompt body trigger);
     assigned_to := None; created_time := None; last_edited_time := None;
     due_date := None; priority := None; estimated_minutes := None |}.

(** ** [adw_modules/data_models.py]: the task list models *)

Module SystemTag.

Definition PLAN_IMPLEMENT_UPDATE : string := "adw_plan_implement_update_task".
Definition OPUS : string := "opus".
Definition SONNET : string := "sonnet".

Definition get_workflow_tags : list string := [PLAN_IMPLEMENT_UPDATE].
Definition get_model_tags : list string := [OPUS; SONNET].

Definition extract_model_from_tags (tags : list string) : option string :=
  if str_in OPUS tags then Some "opus"
  else if str_in SONNET tags then Some "sonnet"
  else None.

Definition extract_workflow_from_tags (tags : list string) : bool :=
  str_in PLAN_IMPLEMENT_UPDATE tags.

End SystemTag.

Module TaskList.

(** The five values of [Literal["[]", "[⏰]", "[🟡]", "[✅]", "[❌]"]]; pydantic
    and [validate_status] reject every other value when a [Task] is built. *)
Inductive status_mark : Type :=
| NotStarted      (* "[]" *)
| Blocked         (* "[⏰]" *)
| InProgress      (* "[🟡]" *)
| Succeeded       (* "[✅]" *)
| Failed.         (* "[❌]" *)

#[global] Instance status_mark_eq_dec : EqDecision status_mark.
Proof. solve_decision. Defined.

Record Task : Type := {
  description : string;
  status : status_mark;
  adw_id : option string;
  commit_hash : option string;
  tags : list string;
  worktree_name : option string
}.

Definition is_eligible_for_pickup (self : Task) : bool :=
  bool_decide (status self ∈ [NotStarted; Blocked]).

Definition is_completed (self : Task) : bool :=
  bool_decide (status self ∈ [Succeeded; Failed]).

Record Worktree : Type := {
  name : string;
  tasks : list Task
}.

(** The body of the loop [for i, task in enumerate(self.tasks)]: the task
    is appended or passed over. *)
Definition pickup (all_tasks : list Task) (it : nat * Task) : option Task :=
  let (i, task) := it in
  match status task with
  | NotStarted => Some task
  | Blocked =>
      if forallb (fun t => bool_decide (status t = Succeeded)) (take i all_tasks)
      then Some task else None
  | _ => None
  end.

Definition get_eligible_tasks (self : Worktree) : list Task :=
  omap (pickup (tasks self)) (imap pair (tasks self)).

End TaskList.

(** ** [adw_modules/data_models.py]: further methods of [TeamworkTask] and
       [TeamworkCronConfig] *)

(** [{key: value.strip() for key, value in matches}] *)
Definition extract_tags_from_description (self : TeamworkTask) : gmap string string :=
  foldl (fun tags kv => <[str (fst kv) := str (strip_chars (snd kv))]> tags)
        ∅ (findall2 inline_tag_groups_re (chars (description self))).

Definition extract_app_context (self : TeamworkTask) : option string :=
  tags self !! "app".

(** [{v: k for k, v in self.status_mapping.items()}].  When two system
    statuses are mapped to the same Teamwork status, Python keeps the one
    the dictionary lists last; a [gmap] does not record that order, and the
    statements below do not depend on which one is kept. *)
Definition reverse_status_mapping (self : TeamworkCronConfig) : gmap string string :=
  map_fold (fun k v reversed => <[v := k]> reversed) ∅ (status_mapping self).

Definition map_status_from_teamwork (self : TeamworkCronConfig)
    (teamwork_status : string) : string :=
  default teamwork_status (reverse_status_mapping self !! teamwork_status).

(** ** [adw_get_teamwork_tasks_direct.py]: [process_task] *)

(** A task as the Teamwork API reports it; a field is [None] when the key
    is missing.  [r_id] is the value under ['id'] as [str()] prints it. *)
Record raw_task : Type := {
  r_id : option string;
  r_name : option string;
  r_status : option string;
  r_description : option string;
  r_tasklist : option (gmap string string);
  r_createdAt : option string;
  r_dueDate : option string;
  r_priority : option string
}.

Record processed_task : Type := {
  p_task_id : string;
  p_title : string;
  p_status : string;
  p_description : string;
  p_tags : gmap string string;
  p_execution_trigger : option string;
  p_task_prompt : string;
  p_project_id : option string;
  p_created_at : option string;
  p_due_date : option string;
  p_priority : option string
}.

(** A subscript [task['key']] returns the value or raises [KeyError]. *)
Inductive raising (A : Type) : Type :=
| Value (a : A)
| KeyError (key : string).
Arguments Value {A} a.
Arguments KeyError {A} key.

Definition subscript {A B} (field : option A) (key : string)
    (k : A -> raising B) : raising B :=
  match field with
  | Some a => k a
  | None => KeyError key
  end.

Definition process_task (task : raw_task) : raising (option processed_task) :=
  let description := default "" (r_description task) in
  let execution_trigger := detect_execution_trigger description in
  if negb (truthy_opt execution_trigger) then Value None
  else
    let inline_tags := extract_inline_tags description in
    let tags := inline_tags in
    let task_prompt := extract_task_prompt description execution_trigger in
    subscript (r_id task) "id" (fun id =>
    subscript (r_name task) "name" (fun name =>
    subscript (r_status task) "status" (fun status =>
    Value (Some
      {| p_task_id := id; p_title := name; p_status := status;
         p_description := description; p_tags := tags;
         p_execution_trigger := execution_trigger;
         p_task_prompt := task_prompt;
         p_project_id := default ∅ (r_tasklist task) !! "id";
         p_created_at := r_createdAt task;
         p_due_date := r_dueDate task;
         p_priority := r_priority task |})))).

(** ** [adw_trigger_cron_teamwork_tasks.py]: [run_continuous] *)

Section Continuous.
Context (env : Env) (config : TeamworkCronConfig).

(** The first [cycles] iterations of the [while True] loop. *)
Fixpoint run_continuous (cycles : nat) : M unit :=
  match cycles with
  | 0 => ret tt
  | S remaining =>
      let* _ := run_once env config in
      let* _ := sleep (polling_interval config) in
      run_continuous remaining
  end.

End Continuous.

(** ** [adw_trigger_cron_teamwork_tasks_split.py]: the loop of [main] *)

Section SplitLoop.
Context (env : Env) (config : TeamworkCronConfig).


End SplitLoop.

(** ** [adw_trigger_cron_teamwork_tasks_simple.py] *)

Module Simple.

Definition make_worktree_name (env : Env) (task_description : string) : M string :=
  let name := lower_chars (take 50 (chars task_description)) in
  let name := sub non_alnum_run_re ["-"%char] name in
  let name := strip_with is_hyphen name in
  match name with
  | [] => let* id := short_id env in ret ("proto-task-" +:+ id)
  | _ => ret ("proto-" +:+ str name)
  end.

End Simple.

(** ** Further vocabulary *)

(** A character of a worktree slug: [a-z], [0-9] or a hyphen. *)
Definition slug_char (c : ascii) : bool :=
  between 97 122 c || between 48 57 c || is_hyphen c.

(** The text has no two hyphens in a row. *)
Fixpoint single_hyphens (l : list ascii) : Prop :=
  match l with
  | a :: ((b :: _) as rest) => ~ (a = "-"%char /\ b = "-"%char) /\ single_hyphens rest
  | _ => True
  end.

Definition is_fetch (e : event) : bool :=
  match e with
  | EvTemplate req _ => String.eqb (slash_command req) "/get_teamwork_tasks"
  | _ => false
  end.

Definition is_sleep (seconds : nat) (e : event) : bool :=
  match e with
  | EvSleep n => bool_decide (n = seconds)
  | _ => false
  end.

(** A status update that Teamwork accepted. *)
Definition is_accepted_update (e : event) : bool :=
  match e with
  | EvTemplate req (Returned true _) =>
      String.eqb (slash_command req) "/update_teamwork_task"
  | _ => false
  end.

Definition accepted (res : call_result) : Prop :=
  exists output, res = Returned true output.

Definition returned (res : call_result) : Prop :=
  exists success output, res = Returned success output.

(** The script the split monitor picks for a task. *)
Definition split_script (task : eligible_task) : string :=
  if truthy_opt (e_tags task !! "prototype") then plan_implement_script else build_script.

(** The first element of the command line of each [Popen] call. *)
Definition popen_scripts (l : list event) : list string :=
  omap (fun e => match e with
                 | EvPopen argv _ => head argv
                 | _ => None
                 end) l.

(** Every request of a workflow run carries the run's identifier, model
    and working directory. *)
Definition in_context (id model dir : string) (e : event) : Prop :=
  match e with
  | EvTemplate req _ => adw_id req = id /\ req_model req = model /\ working_dir req = dir
  | EvGit cwd _ => cwd = dir
  | _ => False
  end.

(** A letter or digit of ASCII, in either case. *)
Definition is_ascii_alnum (c : ascii) : bool :=
  between 97 122 c || between 65 90 c || between 48 57 c.

(** [str.isascii]: every character is a code point below 128. *)
Definition isascii (l : list ascii) : Prop :=
  Forall (fun c => between 0 127 c = true) l.

(** The implementation request of a plan-implement run: it names the plan
    file when one was found, and the task description otherwise. *)
Definition implement_request (env : Env) (id task_description dir : string)
    (req : AgentTemplateRequest) : Prop :=
  slash_command req = "/implement"
  /\ exists target,
       args req = [id; target]
       /\ (target = task_description
           \/ (target <> "" /\ exists n, newest_plan_file env n dir = PlanFound target)).

(** A task of a task list with the given status and description. *)
Definition sample_task (mark : TaskList.status_mark) (text : string) : TaskList.Task :=
  {| TaskList.description := text; TaskList.status := mark; TaskList.adw_id := None;
     TaskList.commit_hash := None; TaskList.tags := []; TaskList.worktree_name := None |}.

(** A pattern without its parentheses. *)
Definition erase_groups (re : regex) : regex :=
  List.filter (fun a => match a with Paren => false | _ => true end) re.



(** The entry [extract_inline_tags] stores for a pair of captured texts. *)
Definition tag_entry (kv : list ascii * list ascii) : string * string :=
  (str (strip_chars (fst kv)), str (strip_chars (snd kv))).

(** The text of a tag, [{{key:value}}]. *)
Definition tag_text (key value : list ascii) : list ascii :=
  "{"%char :: "{"%char :: key ++ ":"%char :: value ++ ["}"%char; "}"%char].

(** * Properties *)

(** ** Strings *)

Lemma chars_str l : chars (str l) = l.
Proof. apply String.list_ascii_of_string_of_list_ascii. Qed.

Lemma str_chars s : str (chars s) = s.
Proof. apply String.string_of_list_ascii_of_string. Qed.

Lemma eqb_true_iff (a b : string) : String.eqb a b = true <-> a = b.
Proof. apply String.eqb_eq. Qed.

Lemma str_in_spec s l : str_in s l = true <-> s ∈ l.
Proof.
  unfold str_in. rewrite existsb_exists. split.
  - intros (x & Hx & Heq). apply eqb_true_iff in Heq. subst.
    by apply list_elem_of_In.
  - intros Hin. exists s. split; [by apply list_elem_of_In | by apply eqb_true_iff].
Qed.

Lemma opt_is_spec o s : opt_is o s = true <-> o = Some s.
Proof.
  destruct o as [x|]; simpl; [|split; discriminate].
  rewrite eqb_true_iff. split; congruence.
Qed.

Lemma truthy_spec s : truthy s = true <-> s <> "".
Proof.
  unfold truthy. destruct (String.eqb s "") eqn:E; simpl.
  - apply eqb_true_iff in E. split; [discriminate | congruence].
  - split; [|done]. intros _ ->. by rewrite String.eqb_refl in E.
Qed.

(** ** Model and workflow routing *)

Lemma get_preferred_model_unfold (t : TeamworkTask) :
  get_preferred_model t =
    (if truthy_opt (model t)
     then (if valid_model (default "" (model t)) then default "" (model t) else "sonnet")
     else tag_model_or_sonnet (tags t)).
Proof.
  unfold get_preferred_model, tag_model_or_sonnet, py_or, truthy_opt.
  fold (valid_model (match model t with
                     | Some s => if truthy s then s else default "sonnet" (tags t !! "model")
                     | None => default "sonnet" (tags t !! "model") end)).
  destruct (model t) as [m|]; simpl; [destruct (truthy m) eqn:Hm|]; [done|..];
    by destruct (tags t !! "model").
Qed.

Lemma valid_model_values m : valid_model m = true -> m = "opus" \/ m = "sonnet".
Proof.
  intros Hin. apply str_in_spec in Hin.
  apply elem_of_cons in Hin as [->|Hin]; [by left|].
  apply elem_of_cons in Hin as [->|Hin]; [by right|].
  by apply elem_of_nil in Hin.
Qed.

(** C9, as amended: [get_preferred_model] returns the explicit model when it
    is set (non-empty) and one of opus and sonnet; when the explicit model is
    set but is another value it returns sonnet without consulting the tags;
    when no explicit model is set it returns the [model] tag if that is opus
    or sonnet, and sonnet otherwise.  The result is always opus or sonnet,
    and it is the model the specification words select except in one case:
    an explicit model that is set to another value, with the tag
    [model: opus].  The function is total: it raises on no input. *)
Theorem get_preferred_model_cases (t : TeamworkTask) :
  get_preferred_model t =
    (if truthy_opt (model t)
     then (if valid_model (default "" (model t)) then default "" (model t) else "sonnet")
     else tag_model_or_sonnet (tags t))
  /\ (get_preferred_model t = "opus" \/ get_preferred_model t = "sonnet")
  /\ (get_preferred_model t = spec_select_model (tags t) (model t)
      \/ (truthy_opt (model t) = true /\ valid_model (default "" (model t)) = false
          /\ tags t !! "model" = Some "opus")).
Proof.
  split; [apply get_preferred_model_unfold|].
  rewrite get_preferred_model_unfold.
  unfold spec_select_model, tag_model_or_sonnet, truthy_opt.
  destruct (model t) as [m|]; simpl.
  - destruct (truthy m) eqn:Hm; destruct (valid_model m) eqn:Hv.
    + split; [by apply valid_model_values | by left].
    + split; [by right|].
      destruct (tags t !! "model") as [x|]; [|by left].
      destruct (valid_model x) eqn:Hx; [|by left].
      apply valid_model_values in Hx as [-> | ->]; [by right | by left].
    + apply valid_model_values in Hv as [-> | ->]; discriminate Hm.
    + split; [|by left].
      destruct (tags t !! "model") as [x|]; [|by right].
      destruct (valid_model x) eqn:Hx; [by apply valid_model_values | by right].
  - split; [|by left].
    destruct (tags t !! "model") as [x|]; [|by right].
    destruct (valid_model x) eqn:Hx; [by apply valid_model_values | by right].
Qed.

(** C9 as stated fails: with the explicit model "haiku" and the tag
    [model: opus] the specification falls back to the tag and answers opus,
    the code answers sonnet. *)
Lemma get_preferred_model_invalid_explicit :
  let t := plain_task "new" "" {["model" := "opus"]} None (Some "haiku") in
  spec_select_model (tags t) (model t) = "opus"
  /\ get_preferred_model t = "sonnet"
  /\ get_preferred_model t <> spec_select_model (tags t) (model t).
Proof. vm_compute. split; [done|]. split; [done|]. discriminate. Qed.

Lemma task_of_dict_fields d t :
  task_of_dict d = Some t ->
  tags t = default ∅ (d_tags d)
  /\ prototype t = default ∅ (d_tags d) !! "prototype"
  /\ workflow_type t = default ∅ (d_tags d) !! "workflow"
  /\ model t = default ∅ (d_tags d) !! "model"
  /\ task_prompt t = Some (default "" (d_task_prompt d))
  /\ execution_trigger t = d_execution_trigger d
  /\ d_status d = Some (status t).
Proof.
  unfold task_of_dict.
  destruct (d_task_id d), (d_project_id d), (d_status d),
    (read_datetime (d_created_time d)); try discriminate.
  intros [= <-]. simpl. by repeat split.
Qed.

Lemma py_or_empty (s : string) : py_or (Some s) "" = s.
Proof.
  unfold py_or. destruct (truthy s) eqn:E; [done|].
  destruct (decide (s = "")) as [->|Hne]; [done|].
  apply truthy_spec in Hne. congruence.
Qed.

Lemma should_use_full_workflow_spec d t :
  task_of_dict d = Some t ->
  should_use_full_workflow t = true <->
    default ∅ (d_tags d) !! "workflow" = Some "plan"
    \/ 500 < len (default "" (d_task_prompt d)).
Proof.
  intros Ht. apply task_of_dict_fields in Ht as (Htags & _ & Hwf & _ & Hp & _).
  unfold should_use_full_workflow. rewrite Hwf, Htags, Hp, py_or_empty.
  rewrite !orb_true_iff, !opt_is_spec, bool_decide_eq_true. tauto.
Qed.

(** C8: for a task built from its tag mapping and prompt, the workflow is
    plan-implement if and only if the [prototype] tag is set (to a non-empty
    value), or the [workflow] tag equals "plan", or the prompt is longer than
    500 characters, and build otherwise; this holds for the script
    [delegate_task] spawns and for the name [_determine_workflow] reports.
    In particular an empty tag mapping with a prompt of 501 characters gives
    plan-implement, with a prompt of 10 characters build, and the tag
    [prototype: uv_script] with a prompt of 1 character plan-implement. *)
Theorem workflow_routing :
  (forall (config : TeamworkCronConfig) (d : task_dict) (t : TeamworkTask)
          (id prompt worktree_name model : string),
      task_of_dict d = Some t ->
      let tgs := default ∅ (d_tags d) in
      let command := workflow_command config t id prompt worktree_name model in
      (wants_plan tgs (default "" (d_task_prompt d)) ->
         fst command = plan_implement_script
         /\ chars "plan-implement" `prefix_of` chars (_determine_workflow t))
      /\ (~ wants_plan tgs (default "" (d_task_prompt d)) ->
         fst command = build_script /\ _determine_workflow t = "build"))
  /\ (forall t, task_of_dict (plain_dict ∅ (str (replicate 501 "a"%char))) = Some t ->
        _determine_workflow t = "plan-implement")
  /\ (forall t, task_of_dict (plain_dict ∅ "0123456789") = Some t ->
        _determine_workflow t = "build")
  /\ (forall t, task_of_dict (plain_dict {["prototype" := "uv_script"]} "x") = Some t ->
        _determine_workflow t = "plan-implement (uv_script)").
Proof.
  split; [|split; [|split]]; try (by intros t [= <-]).
  intros config d t id prompt worktree_name mdl Ht tgs command.
  pose proof (should_use_full_workflow_spec d t Ht) as Hfull.
  pose proof (task_of_dict_fields d t Ht) as (_ & Hproto & _).
  subst command. unfold workflow_command, _determine_workflow, wants_plan.
  rewrite Hproto. fold tgs in Hfull |- *.
  destruct (truthy_opt (tgs !! "prototype")) eqn:Hp.
  - split; [intros _ | intros []; by left].
    split; [done|]. by eexists.
  - destruct (should_use_full_workflow t) eqn:Hf.
    + split; [intros _ | intros []; right; by apply Hfull].
      split; [done|]. by exists [].
    + split; [|done].
      intros [? | Hw]; [done|].
      apply Hfull in Hw. congruence.
Qed.

(** A task with the [workflow: plan] tag and a short prompt is routed to the
    plan-implement script. *)
Lemma workflow_routing_witness :
  let d := plain_dict {["workflow" := "plan"]} "add a flag" in
  exists t, task_of_dict d = Some t
    /\ fst (workflow_command (make_config "805682" 15 3 false) t "a1b2c3d4" "add a flag"
              "feat-add-a-flag" "sonnet") = plan_implement_script.
Proof.
  intros d. eexists. split; [reflexivity|].
  pose proof (proj1 workflow_routing (make_config "805682" 15 3 false) d _
                "a1b2c3d4" "add a flag" "feat-add-a-flag" "sonnet" eq_refl) as H.
  apply H. right; left. reflexivity.
Defined.

(** ** Eligibility *)

Lemma detect_execution_trigger_values body :
  detect_execution_trigger body = None
  \/ detect_execution_trigger body = Some "execute"
  \/ detect_execution_trigger body = Some "continue".
Proof.
  unfold detect_execution_trigger.
  destruct (endswith _ _); [by right; left|].
  destruct (search _ _); [by right; right | by left].
Qed.

Lemma opt_in_triggers o :
  opt_in o ["execute"; "continue"] = true <-> o = Some "execute" \/ o = Some "continue".
Proof.
  destruct o as [s|]; unfold opt_in; [|split; [discriminate | intros [|]; discriminate]].
  rewrite str_in_spec, !elem_of_cons, elem_of_nil.
  split; [intros [->|[->|[]]]; auto | intros [[= ->]|[= ->]]; auto].
Qed.

Lemma split_check_spec (task : listed_task) :
  is_Some (split_check task) <->
    lower (default "" (l_status task)) ∈ eligible_statuses
    /\ detect_execution_trigger (default "" (l_description task)) <> None.
Proof.
  unfold split_check, eligible_statuses.
  destruct (str_in (lower (default "" (l_status task))) ["new"; "to do"; "review"]) eqn:Hs;
    simpl.
  - apply str_in_spec in Hs.
    destruct (detect_execution_trigger_values (default "" (l_description task)))
      as [E|[E|E]]; rewrite E; simpl.
    + split; [by intros [? ?] | by intros [_ ?]].
    + split; [done | by eexists].
    + split; [done | by eexists].
  - split; [by intros [? ?]|]. intros [Hin _]. apply str_in_spec in Hin. congruence.
Qed.

(** C4, as amended: [is_eligible_for_processing] is true if and only if the
    lower-cased status is one of new, to do and review (the list is fixed in
    the code) and the trigger stored on the task is "execute" or "continue".
    When the stored trigger is the one [detect_execution_trigger] finds in
    the description, that is: the status is allowed and a trigger is
    detected.  A task with status done is never eligible, whatever its
    trigger, and a task without a stored trigger is not eligible.  The
    check of the split monitor reads the body itself: it keeps a task if and
    only if the status is allowed and a trigger is detected in the body. *)
Theorem is_eligible_for_processing_spec (t : TeamworkTask) :
  (is_eligible_for_processing t = true <->
     lower (status t) ∈ eligible_statuses
     /\ (execution_trigger t = Some "execute" \/ execution_trigger t = Some "continue"))
  /\ (execution_trigger t = detect_execution_trigger (description t) ->
      (is_eligible_for_processing t = true <->
         lower (status t) ∈ eligible_statuses
         /\ detect_execution_trigger (description t) <> None))
  /\ (lower (status t) = "done" -> is_eligible_for_processing t = false)
  /\ (execution_trigger t = None -> is_eligible_for_processing t = false)
  /\ (forall listed : listed_task,
        is_Some (split_check listed) <->
          lower (default "" (l_status listed)) ∈ eligible_statuses
          /\ detect_execution_trigger (default "" (l_description listed)) <> None).
Proof.
  assert (Hiff : is_eligible_for_processing t = true <->
     lower (status t) ∈ eligible_statuses
     /\ (execution_trigger t = Some "execute" \/ execution_trigger t = Some "continue")).
  { unfold is_eligible_for_processing.
    rewrite !andb_true_iff, str_in_spec, opt_in_triggers, truthy_spec.
    split; [tauto|]. intros [Hst Htr]. repeat split; try done.
    intros E. rewrite E in Hst. vm_compute in Hst.
    repeat (apply elem_of_cons in Hst as [Hst|Hst]; [discriminate|]).
    by apply elem_of_nil in Hst. }
  split; [exact Hiff|]. split; [|split; [|split; [|apply split_check_spec]]].
  - intros Hsync. rewrite Hiff, Hsync.
    destruct (detect_execution_trigger_values (description t)) as [E|[E|E]];
      rewrite E; split; intros [? ?]; split; try done.
    + destruct H0; discriminate.
    + by left.
    + by right.
  - intros Hdone. apply not_true_is_false. rewrite Hiff, Hdone.
    intros [Hin _].
    repeat (apply elem_of_cons in Hin as [Hin|Hin]; [discriminate|]).
    by apply elem_of_nil in Hin.
  - intros Hnone. apply not_true_is_false. rewrite Hiff, Hnone.
    intros [_ [|]]; discriminate.
Qed.

(** A task in status "To Do" whose stored trigger is the detected one. *)
Lemma is_eligible_for_processing_witness :
  let t := plain_task "To Do" "refactor the parser execute" ∅ (Some "execute") None in
  is_eligible_for_processing t = true.
Proof.
  intros t.
  apply (proj1 (proj2 (is_eligible_for_processing_spec t))).
  - vm_compute. reflexivity.
  - split; [vm_compute | vm_compute; discriminate].
    apply elem_of_cons. right. apply elem_of_cons. by left.
Defined.

(** C4 as stated fails on a task whose stored trigger is missing: the status
    is allowed and the body ends in "execute", yet the task is not eligible. *)
Lemma is_eligible_for_processing_stored_trigger :
  let t := plain_task "new" "fix the login bug execute" ∅ None None in
  lower (status t) ∈ eligible_statuses
  /\ detect_execution_trigger (description t) = Some "execute"
  /\ is_eligible_for_processing t = false.
Proof.
  split; [|split]; [|vm_compute; reflexivity..].
  vm_compute. apply elem_of_cons. by left.
Qed.

(** ** The final status a workflow reports *)

Lemma str_nil_iff l : str l = "" <-> l = [].
Proof. destruct l; simpl; split; (done || discriminate). Qed.

Lemma truthy_hash l : truthy (str (take 8 l)) = true <-> str l <> "".
Proof.
  rewrite truthy_spec, !str_nil_iff. destruct l; simpl; split; (done || discriminate).
Qed.

Lemma final_status_done o :
  final_status o = "Done" <->
  workflow_success o = true /\ truthy_opt (commit_hash o) = true.
Proof.
  unfold final_status. rewrite <- andb_true_iff.
  destruct (workflow_success o && truthy_opt (commit_hash o)); split; (done || discriminate).
Qed.

Lemma final_status_values o : final_status o = "Done" \/ final_status o = "Failed".
Proof. unfold final_status. destruct (_ && _); auto. Qed.

(** What [read_commit_hash] logs and returns. *)
Lemma read_commit_hash_spec env dir st :
  exists res,
    snd (read_commit_hash env dir st) =
      {| active_adw_ids := active_adw_ids st; tick := S (tick st);
         trace := trace st ++ [EvGit dir res] |}
    /\ (truthy_opt (fst (read_commit_hash env dir st)) = true <->
        exists stdout, res = GitExit 0 stdout /\ strip stdout <> "").
Proof.
  unfold read_commit_hash, bind, call_git, ret. simpl.
  exists (git_rev_parse env (tick st) dir).
  destruct (git_rev_parse env (tick st) dir) as [[|p|p] out|e]; simpl; split; try done.
  - unfold strip. rewrite truthy_hash. split; [by eexists | by intros (? & [= <-] & ?)].
  - split; [done | by intros (? & [=] & _)].
  - split; [done | by intros (? & [=] & _)].
  - split; [done | by intros (? & [=] & _)].
Qed.

Ltac split_events :=
  repeat (match goal with
          | H : _ ∈ _ :: _ |- _ => apply elem_of_cons in H as [H|H]
          | H : _ ∈ [] |- _ => by apply elem_of_nil in H
          end; simplify_eq).

Lemma build_try_spec env id task_description worktree_name mdl dir st :
  let o := fst (build_try env id task_description worktree_name mdl dir st) in
  let st' := snd (build_try env id task_description worktree_name mdl dir st) in
  exists before,
    trace st' = trace st ++ before
    /\ Forall (fun e => is_update e = false) before
    /\ (workflow_success o = true <-> command_succeeded "/build" before)
    /\ (final_status o = "Done" <->
        command_succeeded "/build" before /\ hash_retrieved before).
Proof.
  unfold build_try, bind, call_template, ret; simpl.
  set (req := {| agent_name := "build-" +:+ worktree_name |}).
  destruct (execute_template env (tick st) req) as [[|] out|e] eqn:E; simpl.
  - match goal with |- context [read_commit_hash env dir ?s] =>
      destruct (read_commit_hash_spec env dir s) as (res & Hst & Hhash);
      destruct (read_commit_hash env dir s) as [hash st1] end.
    simpl in *. subst st1. simpl.
    exists [EvTemplate req (Returned true out); EvGit dir res].
    rewrite <- app_assoc. split; [done|]. split; [by repeat constructor|].
    assert (Hcmd : command_succeeded "/build" [EvTemplate req (Returned true out); EvGit dir res]).
    { exists req, out. split; [by left | done]. }
    split; [done|].
    rewrite final_status_done; simpl. rewrite Hhash. split.
    + intros [_ (stdout & -> & Hne)]. split; [done|].
      exists dir, stdout. split; [|done]. right. by left.
    + intros [_ (cwd & stdout & Hin & Hne)]. split; [done|].
      split_events. by exists stdout.
  - exists [EvTemplate req (Returned false out)].
    split; [done|]. split; [by repeat constructor|].
    rewrite final_status_done; simpl. split.
    + split; [discriminate | intros (r & o' & Hin & _); split_events].
    + split; [intros [? _]; discriminate | intros [(r & o' & Hin & _) _]; split_events].
  - exists [EvTemplate req (Raised e)].
    split; [done|]. split; [by repeat constructor|].
    rewrite final_status_done; simpl. split.
    + split; [discriminate | intros (r & o' & Hin & _); split_events].
    + split; [intros [? _]; discriminate | intros [(r & o' & Hin & _) _]; split_events].
Qed.

Lemma send_update_code env o id task mdl worktree_name dir content st :
  let code := fst (send_update env o id task mdl worktree_name dir content st) in
  let st' := snd (send_update env o id task mdl worktree_name dir content st) in
  exists req res,
    trace st' = trace st ++ [EvTemplate req res]
    /\ slash_command req = "/update_teamwork_task"
    /\ (exists payload, args req = [task; final_status o; payload])
    /\ (returned res -> code = if workflow_success o then 0%Z else 1%Z)
    /\ (~ returned res -> code = 1%Z).
Proof.
  unfold send_update, bind, call_template, ret, returned; simpl.
  match goal with |- context [execute_template env (tick st) ?r] =>
    exists r, (execute_template env (tick st) r);
    destruct (execute_template env (tick st) r) as [ok out|e] end; simpl.
  - split; [done|]. split; [done|]. split; [by eexists|]. split; [done|].
    intros Hno. exfalso. apply Hno. by eexists _, _.
  - split; [done|]. split; [done|]. split; [by eexists|]. split; [|done].
    by intros (? & ? & ?).
Qed.

Lemma plan_command_values p :
  plan_command p ∈ ["/plan_uv_script"; "/plan_vite_vue"; "/plan_bun_scripts";
                    "/plan_uv_mcp"; "/plan"].
Proof.
  unfold plan_command.
  repeat match goal with |- context [if ?b then _ else _] => destruct b end;
    rewrite !elem_of_cons; auto 10.
Qed.

Lemma plan_command_other p :
  String.eqb (plan_command p) "/update_teamwork_task" = false
  /\ plan_command p <> "/implement".
Proof.
  pose proof (plan_command_values p) as H.
  repeat (apply elem_of_cons in H as [->|H]; [by split|]).
  by apply elem_of_nil in H.
Qed.

Lemma plan_implement_try_spec env id task_description worktree_name proto mdl dir st :
  let run := plan_implement_try env id task_description worktree_name proto mdl dir st in
  let o := fst run in
  let st' := snd run in
  exists before,
    trace st' = trace st ++ before
    /\ Forall (fun e => is_update e = false) before
    /\ (workflow_success o = true <->
        command_succeeded (plan_command proto) before
        /\ command_succeeded "/implement" before)
    /\ (final_status o = "Done" <->
        (command_succeeded (plan_command proto) before
         /\ command_succeeded "/implement" before)
        /\ hash_retrieved before).
Proof.
  destruct (plan_command_other proto) as [Hupd Himpl].
  unfold plan_implement_try, bind, call_template, plan_lookup, ret; simpl.
  set (preq := {| agent_name := "plan-" +:+ worktree_name |}).
  assert (Hp : is_update (EvTemplate preq (execute_template env (tick st) preq)) = false)
    by done.
  destruct (execute_template env (tick st) preq) as [[|] pout|e] eqn:E; simpl.
  2,3: eexists [_]; (split; [done|]); (split; [by repeat constructor|]);
       rewrite final_status_done; simpl; split;
       (split; [try discriminate; try (intros [? _]; discriminate) |]);
       [intros [_ (r & o' & Hin & Hc)] | intros [[_ (r & o' & Hin & Hc)] _]];
       split_events.
  set (found := newest_plan_file env (S (tick st)) dir).
  destruct found as [path| |e] eqn:Ef; simpl.
  3: { eexists [_]; (split; [done|]); (split; [by repeat constructor|]).
       rewrite final_status_done; simpl; split;
       (split; [try discriminate; try (intros [? _]; discriminate) |]);
       [intros [_ (r & o' & Hin & Hc)] | intros [[_ (r & o' & Hin & Hc)] _]];
       split_events. }
  all: match goal with |- context [execute_template _ ?n ?r] =>
         set (ireq := r);
         destruct (execute_template env n ireq) as [[|] iout|e] eqn:Ei end; simpl.
  all: try (eexists [_; _]; rewrite <- app_assoc; (split; [done|]);
            (split; [by repeat constructor|]);
            rewrite final_status_done; simpl; split;
            (split; [try discriminate; try (intros [? _]; discriminate) |]);
            [intros [_ (r & o' & Hin & Hc)] | intros [[_ (r & o' & Hin & Hc)] _]];
            by split_events).
  all: match goal with |- context [read_commit_hash _ _ ?s] =>
         destruct (read_commit_hash_spec env dir s) as (res & Hst & Hhash);
         destruct (read_commit_hash env dir s) as [hash st1] end;
       simpl in *; subst st1; simpl;
       exists [EvTemplate preq (Returned true pout);
               EvTemplate ireq (Returned true iout); EvGit dir res];
       rewrite <- !app_assoc; (split; [done|]); (split; [by repeat constructor|]);
       (assert (Hcmd : command_succeeded (plan_command proto)
                  [EvTemplate preq (Returned true pout);
                   EvTemplate ireq (Returned true iout); EvGit dir res]
                /\ command_succeeded "/implement"
                  [EvTemplate preq (Returned true pout);
                   EvTemplate ireq (Returned true iout); EvGit dir res]);
        [split; [exists preq, pout; split; [by left | done]
                | exists ireq, iout; split; [right; by left | done]] |]);
       (split; [done|]);
       rewrite final_status_done; simpl; rewrite Hhash; split;
       [ intros [_ (stdout & -> & Hne)]; split; [done|];
         exists dir, stdout; split; [|done]; right; right; by left
       | intros [_ (cwd & stdout & Hin & Hne)]; split; [done|];
         split_events; by exists stdout ].
Qed.

(** C10, as amended: every run of the build workflow and of the
    plan-implement workflow sends exactly one status update, as its last
    interaction, and that update carries "Done" if and only if the workflow
    command(s) reported success and [git rev-parse HEAD] then returned a
    commit hash; otherwise it carries "Failed".  A run whose commands
    succeed but whose hash lookup fails reports "Failed"; it exits with
    status 0 when the call that sends the update returns, and with status 1
    when that call raises. *)
Theorem workflow_final_status (env : Env) (id task task_description worktree_name
    mdl : string) (project : option string) (st : State) :
  (let run := build_main env id task task_description worktree_name mdl project st in
   exists before req res status,
     single_final_update (trace st) (trace (snd run)) before req res task status
     /\ (status = "Done" <-> command_succeeded "/build" before /\ hash_retrieved before)
     /\ (status = "Done" \/ status = "Failed")
     /\ (command_succeeded "/build" before -> ~ hash_retrieved before ->
         status = "Failed"
         /\ (returned res -> fst run = 0%Z)
         /\ (~ returned res -> fst run = 1%Z)))
  /\ (forall proto,
      let run := plan_implement_main env id task task_description worktree_name
                   proto mdl project st in
      exists before req res status,
        single_final_update (trace st) (trace (snd run)) before req res task status
        /\ (status = "Done" <->
            (command_succeeded (plan_command proto) before
             /\ command_succeeded "/implement" before)
            /\ hash_retrieved before)
        /\ (status = "Done" \/ status = "Failed")
        /\ (command_succeeded (plan_command proto) before ->
            command_succeeded "/implement" before -> ~ hash_retrieved before ->
            status = "Failed"
            /\ (returned res -> fst run = 0%Z)
            /\ (~ returned res -> fst run = 1%Z))).
Proof.
  split; [|intros proto].
  - unfold build_main, bind.
    set (dir := workflow_dir env worktree_name).
    destruct (build_try_spec env id task_description worktree_name mdl dir st)
      as (before & Htr & Hnot & Hok & Hdone).
    destruct (build_try env id task_description worktree_name mdl dir st) as [o st1].
    unfold now; simpl in *.
    match goal with |- context [send_update env o id task mdl worktree_name dir ?c ?s] =>
      destruct (send_update_code env o id task mdl worktree_name dir c s)
        as (req & res & Htr2 & Hcmd & Hargs & Hcode & Hraise);
      destruct (send_update env o id task mdl worktree_name dir c s) as [code st2] end.
    simpl in *. exists before, req, res, (final_status o).
    split; [|split; [done|split; [apply final_status_values|]]].
    + split; [by rewrite Htr2, Htr, app_assoc|]. by repeat split.
    + intros Hb Hh. apply Hok in Hb.
      destruct (final_status_values o) as [Hd|Hf]; [apply Hdone in Hd; tauto|].
      split; [done|]. split; [|done].
      intros Hres. rewrite (Hcode Hres), Hb. done.
  - unfold plan_implement_main, bind.
    set (dir := workflow_dir env worktree_name).
    destruct (plan_implement_try_spec env id task_description worktree_name proto mdl dir st)
      as (before & Htr & Hnot & Hok & Hdone).
    destruct (plan_implement_try env id task_description worktree_name proto mdl dir st)
      as [o st1].
    unfold now; simpl in *.
    match goal with |- context [send_update env o id task mdl worktree_name dir ?c ?s] =>
      destruct (send_update_code env o id task mdl worktree_name dir c s)
        as (req & res & Htr2 & Hcmd & Hargs & Hcode & Hraise);
      destruct (send_update env o id task mdl worktree_name dir c s) as [code st2] end.
    simpl in *. exists before, req, res, (final_status o).
    split; [|split; [done|split; [apply final_status_values|]]].
    + split; [by rewrite Htr2, Htr, app_assoc|]. by repeat split.
    + intros Hp Hi Hh. assert (Hb : workflow_success o = true) by (apply Hok; tauto).
      destruct (final_status_values o) as [Hd|Hf]; [apply Hdone in Hd; tauto|].
      split; [done|]. split; [|done].
      intros Hres. rewrite (Hcode Hres), Hb. done.
Qed.

(** C10 as stated fails in its last clause.  In a directory that is no
    repository the build command succeeds and the hash lookup fails; the
    call that sends the update raises.  The update was sent with "Failed",
    and the run exits with status 1, not 0.  The same holds of the
    plan-implement workflow. *)
Lemma workflow_update_raises_exit_status :
  let env := no_repository_env update_raises in
  let build := build_main env "a1b2c3d4" "101" "fix the login bug" "feat-login"
                 "sonnet" None initial_state in
  let plan := plan_implement_main env "a1b2c3d4" "101" "fix the login bug" "feat-login"
                "" "sonnet" None initial_state in
  (exists command update payload,
     trace (snd build) =
       [EvTemplate command (Returned true "ok"); EvGit "/repo" (GitExit 128 "");
        EvTemplate update (Raised "connection refused")]
     /\ slash_command command = "/build"
     /\ slash_command update = "/update_teamwork_task"
     /\ args update = ["101"; "Failed"; payload]
     /\ fst build = 1%Z /\ fst build <> 0%Z)
  /\ (exists plan_request implement update payload,
       trace (snd plan) =
         [EvTemplate plan_request (Returned true "ok");
          EvTemplate implement (Returned true "ok"); EvGit "/repo" (GitExit 128 "");
          EvTemplate update (Raised "connection refused")]
       /\ slash_command plan_request = "/plan"
       /\ slash_command implement = "/implement"
       /\ slash_command update = "/update_teamwork_task"
       /\ args update = ["101"; "Failed"; payload]
       /\ fst plan = 1%Z /\ fst plan <> 0%Z).
Proof.
  intros env build plan. split.
  - eexists _, _, _. split; [by vm_compute|]. by repeat split.
  - eexists _, _, _, _. split; [by vm_compute|]. by repeat split.
Qed.

(** ** The delegation manager *)

Lemma update_task_status_run env config task status content st :
  let req := {| agent_name := "teamwork-task-updater";
                slash_command := "/update_teamwork_task";
                args := [task; map_status_to_teamwork config status; content];
                adw_id := generate_short_id env (tick st);
                req_model := "sonnet"; working_dir := getcwd env |} in
  let res := execute_template env (S (tick st)) req in
  update_task_status env config task status content st =
    (match res with Returned true _ => true | _ => false end,
     {| active_adw_ids := active_adw_ids st; tick := S (S (tick st));
        trace := trace st ++ [EvTemplate req res] |}).
Proof.
  unfold update_task_status, bind, short_id, call_template, ret; simpl.
  by destruct (execute_template _ _ _) as [[|] ?|?].
Qed.

Lemma delegate_task_run env config task st :
  let run := delegate_task env config task st in
  exists new,
    trace (snd run) = trace st ++ new
    /\ tick st <= tick (snd run)
    /\ delegation env config task (active_adw_ids st) (chosen_id env st)
         (fst run) new (active_adw_ids (snd run)).
Proof.
  unfold delegate_task, chosen_id, bind, short_id, ids_contains, ids_add, now, ret; simpl.
  set (id := if bool_decide (generate_short_id env (tick st) ∈ active_adw_ids st)
             then generate_short_id env (S (tick st))
             else generate_short_id env (tick st)).
  assert (Hrun : forall k, tick st <= k ->
    let run :=
      (let (a0, st'0) :=
         update_task_status env config (task_id task) "In progress"
           (json_dumps env
              [("adw_id", id); ("timestamp", now_isoformat env k);
               ("model", get_preferred_model task);
               ("worktree_name", worktree_name_for task); ("status", "In progress")])
           {| active_adw_ids := {[id]} ∪ active_adw_ids st; tick := S k;
              trace := trace st |} in
       (if negb a0
        then fun st0 => (false, {| active_adw_ids := active_adw_ids st0 ∖ {[id]};
                                   tick := tick st0; trace := trace st0 |})
        else
          let (script_path, script_args) :=
            workflow_command config task id (get_task_prompt_for_agent task)
              (worktree_name_for task) (get_preferred_model task) in
          if dry_run config then fun st0 => (true, st0)
          else fun st0 =>
            let (a1, st'1) := call_popen env (script_path :: script_args) st0 in
            match a1 with
            | Some e => fun st1 =>
                let (_, st'2) :=
                  update_task_status env config (task_id task) "Failed"
                    (json_dumps env
                       [("adw_id", id); ("error", e);
                        ("timestamp", now_isoformat env (tick st1))])
                    {| active_adw_ids := active_adw_ids st1; tick := S (tick st1);
                       trace := trace st1 |} in
                (false, {| active_adw_ids := active_adw_ids st'2 ∖ {[id]};
                           tick := tick st'2; trace := trace st'2 |})
            | None => fun st1 => (true, st1)
            end st'1) st'0) in
    exists new,
      trace (snd run) = trace st ++ new
      /\ tick st <= tick (snd run)
      /\ delegation env config task (active_adw_ids st) id
           (fst run) new (active_adw_ids (snd run))).
  { intros k Hk. rewrite update_task_status_run; simpl.
    match goal with |- context [EvTemplate ?r _] => set (claim := r) end.
    assert (Hclaim : status_update config task claim "In progress"
              (claim_payload env task id (now_isoformat env k))) by done.
    pose proof (claim_rejected env config task (active_adw_ids st) id claim) as Hrej.
    pose proof (spawned env config task (active_adw_ids st) id claim) as Hsp.
    pose proof (rolled_back env config task (active_adw_ids st) id claim) as Hrb.
    pose proof (dry_run_only env config task (active_adw_ids st) id claim) as Hdry.
    unfold spawn_argv in *.
    destruct (execute_template env (S (S k)) claim) as [[|] out|e] eqn:Ec; simpl.
    2,3: eexists; (split; [reflexivity|]); (split; [lia|]); by eapply Hrej.
    destruct (workflow_command config task id _ _ _) as [script_path script_args].
    destruct (dry_run config) eqn:Hd; simpl.
    { eexists; (split; [reflexivity|]); (split; [lia|]); by eapply Hdry. }
    unfold call_popen; simpl.
    destruct (popen env _ _) as [e|] eqn:Ep; simpl.
    - rewrite update_task_status_run; simpl.
      eexists; (split; [by rewrite <- !app_assoc|]); (split; [lia|]).
      eapply Hrb; done.
    - eexists; (split; [by rewrite <- !app_assoc|]); (split; [lia|]).
      by eapply Hsp. }
  subst id.
  destruct (bool_decide (generate_short_id env (tick st) ∈ active_adw_ids st)); simpl.
  - apply (Hrun (S (S (tick st)))). lia.
  - apply (Hrun (S (tick st))). lia.
Qed.

(** C1: when the claim succeeds and [Popen] raises, [delegate_task] returns
    failure after logging exactly the claim, the failed spawn and one
    compensating status update; that update goes to the mapping of "Failed"
    and its payload carries the error raised; the dispatch identifier is not
    in the in-flight set afterwards, and no execution was spawned. *)
Theorem delegate_task_rollback (env : Env) (config : TeamworkCronConfig)
    (task : TeamworkTask) (st : State) (new : list event) :
  let run := delegate_task env config task st in
  trace (snd run) = trace st ++ new ->
  claim_succeeded new ->
  spawn_failed new ->
  fst run = false
  /\ (exists claim output argv e rollback res timestamp,
        new = [EvTemplate claim (Returned true output); EvPopen argv (Some e);
               EvTemplate rollback res]
        /\ status_update config task rollback "Failed"
             (error_payload env (chosen_id env st) e timestamp))
  /\ length (List.filter is_update (tail new)) = 1
  /\ (chosen_id env st ∉ active_adw_ids (snd run))
  /\ Forall (fun e => is_spawned e = false) new.
Proof.
  intros run Htrace Hclaim (argv & e & Hfail).
  destruct (delegate_task_run env config task st) as (new' & Htrace' & _ & Hrun).
  fold run in Htrace', Hrun. rewrite Htrace in Htrace'.
  apply app_inv_head in Htrace'. subst new'.
  destruct Hrun as [claim res ts Hc Hres | claim out ts Hc Hdry
                   | claim out ts Hc Hdry | claim out ts e' rollback res ts' Hc Hdry Hr].
  - split_events.
  - split_events.
  - split_events.
  - split; [done|]. split; [by eauto 10|].
    split; [|split; [|by repeat constructor]].
    + simpl. destruct Hr as [-> _]. done.
    + intros Hin. apply elem_of_difference in Hin as [_ Hn].
      apply Hn. by apply elem_of_singleton.
Qed.

(** A run in which the claim is accepted and the spawn raises. *)
Lemma delegate_task_rollback_witness :
  let env := scripted_env (fun _ => "a1b2c3d4") (fun _ _ => Returned true "ok")
               (fun _ _ => Some "[Errno 2] No such file or directory") [] [] in
  let run := delegate_task env default_config (login_task "101") initial_state in
  fst run = false /\ ("a1b2c3d4" ∉ active_adw_ids (snd run)).
Proof.
  intros env run.
  pose proof (delegate_task_rollback env default_config (login_task "101")
                initial_state (trace (snd run)) eq_refl) as H.
  destruct H as (Hret & _ & _ & Hid & _).
  - vm_compute. by eexists _, _, _.
  - vm_compute. eexists _, _. apply elem_of_cons. right. apply elem_of_cons. by left.
  - split; [exact Hret | exact Hid].
Defined.

(** The check for a duplicate identifier is made once. *)
Lemma chosen_id_fresh env st :
  generate_short_id env (tick st) ∉ active_adw_ids st
  \/ generate_short_id env (S (tick st)) ∉ active_adw_ids st ->
  chosen_id env st ∉ active_adw_ids st.
Proof.
  unfold chosen_id. case_bool_decide; intros [|]; done.
Qed.

Lemma chosen_id_collision env st :
  generate_short_id env (tick st) ∈ active_adw_ids st ->
  generate_short_id env (S (tick st)) ∈ active_adw_ids st ->
  chosen_id env st ∈ active_adw_ids st.
Proof.
  unfold chosen_id. intros H1 H2. by rewrite bool_decide_eq_true_2.
Qed.

(** C3 fails on the code: the identifier is regenerated once, not until it
    is unique.  After one successful delegation has left "a1b2c3d4" in the
    in-flight set, a generator that yields "a1b2c3d4" again and again makes
    the next delegation claim and spawn its task under that identifier. *)
Theorem delegate_task_duplicate_id :
  let env := scripted_env (fun _ => "a1b2c3d4") (fun _ _ => Returned true "ok")
               (fun _ _ => None) [] [] in
  let first := delegate_task env default_config (login_task "101") initial_state in
  let second := delegate_task env default_config (login_task "102") (snd first) in
  fst first = true
  /\ "a1b2c3d4" ∈ active_adw_ids (snd first)
  /\ chosen_id env (snd first) = "a1b2c3d4"
  /\ fst second = true
  /\ spawned_task_ids (trace (snd second)) = ["101"; "102"]
  /\ (exists claim,
        trace (snd second) !! 2 = Some (EvTemplate claim (Returned true "ok"))
        /\ args claim !! 0 = Some "102"
        /\ args claim !! 2 =
             Some "adw_id=a1b2c3d4,timestamp=2025-11-11T09:00:00,model=sonnet,worktree_name=feat-fix-the-login-bug,status=In progress").
Proof.
  intros env first second.
  split; [by vm_compute|]. split; [|split; [by vm_compute|]].
  { replace (active_adw_ids (snd first)) with ({["a1b2c3d4"]} ∪ ∅ : gset string)
      by (by vm_compute).
    apply elem_of_union_l. by apply elem_of_singleton. }
  split; [by vm_compute|]. split; [by vm_compute|].
  eexists. split; [by vm_compute|]. split; by vm_compute.
Qed.

(** ** The polling cycle *)

Lemma count_app p l1 l2 : count p (l1 ++ l2) = count p l1 + count p l2.
Proof. unfold count. by rewrite List.filter_app, length_app. Qed.

Lemma length_omap_le {A B} (f : A -> option B) (l : list A) :
  length (omap f l) <= length l.
Proof.
  induction l as [|a l IH]; [done|].
  change (omap f (a :: l)) with (match f a with Some y => y :: omap f l | None => omap f l end).
  destruct (f a); simpl; lia.
Qed.

Lemma delegation_counts env config task ids id ok new ids' :
  delegation env config task ids id ok new ids' ->
  count is_popen new <= 1 /\ count is_update new <= 2
  /\ count is_spawned new <= (if ok then 1 else 0).
Proof.
  unfold count.
  destruct 1 as [claim res ts [Hc _] Hres | claim out ts [Hc _] Hdry
                | claim out ts [Hc _] Hdry
                | claim out ts e' rollback res ts' [Hc _] Hdry [Hr _]];
    simpl; rewrite ?Hc, ?Hr; simpl; lia.
Qed.

Lemma count_cons p e l : count p (e :: l) = (if p e then 1 else 0) + count p l.
Proof. unfold count. simpl. by destruct (p e). Qed.

Lemma delegate_all_run env config tasks processed st :
  let run := delegate_all env config tasks processed st in
  exists new,
    trace (snd run) = trace st ++ new
    /\ fst run <= processed + length tasks
    /\ count is_popen new <= length tasks
    /\ count is_update new <= 2 * length tasks
    /\ processed + count is_spawned new <= fst run.
Proof.
  revert processed st. induction tasks as [|task rest IH]; intros processed st; simpl.
  - exists []. rewrite app_nil_r. unfold count; simpl. repeat split; lia.
  - unfold bind.
    destruct (delegate_task_run env config task st) as (new1 & Htr1 & _ & Hrun).
    destruct (delegate_task env config task st) as [ok st1]. simpl in *.
    apply delegation_counts in Hrun as (Hp & Hu & Hs).
    set (st2 := {| active_adw_ids := active_adw_ids st1; tick := S (tick st1);
                   trace := trace st1 ++ [EvSleep 1] |}).
    specialize (IH (if ok then S processed else processed) st2).
    destruct (delegate_all env config rest (if ok then S processed else processed) st2)
      as [n st3].
    destruct IH as (new2 & Htr2 & Hn & Hp2 & Hu2 & Hs2). simpl in *.
    exists (new1 ++ EvSleep 1 :: new2).
    rewrite Htr2, Htr1, <- !app_assoc. simpl.
    rewrite !count_app, !count_cons. simpl.
    split; [done|]. destruct ok; repeat split; lia.
Qed.

Lemma get_eligible_tasks_run env config limit st :
  let run := get_eligible_tasks env config limit st in
  exists fetch res,
    trace (snd run) = trace st ++ [EvTemplate fetch res]
    /\ slash_command fetch = "/get_teamwork_tasks"
    /\ args fetch !! 2 = Some (pretty limit)
    /\ (fst run = [] \/
        exists output task_data,
          res = Returned true output /\ parse_json env output = Some task_data
          /\ length (fst run) <= length task_data).
Proof.
  unfold get_eligible_tasks, bind, short_id, call_template, ret; simpl.
  match goal with |- context [execute_template env ?n ?r] =>
    exists r, (execute_template env n r);
    destruct (execute_template env n r) as [[|] out|e] end; simpl.
  2,3: by repeat split; auto.
  destruct (parse_json env out) as [task_data|] eqn:Hparse; simpl.
  2: by repeat split; auto.
  repeat split; try done. right. exists out, task_data. repeat split; try done.
  etrans; [apply length_filter | apply length_omap_le].
Qed.

Lemma run_once_run env config st :
  let run := run_once env config st in
  exists fetch res new,
    trace (snd run) = trace st ++ EvTemplate fetch res :: new
    /\ slash_command fetch = "/get_teamwork_tasks"
    /\ args fetch !! 2 = Some (pretty (max_concurrent_tasks config))
    /\ exists tasks,
         tasks = fst (get_eligible_tasks env config (max_concurrent_tasks config) st)
         /\ fst run <= length tasks
         /\ count is_popen new <= length tasks
         /\ count is_update new <= 2 * length tasks
         /\ count is_spawned new <= fst run.
Proof.
  unfold run_once, bind.
  destruct (get_eligible_tasks_run env config (max_concurrent_tasks config) st)
    as (fetch & res & Htr & Hcmd & Hlimit & _).
  destruct (get_eligible_tasks env config (max_concurrent_tasks config) st)
    as [tasks st1]. simpl in *.
  exists fetch, res.
  destruct tasks as [|task rest].
  - exists []. simpl. repeat split; try done. exists []. unfold count; simpl.
    repeat split; lia.
  - pose proof (delegate_all_run env config (task :: rest) 0 st1) as H.
    destruct (delegate_all env config (task :: rest) 0 st1) as [n st2].
    destruct H as (new & Htr2 & Hn & Hp & Hu & Hs). simpl in *.
    exists new. rewrite Htr2, Htr, <- app_assoc. simpl.
    repeat split; try done. exists (task :: rest). simpl. repeat split; try done; lia.
Qed.

Lemma make_worktree_name_trace env task_description has_prototype st :
  trace (snd (make_worktree_name env task_description has_prototype st)) = trace st.
Proof.
  unfold make_worktree_name.
  destruct (strip_with _ _); [|done].
  by unfold bind, short_id, ret.
Qed.

Lemma spawn_workflow_run env script_path script_args dry st :
  let run := spawn_workflow env script_path script_args dry st in
  (dry = true /\ fst run = true /\ trace (snd run) = trace st)
  \/ (dry = false /\ exists raised,
        raised = popen env (tick st) (script_path :: script_args)
        /\ trace (snd run) = trace st ++ [EvPopen (script_path :: script_args) raised]
        /\ fst run = match raised with None => true | Some _ => false end).
Proof.
  unfold spawn_workflow. destruct dry; [by left|]. right. split; [done|].
  unfold bind, call_popen, ret; simpl.
  eexists. split; [reflexivity|]. by destruct (popen env _ _).
Qed.

Lemma spawn_all_run env config tasks processed st :
  let run := spawn_all env config tasks processed st in
  exists new,
    trace (snd run) = trace st ++ new
    /\ Forall (fun e => is_popen e = true) new
    /\ length new <= length tasks
    /\ fst run <= processed + length tasks
    /\ (dry_run config = false -> (forall n argv, popen env n argv = None) ->
        fst run = processed + length tasks
        /\ spawned_task_ids new = map e_task_id tasks).
Proof.
  revert processed st. induction tasks as [|task rest IH]; intros processed st.
  - exists []. simpl. rewrite app_nil_r.
    split; [done|]. split; [done|]. split; [done|]. split; [lia|].
    intros _ _. split; [lia | done].
  - cbn [spawn_all]. unfold bind, short_id. cbn [fst snd].
    set (st1 := {| active_adw_ids := active_adw_ids st; tick := S (tick st);
                   trace := trace st |}).
    pose proof (make_worktree_name_trace env (e_task_prompt task)
                  (truthy_opt (e_tags task !! "prototype")) st1) as Hwt.
    destruct (make_worktree_name env (e_task_prompt task)
                (truthy_opt (e_tags task !! "prototype")) st1) as [wt st2].
    simpl in Hwt.
    assert (Hstep : forall script_path rest_args,
      let script_args := generate_short_id env (tick st) :: e_task_id task :: rest_args in
      let run :=
        (let (ok, st3) := spawn_workflow env script_path script_args (dry_run config) st2 in
         spawn_all env config rest (if ok then S processed else processed) st3) in
      exists new,
        trace (snd run) = trace st ++ new
        /\ Forall (fun e => is_popen e = true) new
        /\ length new <= length (task :: rest)
        /\ fst run <= processed + length (task :: rest)
        /\ (dry_run config = false -> (forall n argv, popen env n argv = None) ->
            fst run = processed + length (task :: rest)
            /\ spawned_task_ids new = map e_task_id (task :: rest))).
    { intros script_path rest_args script_args.
      pose proof (spawn_workflow_run env script_path script_args (dry_run config) st2) as Hsp.
      destruct (spawn_workflow env script_path script_args (dry_run config) st2)
        as [ok st3]. simpl in Hsp.
      specialize (IH (if ok then S processed else processed) st3).
      destruct (spawn_all env config rest (if ok then S processed else processed) st3)
        as [n st4].
      destruct IH as (new2 & Htr2 & Hall & Hlen & Hn & Hexact). simpl in *.
      destruct Hsp as [(Hdry & -> & Htr) | (Hdry & raised & Hr & Htr & Hok)].
      - exists new2. rewrite Htr2, Htr, Hwt.
        split; [done|]. split; [done|]. split; [lia|]. split; [lia|].
        intros Hd. congruence.
      - exists (EvPopen (script_path :: script_args) raised :: new2).
        rewrite Htr2, Htr, Hwt, <- app_assoc. simpl.
        split; [done|]. split; [by constructor|].
        split; [lia|]. split; [destruct ok; lia|].
        intros Hd Hnever. rewrite Hnever in Hr. subst raised ok.
        destruct (Hexact Hd Hnever) as [-> Hids]. split; [lia|].
        unfold spawned_task_ids in *. cbn. by rewrite Hids. }
    destruct (truthy_opt (e_tags task !! "prototype")); apply Hstep.
Qed.

Lemma split_cycle_run env config st :
  let run := split_cycle env config st in
  exists listing res new,
    trace (snd run) = trace st ++ EvTemplate listing res :: new
    /\ slash_command listing = "/list_teamwork_tasks"
    /\ Forall (fun e => is_popen e = true) new
    /\ length new <= max_concurrent_tasks config
    /\ fst run <= max_concurrent_tasks config
    /\ (forall output tasks,
          res = Returned true output -> json_loads_tasks env output = Some tasks ->
          dry_run config = false -> (forall n argv, popen env n argv = None) ->
          fst run = min (max_concurrent_tasks config) (length (omap split_check tasks))
          /\ spawned_task_ids new =
               map e_task_id (take (max_concurrent_tasks config) (omap split_check tasks))).
Proof.
  unfold split_cycle, bind, short_id, call_template, ret; simpl.
  match goal with |- context [execute_template env ?n ?r] =>
    exists r, (execute_template env n r);
    destruct (execute_template env n r) as [[|] out|e] end; simpl.
  2,3: exists []; (split; [done|]); (split; [done|]); (split; [done|]);
       (split; [simpl; lia|]); (split; [lia|]); intros ? ? [=].
  destruct (json_loads_tasks env out) as [tasks|] eqn:Hl; simpl.
  2: { exists []; (split; [done|]); (split; [done|]); (split; [done|]);
       (split; [simpl; lia|]); (split; [lia|]). intros ? ? [= <-] ?. congruence. }
  match goal with |- context [spawn_all env config ?l 0 ?s] =>
    pose proof (spawn_all_run env config l 0 s) as H;
    destruct (spawn_all env config l 0 s) as [n st2] end.
  destruct H as (new & Htr & Hall & Hlen & Hn & Hexact). simpl in *.
  rewrite length_take in Hlen, Hn, Hexact.
  exists new. rewrite Htr, <- app_assoc. simpl.
  split; [done|]. split; [done|]. split; [done|]. split; [lia|]. split; [lia|].
  intros output tasks' [= <-] Ht. assert (tasks' = tasks) as -> by congruence.
  intros Hd Hnever. by apply Hexact.
Qed.

Lemma count_le_length p l : count p l <= length l.
Proof. unfold count. apply List.filter_length_le. Qed.

Lemma count_update_popen l :
  Forall (fun e => is_popen e = true) l -> count is_update l = 0.
Proof.
  unfold count. induction 1 as [|e l He _ IH]; [done|].
  simpl. destruct e; try discriminate. done.
Qed.

Lemma delegation_spawned env config task ids id ok new ids' :
  delegation env config task ids id ok new ids' ->
  dry_run config = false -> count is_spawned new = (if ok then 1 else 0).
Proof.
  unfold count. destruct 1; simpl; congruence.
Qed.

Lemma delegate_all_in_turn env config tasks processed st :
  let run := delegate_all env config tasks processed st in
  exists new,
    trace (snd run) = trace st ++ new
    /\ delegated_in_turn env config tasks new
    /\ (dry_run config = false -> fst run = processed + count is_spawned new).
Proof.
  revert processed st. induction tasks as [|task rest IH]; intros processed st; simpl.
  - exists []. rewrite app_nil_r. split; [done|]. split; [constructor|].
    intros _. unfold count. simpl. lia.
  - unfold bind.
    destruct (delegate_task_run env config task st) as (new1 & Htr1 & _ & Hrun).
    destruct (delegate_task env config task st) as [ok st1]. simpl in *.
    pose proof (delegation_spawned _ _ _ _ _ _ _ _ Hrun) as Hs.
    set (st2 := {| active_adw_ids := active_adw_ids st1; tick := S (tick st1);
                   trace := trace st1 ++ [EvSleep 1] |}).
    specialize (IH (if ok then S processed else processed) st2).
    destruct (delegate_all env config rest (if ok then S processed else processed) st2)
      as [n st3].
    destruct IH as (new2 & Htr2 & Hturn & Hn). simpl in *.
    exists (new1 ++ EvSleep 1 :: new2).
    rewrite Htr2, Htr1, <- !app_assoc. simpl.
    split; [done|]. split; [by econstructor|].
    intros Hdry. rewrite count_app, count_cons, (Hn Hdry), (Hs Hdry). simpl.
    destruct ok; lia.
Qed.

Lemma get_eligible_tasks_result env config limit st :
  let run := get_eligible_tasks env config limit st in
  exists fetch res,
    trace (snd run) = trace st ++ [EvTemplate fetch res]
    /\ (forall output task_data,
          res = Returned true output -> parse_json env output = Some task_data ->
          fst run = filter (fun t => is_eligible_for_processing t = true)
                      (omap task_of_dict task_data))
    /\ ((forall output task_data,
           res = Returned true output -> parse_json env output <> Some task_data) ->
        fst run = []).
Proof.
  unfold get_eligible_tasks, bind, short_id, call_template, ret; simpl.
  match goal with |- context [execute_template env ?n ?r] =>
    exists r, (execute_template env n r);
    destruct (execute_template env n r) as [[|] out|e] end; simpl.
  2,3: split; [done|]; split; [by intros ? ? [=] | done].
  destruct (parse_json env out) as [task_data|] eqn:Hparse; simpl.
  - split; [done|]. split.
    + intros output data [= <-] Hdata. rewrite Hparse in Hdata. by injection Hdata as <-.
    + intros Hno. by destruct (Hno out task_data eq_refl).
  - split; [done|]. split; [|done].
    intros output data [= <-] Hdata. congruence.
Qed.

Lemma spawn_all_dry env config tasks processed st :
  dry_run config = true ->
  let run := spawn_all env config tasks processed st in
  trace (snd run) = trace st /\ fst run = processed + length tasks.
Proof.
  intros Hdry. revert processed st.
  induction tasks as [|task rest IH]; intros processed st.
  - simpl. split; [done | lia].
  - cbn [spawn_all]. unfold bind, short_id. cbn [fst snd].
    set (st1 := {| active_adw_ids := active_adw_ids st; tick := S (tick st);
                   trace := trace st |}).
    pose proof (make_worktree_name_trace env (e_task_prompt task)
                  (truthy_opt (e_tags task !! "prototype")) st1) as Hwt.
    destruct (make_worktree_name env (e_task_prompt task)
                (truthy_opt (e_tags task !! "prototype")) st1) as [wt st2].
    simpl in Hwt. rewrite Hdry.
    destruct (truthy_opt (e_tags task !! "prototype")); unfold spawn_workflow, ret;
      destruct (IH (S processed) st2) as [Htr Hn]; simpl; rewrite Htr, Hn, Hwt;
      (split; [done | lia]).
Qed.

Lemma split_cycle_dry env config st :
  dry_run config = true ->
  let run := split_cycle env config st in
  forall listing res new,
    trace (snd run) = trace st ++ EvTemplate listing res :: new ->
    new = []
    /\ (forall output tasks,
          res = Returned true output -> json_loads_tasks env output = Some tasks ->
          fst run = min (max_concurrent_tasks config) (length (omap split_check tasks))).
Proof.
  intros Hdry. unfold split_cycle, bind, short_id, call_template, ret; simpl.
  intros listing res new.
  match goal with |- context [execute_template env ?n ?r] =>
    destruct (execute_template env n r) as [[|] out|e] eqn:Hres end; simpl.
  2,3: intros [[= <- <-] <-]%app_inv_head%(inj2 cons); split; [done | by intros ? ? [=]].
  destruct (json_loads_tasks env out) as [tasks|] eqn:Hl; simpl.
  2: { intros [[= <- <-] <-]%app_inv_head%(inj2 cons). split; [done|].
       intros ? ? [= <-] ?. congruence. }
  match goal with |- context [spawn_all env config ?l 0 ?s] =>
    destruct (spawn_all_dry env config l 0 s Hdry) as [Htr Hn];
    destruct (spawn_all env config l 0 s) as [n st2] end.
  simpl in *. rewrite Htr. simpl.
  intros [[= <- <-] <-]%app_inv_head%(inj2 cons). split; [done|].
  intros output tasks' [= <-] Ht. assert (tasks' = tasks) as -> by congruence.
  rewrite Hn, length_take. lia.
Qed.

(** C2, as amended.  [run_once] hands the configured maximum N to the fetch
    as its limit and delegates every eligible task the fetch returns, in
    the order of the fetch: each one is claimed, and with dry-run mode off
    the count it returns is the number of workflows it started.  When the
    fetch returns no more than N tasks, at most N tasks are delegated in
    the cycle (at most N spawn calls, at most N executions).  The split
    monitor cuts the eligible list to its first N entries itself: for every
    listing it makes at most N spawn calls and no status update at all;
    with dry-run mode off and no spawn failing it starts exactly the first
    min(N, eligible) tasks, so that of 5 eligible tasks with N = 3 exactly
    3 are started and the other 2 are neither claimed nor spawned; in
    dry-run mode it starts none and counts min(N, eligible). *)
Theorem polling_cycle_ceiling (env : Env) (config : TeamworkCronConfig) (st : State) :
  (let run := run_once env config st in
   exists fetch res tasks new,
     trace (snd run) = trace st ++ EvTemplate fetch res :: new
     /\ slash_command fetch = "/get_teamwork_tasks"
     /\ args fetch !! 2 = Some (pretty (max_concurrent_tasks config))
     /\ (forall output task_data,
           res = Returned true output -> parse_json env output = Some task_data ->
           tasks = filter (fun t => is_eligible_for_processing t = true)
                     (omap task_of_dict task_data))
     /\ ((forall output task_data,
            res = Returned true output -> parse_json env output <> Some task_data) ->
         tasks = [])
     /\ delegated_in_turn env config tasks new
     /\ count is_spawned new <= fst run <= length tasks
     /\ (dry_run config = false -> fst run = count is_spawned new)
     /\ count is_popen new <= length tasks
     /\ count is_update new <= 2 * length tasks
     /\ ((forall output task_data,
            parse_json env output = Some task_data ->
            length task_data <= max_concurrent_tasks config) ->
         length tasks <= max_concurrent_tasks config
         /\ fst run <= max_concurrent_tasks config
         /\ count is_popen new <= max_concurrent_tasks config
         /\ count is_update new <= 2 * max_concurrent_tasks config))
  /\ (let run := split_cycle env config st in
      exists listing res new,
        trace (snd run) = trace st ++ EvTemplate listing res :: new
        /\ slash_command listing = "/list_teamwork_tasks"
        /\ fst run <= max_concurrent_tasks config
        /\ count is_popen new <= max_concurrent_tasks config
        /\ count is_update new = 0
        /\ (forall output tasks,
              res = Returned true output -> json_loads_tasks env output = Some tasks ->
              dry_run config = false -> (forall n argv, popen env n argv = None) ->
              fst run = min (max_concurrent_tasks config) (length (omap split_check tasks))
              /\ spawned_task_ids new =
                   map e_task_id
                     (take (max_concurrent_tasks config) (omap split_check tasks)))
        /\ (dry_run config = true ->
            new = []
            /\ forall output tasks,
                 res = Returned true output -> json_loads_tasks env output = Some tasks ->
                 fst run = min (max_concurrent_tasks config)
                             (length (omap split_check tasks)))).
Proof.
  split.
  - intros run. subst run.
    pose proof (run_once_run env config st) as Hcounts.
    unfold run_once, bind in *.
    destruct (get_eligible_tasks_run env config (max_concurrent_tasks config) st)
      as (fetch & res & Htr & Hcmd & Harg & Hbound).
    destruct (get_eligible_tasks_result env config (max_concurrent_tasks config) st)
      as (fetch' & res' & Htr' & Hsome & Hnone).
    rewrite Htr in Htr'. apply app_inv_head in Htr'. injection Htr' as <- <-.
    destruct (get_eligible_tasks env config (max_concurrent_tasks config) st)
      as [tasks st1]. simpl in *.
    assert (Hrun : exists new,
      trace (snd (match tasks with
                  | [] => ret 0
                  | _ :: _ => delegate_all env config tasks 0
                  end st1)) = trace st1 ++ new
      /\ delegated_in_turn env config tasks new
      /\ (dry_run config = false ->
          fst (match tasks with
               | [] => ret 0
               | _ :: _ => delegate_all env config tasks 0
               end st1) = count is_spawned new)).
    { destruct tasks as [|task rest].
      - exists []. simpl. rewrite app_nil_r. split; [done|]. split; [constructor|done].
      - apply (delegate_all_in_turn env config (task :: rest) 0 st1). }
    destruct Hrun as (new & Htr2 & Hturn & Hdry).
    destruct Hcounts as (fetch2 & res2 & new2 & Htr3 & _ & _ & tasks2 & -> & Hn & Hp & Hu & Hs).
    rewrite Htr2, Htr, <- app_assoc in Htr3. apply app_inv_head in Htr3.
    simpl in Htr3. injection Htr3 as <- <- <-.
    exists fetch, res, tasks, new. rewrite Htr2, Htr, <- app_assoc. simpl.
    split; [done|]. split; [done|]. split; [done|]. split; [done|]. split; [done|].
    split; [done|]. split; [lia|]. split; [done|]. split; [done|]. split; [done|].
    intros Hlimit.
    assert (Hlen : length tasks <= max_concurrent_tasks config).
    { destruct Hbound as [-> | (out & data & _ & Hparse & Hle)]; [simpl; lia|].
      etrans; [exact Hle | by eapply Hlimit]. }
    repeat split; lia.
  - intros run. subst run.
    destruct (split_cycle_run env config st)
      as (listing & res & new & Htr & Hcmd & Hall & Hlen & Hn & Hexact).
    exists listing, res, new.
    split; [done|]. split; [done|]. split; [done|].
    split; [etrans; [apply count_le_length | done]|].
    split; [by apply count_update_popen|]. split.
    + intros output tasks Hres Htasks Hdry Hnever. by eapply Hexact.
    + intros Hdry. by apply (split_cycle_dry env config st Hdry listing res new).
Qed.

(** A fetch that returns 3 tasks for the limit 3, all of which are
    delegated, and a listing of 5 eligible tasks of which the split monitor
    starts the first 3. *)
Lemma polling_cycle_ceiling_witness :
  let env := scripted_env (fun n => "id" +:+ pretty n) (fun _ _ => Returned true "ok")
               (fun _ _ => None)
               [login_dict "101"; login_dict "102"; login_dict "103"]
               [login_listed "101"; login_listed "102"; login_listed "103";
                login_listed "104"; login_listed "105"] in
  fst (run_once env default_config initial_state) <= 3
  /\ fst (split_cycle env default_config initial_state) = 3
  /\ spawned_task_ids (trace (snd (split_cycle env default_config initial_state)))
     = ["101"; "102"; "103"].
Proof.
  intros env.
  destruct (polling_cycle_ceiling env default_config initial_state) as [Hrun Hsplit].
  split.
  - destruct Hrun as (fetch & res & tasks & new & _ & _ & _ & _ & _ & _ & _ & _ & _ & _ & Hn).
    destruct Hn as (_ & Hn & _); [|exact Hn].
    intros output task_data [= <-]. simpl. lia.
  - destruct Hsplit as (listing & res & new & Htr & _ & _ & _ & _ & Hexact & _).
    assert (Hres : res = Returned true "ok").
    { simpl in Htr. vm_compute in Htr. by injection Htr as _ ->. }
    destruct (Hexact "ok" _ Hres eq_refl eq_refl (fun _ _ => eq_refl)) as [Hn Hids].
    split; [by rewrite Hn; vm_compute|].
    rewrite Htr. simpl. rewrite Hids. by vm_compute.
Defined.

(** C2 as stated fails for [run_once]: when the fetch returns 5 eligible
    tasks although the limit 3 was passed to it, all 5 are claimed and
    spawned in the cycle. *)
Lemma run_once_exceeds_ceiling :
  let env := scripted_env (fun n => "id" +:+ pretty n) (fun _ _ => Returned true "ok")
               (fun _ _ => None)
               [login_dict "101"; login_dict "102"; login_dict "103";
                login_dict "104"; login_dict "105"] [] in
  let run := run_once env default_config initial_state in
  max_concurrent_tasks default_config = 3
  /\ fst run = 5
  /\ spawned_task_ids (trace (snd run)) = ["101"; "102"; "103"; "104"; "105"]
  /\ count is_update (trace (snd run)) = 5
  /\ ~ fst run <= max_concurrent_tasks default_config.
Proof.
  intros env run. repeat split; try (by vm_compute).
  replace (fst run) with 5 by (by vm_compute). simpl. lia.
Qed.

(** ** The matcher *)

Lemma all_of_app p a b : all_of p (a ++ b) <-> all_of p a /\ all_of p b.
Proof. unfold all_of. by rewrite Forall_app. Qed.

Lemma all_of_cons p c l : all_of p (c :: l) <-> p c = true /\ all_of p l.
Proof. unfold all_of. by rewrite Forall_cons. Qed.

Lemma greedy_sound p k s r :
  greedy p k s = Some r ->
  exists w t, s = w ++ t /\ all_of p w /\ k t = Some r.
Proof.
  induction s as [|c s IH]; simpl.
  - intros H. exists [], []. by repeat split; [constructor|].
  - destruct (p c) eqn:Hc.
    + destruct (greedy p k s) as [r'|] eqn:Hg.
      * intros [= ->]. destruct (IH eq_refl) as (w & t & -> & Hw & Hk).
        exists (c :: w), t. repeat split; [|done]. by constructor.
      * intros H. exists [], (c :: s). by repeat split; [constructor|].
    + intros H. exists [], (c :: s). by repeat split; [constructor|].
Qed.

Lemma greedy_complete p k w t :
  all_of p w -> is_Some (k t) -> is_Some (greedy p k (w ++ t)).
Proof.
  induction 1 as [|c w Hc _ IH]; intros Hk; simpl.
  - destruct t as [|c t]; simpl; [done|].
    destruct (p c); [|done]. by destruct (greedy p k t).
  - rewrite Hc. destruct (IH Hk) as [r ->]. by eexists.
Qed.

(** A greedy repetition that runs into a character outside its class (or
    into the end of the text) hands over right there when the rest of the
    pattern succeeds. *)
Lemma greedy_run p k w t r :
  all_of p w ->
  (forall c t', t = c :: t' -> p c = false) ->
  k t = Some r ->
  greedy p k (w ++ t) = Some r.
Proof.
  intros Hw Ht Hk. induction Hw as [|c w Hc _ IH]; simpl.
  - destruct t as [|c t]; simpl; [done|]. by rewrite (Ht c t eq_refl).
  - by rewrite Hc, IH.
Qed.

Lemma match_here_sound re s r : match_here re s = Some r -> parses re s r.
Proof.
  revert s r. induction re as [|a re IH]; intros s r; simpl.
  - by intros [= <-].
  - destruct a as [p|p|p| |].
    + destruct s as [|c s]; [done|]. destruct (p c) eqn:Hc; [|done].
      intros H. exists c, s. repeat split; [done|]. by apply IH.
    + intros H. apply greedy_sound in H as (w & t & -> & Hw & Hk).
      exists w, t. repeat split; [done|]. by apply IH.
    + destruct s as [|c s]; [done|]. destruct (p c) eqn:Hc; [|done].
      intros H. apply greedy_sound in H as (w & t & -> & Hw & Hk).
      exists c, w, t. repeat split; try done. by apply IH.
    + destruct (match_here re s) as [[marks rest]|] eqn:Hm; [|done].
      intros [= <-]. exists marks, rest. split; [done|]. by apply IH.
    + destruct (at_end s) eqn:He; [|done]. intros H. split; [done|]. by apply IH.
Qed.

Lemma match_here_complete re s r : parses re s r -> is_Some (match_here re s).
Proof.
  revert s r. induction re as [|a re IH]; intros s r; simpl.
  - by eexists.
  - destruct a as [p|p|p| |].
    + intros (c & s' & -> & Hc & Hp). rewrite Hc. by eapply IH.
    + intros (w & t & -> & Hw & Hp). apply greedy_complete; [done|]. by eapply IH.
    + intros (c & w & t & -> & Hc & Hw & Hp). rewrite Hc.
      apply greedy_complete; [done|]. by eapply IH.
    + intros (marks & rest & -> & Hp).
      destruct (IH _ _ Hp) as [[m x] ->]. by eexists.
    + intros [He Hp]. rewrite He. by eapply IH.
Qed.

(** When all the ways to match report the same result, that is the result. *)
Lemma match_here_unique re s r :
  parses re s r -> (forall r', parses re s r' -> r' = r) -> match_here re s = Some r.
Proof.
  intros Hp Hu. destruct (match_here_complete _ _ _ Hp) as [r' Hr'].
  rewrite Hr'. f_equal. apply Hu. by apply match_here_sound.
Qed.

Lemma match_here_none re s : (forall r, ~ parses re s r) -> match_here re s = None.
Proof.
  intros Hn. destruct (match_here re s) as [r|] eqn:E; [|done].
  by apply match_here_sound, Hn in E.
Qed.

Lemma search_here re s r : match_here re s = Some r -> search re s = Some r.
Proof. intros H. destruct s; simpl; by rewrite H. Qed.

Lemma search_skip re a s :
  (forall a1 a2, a = a1 ++ a2 -> a2 <> [] -> match_here re (a2 ++ s) = None) ->
  search re (a ++ s) = search re s.
Proof.
  induction a as [|c a IH]; intros Hno; [done|].
  pose proof (Hno [] (c :: a) eq_refl ltac:(done)) as H0.
  simpl in *. rewrite H0.
  apply IH. intros a1 a2 -> Hne. by apply (Hno (c :: a1) a2).
Qed.

Lemma search_found re a s : is_Some (match_here re s) -> is_Some (search re (a ++ s)).
Proof.
  intros [r Hr]. induction a as [|c a IH]; simpl.
  - rewrite (search_here _ _ _ Hr). by eexists.
  - destruct (match_here re (c :: a ++ s)); [by eexists | done].
Qed.

Lemma search_none re s :
  (forall a b, s = a ++ b -> match_here re b = None) -> search re s = None.
Proof.
  induction s as [|c s IH]; intros Hno; simpl.
  - by rewrite (Hno [] [] eq_refl).
  - rewrite (Hno [] (c :: s) eq_refl). apply IH.
    intros a b ->. by apply (Hno (c :: a) b).
Qed.

Lemma sub_from_skip re repl a s :
  sub_from re repl (length a) (a ++ s) = sub_from re repl 0 s.
Proof.
  induction a as [|c a IH]; simpl; [by destruct s|]. done.
Qed.

Lemma sub_cons_none re repl c s :
  match_here re (c :: s) = None -> sub re repl (c :: s) = c :: sub re repl s.
Proof. unfold sub. simpl. by intros ->. Qed.

Lemma sub_match re repl m s marks :
  m <> [] -> match_here re (m ++ s) = Some (marks, s) ->
  sub re repl (m ++ s) = repl ++ sub re repl s.
Proof.
  intros Hm Hmatch. destruct m as [|c m]; [done|].
  unfold sub. cbn [app sub_from]. simpl in Hmatch. rewrite Hmatch.
  replace (length (c :: m ++ s) - length s) with (S (length m))
    by (simpl; rewrite length_app; lia).
  by rewrite sub_from_skip.
Qed.

Lemma sub_prefix_none re repl a s :
  (forall a1 a2, a = a1 ++ a2 -> a2 <> [] -> match_here re (a2 ++ s) = None) ->
  sub re repl (a ++ s) = a ++ sub re repl s.
Proof.
  induction a as [|c a IH]; intros Hno; [done|].
  pose proof (Hno [] (c :: a) eq_refl ltac:(done)) as H0.
  cbn [app] in *. rewrite sub_cons_none by done.
  f_equal. apply IH. intros a1 a2 -> Hne. by apply (Hno (c :: a1) a2).
Qed.

(** ** Stripping *)

Lemma isspace_lower c : isspace (lower_char c) = isspace c.
Proof. by destruct c as [[] [] [] [] [] [] [] []]. Qed.

Lemma ci_char_space a c : ci_char a c = true -> isspace c = isspace a.
Proof.
  unfold ci_char. rewrite bool_decide_eq_true. intros H.
  by rewrite <- (isspace_lower c), H, isspace_lower.
Qed.

Lemma ci_char_refl a : ci_char a a = true.
Proof. unfold ci_char. by apply bool_decide_eq_true. Qed.

Lemma ci_eq_refl l : ci_eq l l.
Proof. induction l; constructor; [apply ci_char_refl | done]. Qed.

Lemma dropwhile_app_all p w l : all_of p w -> dropwhile p (w ++ l) = dropwhile p l.
Proof. induction 1 as [|c w Hc _ IH]; simpl; [done|]. by rewrite Hc. Qed.

Lemma dropwhile_all p w : all_of p w -> dropwhile p w = [].
Proof. intros H. rewrite <- (app_nil_r w). by rewrite dropwhile_app_all. Qed.

Lemma dropwhile_decomp p l :
  exists w, l = w ++ dropwhile p l /\ all_of p w
            /\ (forall c t, dropwhile p l = c :: t -> p c = false).
Proof.
  induction l as [|c l (w & Hl & Hw & Hstop)]; simpl.
  - exists []. by repeat split; [constructor|].
  - destruct (p c) eqn:Hc.
    + exists (c :: w). split; [by rewrite Hl at 1|]. split; [by constructor|]. done.
    + exists []. split; [done|]. split; [constructor|]. by intros ? ? [= <- _].
Qed.

Lemma dropwhile_app_stop p l w :
  dropwhile p l <> [] -> dropwhile p (l ++ w) = dropwhile p l ++ w.
Proof.
  induction l as [|c l IH]; simpl; [done|].
  destruct (p c); [exact IH | done].
Qed.

Lemma all_of_rev p l : all_of p (rev l) <-> all_of p l.
Proof.
  unfold all_of. split; intros H.
  - rewrite <- (rev_involutive l). by apply List.Forall_rev.
  - by apply List.Forall_rev.
Qed.

Lemma rstrip_decomp p l :
  exists w, l = rstrip_chars p l ++ w /\ all_of p w
            /\ (forall t c, rstrip_chars p l = t ++ [c] -> p c = false).
Proof.
  unfold rstrip_chars.
  destruct (dropwhile_decomp p (rev l)) as (w & Hl & Hw & Hstop).
  exists (rev w). split; [|split].
  - rewrite <- rev_app_distr, <- Hl. by rewrite rev_involutive.
  - by apply all_of_rev.
  - intros t c Ht. apply (f_equal (@rev ascii)) in Ht.
    rewrite rev_involutive, rev_app_distr in Ht. simpl in Ht. by eapply Hstop.
Qed.

Lemma rstrip_app_all p l w :
  all_of p w -> rstrip_chars p (l ++ w) = rstrip_chars p l.
Proof.
  intros Hw. unfold rstrip_chars. rewrite rev_app_distr.
  rewrite dropwhile_app_all; [done|]. by apply all_of_rev.
Qed.

Lemma rstrip_stop p l c : p c = false -> rstrip_chars p (l ++ [c]) = l ++ [c].
Proof.
  intros Hc. unfold rstrip_chars. rewrite rev_app_distr. simpl. rewrite Hc.
  simpl. by rewrite rev_involutive.
Qed.

Lemma strip_with_app_l p w l : all_of p w -> strip_with p (w ++ l) = strip_with p l.
Proof. intros Hw. unfold strip_with, lstrip_chars. by rewrite dropwhile_app_all. Qed.

Lemma strip_with_app_r p l w : all_of p w -> strip_with p (l ++ w) = strip_with p l.
Proof.
  intros Hw. unfold strip_with, lstrip_chars.
  destruct (dropwhile p l) as [|c t] eqn:Hd.
  - destruct (dropwhile_decomp p l) as (w' & Hl & Hw' & _).
    rewrite Hd, app_nil_r in Hl. subst w'.
    rewrite dropwhile_all; [done|]. by apply all_of_app.
  - rewrite dropwhile_app_stop by (by rewrite Hd).
    rewrite Hd. by apply rstrip_app_all.
Qed.

Lemma strip_with_all p w : all_of p w -> strip_with p w = [].
Proof.
  intros Hw. unfold strip_with, lstrip_chars. by rewrite dropwhile_all.
Qed.

Lemma strip_with_rstrip p l : strip_with p (rstrip_chars p l) = strip_with p l.
Proof.
  destruct (rstrip_decomp p l) as (w & Hl & Hw & _).
  rewrite Hl at 2. by rewrite strip_with_app_r.
Qed.

(** The stripped text is a piece of the text. *)
Lemma strip_with_piece p l :
  exists a b, l = a ++ strip_with p l ++ b /\ all_of p a /\ all_of p b.
Proof.
  unfold strip_with, lstrip_chars.
  destruct (dropwhile_decomp p l) as (a & Hl & Ha & _).
  destruct (rstrip_decomp p (dropwhile p l)) as (b & Hb & Hb' & _).
  exists a, b. split; [|done]. by rewrite <- Hb.
Qed.

(** ** Literals under [re.IGNORECASE] *)

Lemma match_here_literal lit re k s :
  ci_eq k lit -> match_here (map lit_ci lit ++ re) (k ++ s) = match_here re s.
Proof. induction 1 as [|c a k lit Hc _ IH]; simpl; [done|]. by rewrite Hc. Qed.

Lemma parses_literal lit re s r :
  parses (map lit_ci lit ++ re) s r ->
  exists k s', s = k ++ s' /\ ci_eq k lit /\ parses re s' r.
Proof.
  revert s. induction lit as [|a lit IH]; intros s; simpl.
  - intros H. exists [], s. by repeat split; [constructor|].
  - intros (c & s' & -> & Hc & Hp).
    destruct (IH _ Hp) as (k & s'' & -> & Hk & Hp').
    exists (c :: k), s''. repeat split; [|done]. by constructor.
Qed.

Lemma parses_literal_intro lit re k s r :
  ci_eq k lit -> parses re s r -> parses (map lit_ci lit ++ re) (k ++ s) r.
Proof.
  induction 1 as [|c a k lit Hc _ IH]; simpl; [done|].
  intros Hp. exists c, (k ++ s). by repeat split; [|apply IH].
Qed.

Lemma ci_eq_no_space k lit : ci_eq k lit -> no_space lit -> no_space k.
Proof.
  induction 1 as [|c a k lit Hc _ IH]; [done|].
  intros Hl. apply Forall_cons in Hl as [Ha Hl].
  constructor; [|by apply IH]. by rewrite (ci_char_space _ _ Hc).
Qed.

Lemma no_space_execute : no_space (chars "execute").
Proof. by repeat constructor. Qed.

Lemma rstrip_no_space_end x k w :
  no_space k -> k <> [] -> all_of isspace w ->
  rstrip_chars isspace (x ++ k ++ w) = x ++ k.
Proof.
  intros Hk Hne Hw. rewrite app_assoc, rstrip_app_all by done.
  destruct k as [|c k _] using rev_ind; [done|].
  apply Forall_app in Hk as [_ Hc]. apply Forall_cons in Hc as [Hc _].
  rewrite app_assoc. by apply rstrip_stop.
Qed.

(** Two ways to read a text as "something, a word without spaces of a given
    length, trailing spaces" agree. *)
Lemma tail_unique x k w a k' b :
  x ++ k ++ w = a ++ k' ++ b ->
  all_of isspace w -> all_of isspace b ->
  no_space k -> no_space k' -> length k = length k' -> k <> [] ->
  x = a /\ k = k' /\ w = b.
Proof.
  intros Heq Hw Hb Hk Hk' Hlen Hne.
  assert (Hne' : k' <> []) by (intros ->; by destruct k).
  pose proof (f_equal (rstrip_chars isspace) Heq) as Hr.
  rewrite !rstrip_no_space_end in Hr by done.
  apply app_inj_2 in Hr as [-> ->]; [|done].
  split; [done|]. split; [done|]. by apply app_inv_head in Heq as ?%app_inv_head.
Qed.

(** ** The trailing "execute" token *)

Lemma trailing_execute_match w0 k w :
  all_of isspace w0 -> ci_eq k (chars "execute") -> all_of isspace w ->
  match_here trailing_execute_re (w0 ++ k ++ w) = Some ([], []).
Proof.
  intros Hw0 Hk Hw. unfold trailing_execute_re, literal_ci. cbn [match_here].
  apply greedy_run; [done| |].
  - intros c t' Heq. pose proof (ci_eq_no_space _ _ Hk no_space_execute) as Hn.
    destruct k as [|c0 k]; [by apply Forall2_length in Hk|]. simplify_eq/=.
    by apply Forall_cons in Hn as [? _].
  - rewrite match_here_literal by done. cbn [match_here].
    rewrite <- (app_nil_r w). by apply greedy_run.
Qed.

Lemma at_end_space t : at_end t = true -> all_of isspace t.
Proof.
  destruct t as [|c [|? ?]]; simpl; try done; [constructor|].
  rewrite bool_decide_eq_true. intros ->. by repeat constructor.
Qed.

Lemma trailing_execute_parse t r :
  parses trailing_execute_re t r ->
  exists a k b, t = a ++ k ++ b /\ all_of isspace a /\ ci_eq k (chars "execute")
                /\ all_of isspace b.
Proof.
  unfold trailing_execute_re, literal_ci. cbn [parses].
  intros (a & t1 & -> & Ha & Hp).
  apply parses_literal in Hp as (k & t2 & -> & Hk & Hp).
  cbn [parses] in Hp. destruct Hp as (b & t3 & -> & Hb & Hend & _).
  exists a, k, (b ++ t3). repeat split; try done.
  apply all_of_app. split; [done|]. by apply at_end_space.
Qed.

Lemma sub_trailing_execute p k w :
  ci_eq k (chars "execute") -> all_of isspace w ->
  sub trailing_execute_re [] (p ++ k ++ w) = rstrip_chars isspace p.
Proof.
  intros Hk Hw.
  destruct (rstrip_decomp isspace p) as (w0 & Hp & Hw0 & Hend).
  set (p0 := rstrip_chars isspace p) in *. rewrite Hp, <- app_assoc.
  pose proof (ci_eq_no_space _ _ Hk no_space_execute) as Hnk.
  assert (Hlen : length k = 7) by (by apply Forall2_length in Hk).
  rewrite sub_prefix_none.
  - pose proof (trailing_execute_match w0 k w Hw0 Hk Hw) as Hm.
    rewrite <- (app_nil_r (w0 ++ k ++ w)) at 1.
    erewrite sub_match; [by rewrite app_nil_r | | by rewrite app_nil_r; exact Hm].
    destruct k; [done|]. by destruct w0.
  - intros a1 a2 Hp0 Hne. apply match_here_none. intros r Hr.
    apply trailing_execute_parse in Hr as (a & k' & b & Heq & Ha & Hk' & Hb).
    rewrite app_assoc in Heq.
    apply tail_unique in Heq as (Hx & _ & _); try done.
    + destruct a2 as [|c a2 _] using rev_ind; [done|].
      rewrite <- Hx in Ha. apply all_of_app in Ha as [Ha _].
      apply all_of_app in Ha as [_ Hc]. apply all_of_cons in Hc as [Hc _].
      rewrite app_assoc in Hp0. apply Hend in Hp0. congruence.
    + by apply (ci_eq_no_space _ _ Hk' no_space_execute).
    + apply Forall2_length in Hk'. by rewrite Hlen, Hk'.
    + by destruct k.
Qed.

Lemma extract_task_prompt_execute body p k w :
  sub inline_tag_re [] (chars body) = p ++ k ++ w ->
  ci_eq k (chars "execute") -> all_of isspace w ->
  extract_task_prompt body (Some "execute") = str (strip_chars p).
Proof.
  intros Hbody Hk Hw. unfold extract_task_prompt. cbn.
  rewrite Hbody, sub_trailing_execute by done.
  unfold strip_chars. by rewrite strip_with_rstrip.
Qed.

(** C5 fails on the code for a trailing "execute" that is not in lower
    case: [detect_execution_trigger] tests [endswith('execute')] on the
    exact letters, although [extract_task_prompt] removes the token in any
    letter case.  The trimmed body below ends with the word in upper case;
    no trigger is detected, while the extraction for the execute trigger
    does drop the token. *)
Theorem detect_execution_trigger_uppercase :
  let body := "fix the login bug EXECUTE" in
  endswith (lower (strip body)) "execute" = true
  /\ detect_execution_trigger body = None
  /\ detect_execution_trigger (lower body) = Some "execute"
  /\ extract_task_prompt body (Some "execute") = "fix the login bug".
Proof. by vm_compute. Qed.

(** For a body whose trimmed text ends with "execute" in lower case the
    trigger is detected. *)
Lemma detect_execution_trigger_execute body :
  endswith (strip body) "execute" = true ->
  detect_execution_trigger body = Some "execute".
Proof. unfold detect_execution_trigger. by intros ->. Qed.

(** ** The "continue - ..." marker *)

Lemma greedy_any_all t :
  greedy any_char (match_here [Paren]) t = Some ([[]], []).
Proof.
  induction t as [|c t IH]; [done|].
  cbn [greedy]. change (any_char c) with true. cbv iota. by rewrite IH.
Qed.

Lemma group_rest_all t :
  t <> [] -> match_here [Paren; Plus any_char; Paren] t = Some ([t; []], []).
Proof.
  destruct t as [|c t]; [done|]. intros _. cbn [match_here].
  change (any_char c) with true. cbv iota. by rewrite greedy_any_all.
Qed.

Lemma greedy_space_group s :
  s <> [] ->
  exists g, greedy isspace (match_here [Paren; Plus any_char; Paren]) s
              = Some ([g; []], [])
            /\ strip_chars g = strip_chars s.
Proof.
  induction s as [|c s IH]; [done|]. intros _. cbn [greedy].
  destruct (isspace c) eqn:Hc.
  - destruct s as [|c' s].
    + exists [c]. by rewrite group_rest_all.
    + destruct IH as (g & -> & Hg); [done|]. exists g. split; [done|].
      rewrite Hg. symmetry. apply (strip_with_app_l isspace [c]). by repeat constructor.
  - exists (c :: s). by rewrite group_rest_all.
Qed.

Lemma hyphen_not_space : isspace "-" = false.
Proof. done. Qed.

Lemma continue_group_match kw w1 t :
  ci_eq kw (chars "continue") -> all_of isspace w1 -> t <> [] ->
  exists g, match_here continue_group_re (kw ++ w1 ++ "-"%char :: t)
              = Some ([g; []], [])
            /\ strip_chars g = strip_chars t.
Proof.
  intros Hkw Hw1 Ht. unfold continue_group_re, literal_ci.
  rewrite match_here_literal by done. cbn [match_here].
  destruct (greedy_space_group t Ht) as (g & Hg & Hs).
  exists g. split; [|done].
  apply greedy_run; [done| |].
  - intros c t' [= <- _]. apply hyphen_not_space.
  - cbn [match_here lit]. rewrite bool_decide_eq_true_2 by done. exact Hg.
Qed.

Lemma continue_group_marker t r :
  parses continue_group_re t r -> starts_with_marker t.
Proof.
  unfold continue_group_re, literal_ci. intros Hp.
  apply parses_literal in Hp as (k & t1 & -> & Hk & Hp).
  cbn [parses lit] in Hp.
  destruct Hp as (w & t2 & -> & Hw & c & t3 & -> & Hc & _).
  apply bool_decide_eq_true in Hc as ->. by exists k, w, t3.
Qed.

Lemma first_non_newline l :
  has_non_newline l ->
  exists a c b, l = a ++ c :: b /\ all_of isspace a /\ not_newline c = true.
Proof.
  intros (x & Hin & Hx).
  destruct (dropwhile_decomp is_newline l) as (a & Hl & Ha & Hstop).
  destruct (dropwhile is_newline l) as [|c b] eqn:Hd.
  - rewrite app_nil_r in Hl. subst a.
    unfold all_of in Ha. rewrite Forall_forall in Ha. apply Ha in Hin. congruence.
  - exists a, c, b. split; [done|]. split.
    + eapply Forall_impl; [exact Ha|]. intros y Hy.
      apply bool_decide_eq_true in Hy as ->. done.
    + unfold not_newline. fold (is_newline c). by rewrite (Hstop c b eq_refl).
Qed.

Lemma continue_match kw w1 t :
  ci_eq kw (chars "continue") -> all_of isspace w1 -> has_non_newline t ->
  is_Some (match_here continue_re (kw ++ w1 ++ "-"%char :: t)).
Proof.
  intros Hkw Hw1 Ht.
  destruct (first_non_newline t Ht) as (a & c & b & -> & Ha & Hc).
  apply (match_here_complete _ _ ([], b)).
  unfold continue_re, literal_ci. apply parses_literal_intro; [done|].
  cbn [parses]. exists w1, ("-"%char :: a ++ c :: b). repeat split; [done|].
  exists "-"%char, (a ++ c :: b). repeat split.
  exists a, (c :: b). repeat split; [done|].
  exists c, [], b. repeat split; [done | constructor].
Qed.

Lemma first_marker_no_c pre rest :
  Forall (fun c => ci_char "c" c = false) pre -> first_marker pre rest.
Proof.
  intros Hpre a b -> Hne (k & w & r & Heq & Hk & _).
  apply Forall_app in Hpre as [_ Hb].
  destruct b as [|c b]; [done|]. apply Forall_cons in Hb as [Hc _].
  destruct k as [|c' k]; [by apply Forall2_length in Hk|].
  apply Forall2_cons in Hk as [Hc' _]. simplify_eq/=. congruence.
Qed.

Lemma extract_task_prompt_continue body :
  extract_task_prompt body (Some "continue") =
    match search continue_group_re (sub inline_tag_re [] (chars body)) with
    | Some m => str (strip_chars (group1 m))
    | None => str (strip_chars (sub inline_tag_re [] (chars body)))
    end.
Proof. reflexivity. Qed.

Lemma extract_task_prompt_continue_first body pre kw w1 t :
  sub inline_tag_re [] (chars body) = pre ++ kw ++ w1 ++ "-"%char :: t ->
  ci_eq kw (chars "continue") -> all_of isspace w1 -> t <> [] ->
  first_marker pre (kw ++ w1 ++ "-"%char :: t) ->
  extract_task_prompt body (Some "continue") = str (strip_chars t).
Proof.
  intros Hclean Hkw Hw1 Hne Hfirst.
  rewrite extract_task_prompt_continue, Hclean.
  destruct (continue_group_match kw w1 t Hkw Hw1 Hne) as (g & Hm & Hg).
  rewrite search_skip.
  - rewrite (search_here _ _ _ Hm). unfold group1, between_marks. cbn [fst length].
    by rewrite Nat.sub_0_r, firstn_all, Hg.
  - intros a b Hpre Hb. apply match_here_none. intros r Hr.
    apply continue_group_marker in Hr. by eapply Hfirst.
Qed.

(** C6, as amended: let a body hold "continue" (in any letter case),
    optional whitespace, a hyphen, optional whitespace and a text X that
    reaches to the end of the body, with at least one character after the
    hyphen that is not a newline, and let the trimmed body not end with
    "execute".  Then [detect_execution_trigger] returns "continue".  If
    moreover the removal of the inline tags leaves that occurrence and X as
    they are, and in the text that is left no earlier place holds
    "continue", optional whitespace and a hyphen, then
    [extract_task_prompt] returns X trimmed. *)
Theorem continue_trigger_prompt (body : string) (pre kw w1 w2 X : list ascii) :
  chars body = pre ++ kw ++ w1 ++ "-"%char :: w2 ++ X ->
  ci_eq kw (chars "continue") -> all_of isspace w1 -> all_of isspace w2 ->
  has_non_newline (w2 ++ X) ->
  endswith (strip body) "execute" = false ->
  detect_execution_trigger body = Some "continue"
  /\ (forall pre',
        sub inline_tag_re [] (chars body) = pre' ++ kw ++ w1 ++ "-"%char :: w2 ++ X ->
        first_marker pre' (kw ++ w1 ++ "-"%char :: w2 ++ X) ->
        extract_task_prompt body (Some "continue") = str (strip_chars X)).
Proof.
  intros Hbody Hkw Hw1 Hw2 HX Hexec. split.
  - unfold detect_execution_trigger. rewrite Hexec, Hbody.
    destruct (search_found continue_re pre _ (continue_match kw w1 _ Hkw Hw1 HX))
      as [r ->]. done.
  - intros pre' Hclean Hfirst.
    assert (Hne : w2 ++ X <> []).
    { destruct HX as (c & Hin & _). intros Hnil. rewrite Hnil in Hin.
      by apply elem_of_nil in Hin. }
    rewrite (extract_task_prompt_continue_first body pre' kw w1 (w2 ++ X)) by done.
    unfold strip_chars. by rewrite strip_with_app_l.
Qed.

(** "please continue - add retries / and logging": the marker is the first
    one, X spans two lines. *)
Lemma continue_trigger_prompt_witness :
  let body := "please continue - add retries
and logging " in
  detect_execution_trigger body = Some "continue"
  /\ extract_task_prompt body (Some "continue") = "add retries
and logging".
Proof.
  intros body.
  destruct (continue_trigger_prompt body (chars "please ")
              (chars "continue") (chars " ") (chars " ") (chars "add retries
and logging ")) as [Hdetect Hprompt].
  - reflexivity.
  - apply ci_eq_refl.
  - by repeat constructor.
  - by repeat constructor.
  - exists " "%char. split; [by left | done].
  - by vm_compute.
  - split; [exact Hdetect|].
    apply (Hprompt (chars "please ")).
    + by vm_compute.
    + apply first_marker_no_c. by repeat constructor.
Defined.

(** C6 as stated fails: a body with the marker that also ends in "execute"
    gets the execute trigger; a tag inside X is removed from the prompt; an
    X that is a single newline is not detected; of two markers the first
    one starts the prompt, so that for X = "c" the prompt is
    "b continue - c"; and the first marker is looked for after the tags are
    removed, so that a tag inside a word can bring one about. *)
Lemma continue_trigger_counterexamples :
  detect_execution_trigger "continue - fix the parser then execute" = Some "execute"
  /\ (detect_execution_trigger "continue - fix {{model: opus}} bug" = Some "continue"
      /\ extract_task_prompt "continue - fix {{model: opus}} bug" (Some "continue")
         = "fix  bug")
  /\ detect_execution_trigger "continue -
" = None
  /\ (detect_execution_trigger "a continue - b continue - c" = Some "continue"
      /\ extract_task_prompt "a continue - b continue - c" (Some "continue")
         = "b continue - c")
  /\ (detect_execution_trigger "conti{{a: b}}nue - x continue - y" = Some "continue"
      /\ extract_task_prompt "conti{{a: b}}nue - x continue - y" (Some "continue")
         = "x continue - y").
Proof. by vm_compute. Qed.

(** ** Inline tags *)

Lemma class_split_unique p a x b y :
  all_of p a -> all_of p b -> a ++ x = b ++ y ->
  (forall c t, x = c :: t -> p c = false) ->
  (forall c t, y = c :: t -> p c = false) ->
  a = b /\ x = y.
Proof.
  intros Ha. revert b. induction Ha as [|c a Hc _ IH]; intros b Hb Heq Hx Hy.
  - destruct b as [|c b]; [done|]. simpl in Heq.
    apply all_of_cons in Hb as [Hc _]. rewrite (Hx _ _ Heq) in Hc. done.
  - destruct b as [|c' b]; simpl in Heq.
    + symmetry in Heq. rewrite (Hy _ _ Heq) in Hc. done.
    + injection Heq as <- Heq. apply all_of_cons in Hb as [_ Hb].
      destruct (IH b Hb Heq Hx Hy) as [-> ->]. done.
Qed.

Lemma no_brace_not_rbrace l : no_brace l -> all_of not_rbrace l.
Proof.
  intros H. eapply Forall_impl; [exact H|]. intros c. unfold is_brace, not_rbrace.
  rewrite orb_false_iff, negb_true_iff. tauto.
Qed.

Lemma space_not_rbrace c : isspace c = true -> not_rbrace c = true.
Proof.
  intros Hc. unfold not_rbrace. apply negb_true_iff, bool_decide_eq_false.
  by intros ->.
Qed.

Lemma word_not_rbrace c : isword c = true -> not_rbrace c = true.
Proof.
  intros Hc. unfold not_rbrace. apply negb_true_iff, bool_decide_eq_false.
  by intros ->.
Qed.

Lemma inline_tag_match key value s :
  key <> [] -> all_of isword key -> value <> [] -> no_brace value ->
  match_here inline_tag_re
    ("{"%char :: "{"%char :: key ++ ":"%char :: value ++ "}"%char :: "}"%char :: s)
  = Some ([], s).
Proof.
  intros Hk Hkey Hv Hvalue.
  pose proof (no_brace_not_rbrace _ Hvalue) as Hnb.
  destruct key as [|k0 key]; [done|]. destruct value as [|v0 value]; [done|].
  apply all_of_cons in Hkey as [Hk0 Hkey]. apply all_of_cons in Hnb as [Hv0 Hnb].
  apply match_here_unique.
  - unfold inline_tag_re. cbn [parses lit].
    eexists _, _. split; [reflexivity|]. split; [done|].
    eexists _, _. split; [reflexivity|]. split; [done|].
    exists k0, key. eexists. split; [reflexivity|]. split; [done|]. split; [done|].
    eexists _, _. split; [reflexivity|]. split; [done|].
    exists []. eexists. split; [reflexivity|]. split; [constructor|].
    exists v0, value. eexists. split; [reflexivity|]. split; [done|]. split; [done|].
    eexists _, _. split; [reflexivity|]. split; [done|].
    eexists _, _. split; [reflexivity|]. split; [done|]. done.
  - intros r. unfold inline_tag_re. cbn [parses lit].
    intros (c1 & t1 & [= <- <-] & _ & c2 & t2 & [= <- <-] & _ & Hp).
    destruct Hp as (k1 & kw & t3 & Heq & Hk1 & Hkw & c3 & t4 & -> & Hc3 & Hp).
    apply bool_decide_eq_true in Hc3 as ->.
    destruct (class_split_unique isword (k0 :: key) (":"%char :: (v0 :: value)
                ++ "}"%char :: "}"%char :: s) (k1 :: kw) (":"%char :: t4))
      as [_ [= <-]].
    { by apply all_of_cons. } { by apply all_of_cons. } { exact Heq. }
    { by intros ? ? [= <- _]. } { by intros ? ? [= <- _]. }
    destruct Hp as (sp & t5 & Heq2 & Hsp & v1 & nb & t6 & -> & Hv1 & Hnb1
                    & c4 & t7 & -> & Hc4 & c5 & t8 & -> & Hc5 & ->).
    apply bool_decide_eq_true in Hc4 as ->. apply bool_decide_eq_true in Hc5 as ->.
    destruct (class_split_unique not_rbrace (v0 :: value) ("}"%char :: "}"%char :: s)
                (sp ++ v1 :: nb) ("}"%char :: "}"%char :: t8)) as [_ [= <-]].
    { by apply all_of_cons. }
    { apply all_of_app. split; [|by apply all_of_cons].
      eapply Forall_impl; [exact Hsp|]. apply space_not_rbrace. }
    { rewrite <- app_assoc. exact Heq2. }
    { by intros ? ? [= <- _]. } { by intros ? ? [= <- _]. }
    done.
Qed.

Lemma inline_tag_no_match c s :
  is_brace c = false -> match_here inline_tag_re (c :: s) = None.
Proof.
  unfold is_brace. rewrite orb_false_iff. intros [Hc _].
  unfold inline_tag_re. cbn [match_here lit]. by rewrite Hc.
Qed.

(** On a text whose braces all belong to inline tags, removing the tags
    leaves no brace. *)
Lemma sub_inline_tags_no_brace s :
  tagged_text s -> no_brace (sub inline_tag_re [] s).
Proof.
  induction 1 as [|c s Hc _ IH|key value s Hk Hkey Hv Hvalue _ IH].
  - constructor.
  - rewrite sub_cons_none by (by apply inline_tag_no_match). by constructor.
  - pose proof (inline_tag_match key value s Hk Hkey Hv Hvalue) as Hm.
    assert (Heq : "{"%char :: "{"%char :: key ++ ":"%char :: value
                    ++ "}"%char :: "}"%char :: s
                  = ("{"%char :: "{"%char :: key ++ ":"%char :: value
                       ++ ["}"%char; "}"%char]) ++ s).
    { simpl. rewrite <- app_assoc. simpl. by rewrite <- app_assoc. }
    rewrite Heq in Hm |- *.
    erewrite sub_match; [exact IH | done | exact Hm].
Qed.

(** ** The cleaned prompt *)

Lemma no_brace_piece x out y : no_brace (x ++ out ++ y) -> no_brace out.
Proof. intros H. apply Forall_app in H as [_ H]. by apply Forall_app in H as [H _]. Qed.

Lemma no_brace_no_span l : no_brace l -> ~ has_span l.
Proof.
  intros Hl (a & b & c & ->). apply Forall_app in Hl as [_ Hl].
  by apply Forall_cons in Hl as [Hl _].
Qed.

Lemma keyword_matches_length trigger k : keyword_matches trigger k -> 0 < length k.
Proof.
  intros [[_ ->] | [_ Hk]]; [simpl; lia|].
  apply Forall2_length in Hk. rewrite Hk. simpl. lia.
Qed.

Lemma keyword_once_first pre k w rest l :
  l = pre ++ k ++ w ++ "-"%char :: rest ->
  (forall a k' b, l = a ++ k' ++ b -> keyword_matches "continue" k' -> a = pre) ->
  first_marker pre (k ++ w ++ "-"%char :: rest).
Proof.
  intros Hl Honce a b -> Hne (k' & w' & r & Heq & Hk' & _).
  assert (a = a ++ b) as Hab.
  { apply (Honce a k' (w' ++ "-"%char :: r)); [|by right].
    by rewrite Hl, <- app_assoc, Heq. }
  apply (f_equal length) in Hab. rewrite length_app in Hab.
  destruct b; [done | simpl in Hab; lia].
Qed.

Lemma remove_all_from_skip old a s :
  remove_all_from old (length a) (a ++ s) = remove_all_from old 0 s.
Proof. induction a as [|c a IH]; simpl; [by destruct s | done]. Qed.

Lemma remove_all_absent old s :
  (forall a b, s <> a ++ old ++ b) -> remove_all old s = s.
Proof.
  unfold remove_all. induction s as [|c s IH]; intros Hno; [done|].
  cbn [remove_all_from]. rewrite bool_decide_eq_false_2.
  - f_equal. apply IH. intros a b ->. by apply (Hno (c :: a) b).
  - intros [b Hb]. by apply (Hno [] b).
Qed.

(** [replace] removes the single occurrence of a word. *)
Lemma remove_all_once old p w :
  old <> [] ->
  (forall a b, p ++ old ++ w = a ++ old ++ b -> a = p) ->
  remove_all old (p ++ old ++ w) = p ++ w.
Proof.
  intros Hold. unfold remove_all. induction p as [|c p IH]; intros Honce.
  - destruct old as [|o old]; [done|]. cbn [app remove_all_from].
    rewrite bool_decide_eq_true_2 by (by exists w).
    simpl. rewrite Nat.sub_0_r, remove_all_from_skip.
    apply remove_all_absent. intros a b ->.
    by specialize (Honce ((o :: old) ++ a) b ltac:(by rewrite <- app_assoc)).
  - cbn [app remove_all_from]. rewrite bool_decide_eq_false_2.
    + f_equal. apply IH. intros a b Heq.
      specialize (Honce (c :: a) b ltac:(by simpl; rewrite Heq)). by simplify_eq.
    + intros [b Hb]. by specialize (Honce [] b Hb).
Qed.

Lemma brace_span_match key value s :
  key <> [] -> all_of isword key -> value <> [] -> no_brace value ->
  match_here brace_span_re
    ("{"%char :: "{"%char :: key ++ ":"%char :: value ++ "}"%char :: "}"%char :: s)
  = Some ([], s).
Proof.
  intros Hk Hkey Hv Hvalue.
  pose proof (no_brace_not_rbrace _ Hvalue) as Hnb.
  assert (Hall : all_of not_rbrace (key ++ ":"%char :: value)).
  { apply all_of_app. split; [|by apply all_of_cons].
    eapply Forall_impl; [exact Hkey|]. apply word_not_rbrace. }
  destruct key as [|k0 key]; [done|]. apply all_of_cons in Hall as [Hk0 Hall].
  apply match_here_unique.
  - unfold brace_span_re. cbn [parses lit].
    eexists _, _. split; [reflexivity|]. split; [done|].
    eexists _, _. split; [reflexivity|]. split; [done|].
    exists k0, (key ++ ":"%char :: value). eexists.
    split; [by simpl; rewrite <- app_assoc|]. split; [done|]. split; [done|].
    eexists _, _. split; [reflexivity|]. split; [done|].
    eexists _, _. split; [reflexivity|]. split; [done|]. done.
  - intros r. unfold brace_span_re. cbn [parses lit].
    intros (c1 & t1 & [= <- <-] & _ & c2 & t2 & [= <- <-] & _ & Hp).
    destruct Hp as (v1 & nb & t3 & Heq & Hv1 & Hnb1
                    & c4 & t7 & -> & Hc4 & c5 & t8 & -> & Hc5 & ->).
    apply bool_decide_eq_true in Hc4 as ->. apply bool_decide_eq_true in Hc5 as ->.
    destruct (class_split_unique not_rbrace (k0 :: key ++ ":"%char :: value)
                ("}"%char :: "}"%char :: s) (v1 :: nb) ("}"%char :: "}"%char :: t8))
      as [_ [= <-]]; try done.
    + by apply all_of_cons.
    + by apply all_of_cons.
    + simpl in *. by rewrite <- app_assoc.
    + by intros ? ? [= <- _].
    + by intros ? ? [= <- _].
Qed.

(** On a text whose braces all belong to inline tags, the two tag patterns
    of the sources remove the same spans. *)
Lemma sub_brace_span_inline_tags s :
  tagged_text s -> sub brace_span_re [] s = sub inline_tag_re [] s.
Proof.
  induction 1 as [|c s Hc _ IH|key value s Hk Hkey Hv Hvalue _ IH]; [done| |].
  - rewrite !sub_cons_none; [by rewrite IH | by apply inline_tag_no_match |].
    unfold is_brace in Hc. apply orb_false_iff in Hc as [Hc _].
    unfold brace_span_re. cbn [match_here lit]. by rewrite Hc.
  - pose proof (inline_tag_match key value s Hk Hkey Hv Hvalue) as Hm.
    pose proof (brace_span_match key value s Hk Hkey Hv Hvalue) as Hm'.
    assert (Heq : "{"%char :: "{"%char :: key ++ ":"%char :: value
                    ++ "}"%char :: "}"%char :: s
                  = ("{"%char :: "{"%char :: key ++ ":"%char :: value
                       ++ ["}"%char; "}"%char]) ++ s).
    { simpl. rewrite <- app_assoc. simpl. by rewrite <- app_assoc. }
    rewrite Heq in Hm, Hm' |- *.
    erewrite !sub_match; [exact IH | done | exact Hm | done | exact Hm'].
Qed.

(** [get_task_prompt_for_agent], on the task the fetch step builds, gives
    the prompt [extract_task_prompt] gives. *)
Lemma get_task_prompt_for_agent_agrees (body trigger : string) :
  tagged_text (chars body) ->
  keyword_once trigger (sub inline_tag_re [] (chars body)) ->
  get_task_prompt_for_agent (fetched_task body (Some trigger))
  = extract_task_prompt body (Some trigger).
Proof.
  intros Htagged (pre & k & post & Hclean & Hk & Honce & Hexec & _).
  unfold get_task_prompt_for_agent. cbn [fetched_task execution_trigger task_prompt
                                           description].
  destruct Hk as [[-> ->] | [-> Hk]].
  - change (opt_is (Some "execute") "continue") with false. cbv iota.
    rewrite sub_brace_span_inline_tags, Hclean by done.
    rewrite (extract_task_prompt_execute body pre (chars "execute") post);
      [| done | apply ci_eq_refl | by apply Hexec].
    rewrite remove_all_once; [| done |].
    2: { intros a b Heq. apply (Honce a (chars "execute") b); [by rewrite Hclean | by left]. }
    unfold strip_chars. rewrite strip_with_app_r; [done | by apply Hexec].
  - change (opt_is (Some "continue") "continue") with true. cbv iota.
    apply py_or_empty.
Qed.

(** C7, as amended: let the braces of a body all belong to inline tags
    [{{key: value}}], and let the keyword of the detected trigger occur only
    once in the body with its tags removed, as the trigger itself (the
    trailing "execute", or "continue" with its hyphen and a text after it).
    Then the cleaned prompt of [extract_task_prompt] has no brace, hence no
    "{{...}}" span, and does not contain the keyword; and
    [get_task_prompt_for_agent], on the task the fetch step builds for the
    body, returns that same prompt. *)
Theorem cleaned_prompt_invariant (body trigger : string) :
  detect_execution_trigger body = Some trigger ->
  tagged_text (chars body) ->
  keyword_once trigger (sub inline_tag_re [] (chars body)) ->
  let out := chars (extract_task_prompt body (Some trigger)) in
  no_brace out /\ ~ has_span out /\ ~ contains_keyword trigger out
  /\ get_task_prompt_for_agent (fetched_task body (Some trigger))
     = extract_task_prompt body (Some trigger).
Proof.
  intros Hdetect Htagged Honce0 out.
  pose proof (get_task_prompt_for_agent_agrees body trigger Htagged Honce0) as Hagree.
  destruct Honce0 as (pre & k & post & Hclean & Hk & Honce & Hexec & Hcont).
  cut (no_brace out /\ ~ has_span out /\ ~ contains_keyword trigger out); [tauto|].
  clear Hagree.
  pose proof (sub_inline_tags_no_brace _ Htagged) as Hnb.
  assert (Hcases : exists t,
            out = strip_chars t
            /\ ((trigger = "execute" /\ t = pre)
                \/ (trigger = "continue" /\ exists w, post = w ++ "-"%char :: t))).
  { destruct Hk as [[-> ->] | [-> Hk]].
    - exists pre. split; [|by left]. subst out.
      rewrite (extract_task_prompt_execute body pre (chars "execute") post);
        [by rewrite chars_str | done | apply ci_eq_refl | by apply Hexec].
    - destruct (Hcont eq_refl) as (w & rest & -> & Hw & Hrest).
      exists rest. split; [|right; split; [done | by exists w]]. subst out.
      rewrite (extract_task_prompt_continue_first body pre k w rest); try done.
      + by rewrite chars_str.
      + by eapply keyword_once_first. }
  destruct Hcases as (t & Hout & Ht).
  destruct (strip_with_piece isspace t) as (x & y & Hpiece & _ & _).
  fold (strip_chars t) in Hpiece. rewrite <- Hout in Hpiece.
  assert (Hno : no_brace out).
  { rewrite Hclean in Hnb. destruct Ht as [[_ ->] | [_ (w & ->)]].
    - apply Forall_app in Hnb as [Hnb _]. rewrite Hpiece in Hnb.
      by eapply no_brace_piece.
    - do 3 (apply Forall_app in Hnb as [_ Hnb]). apply Forall_cons in Hnb as [_ Hnb].
      rewrite Hpiece in Hnb. by eapply no_brace_piece. }
  split; [done|]. split; [by apply no_brace_no_span|].
  intros (a & k' & b & Hin & Hk').
  pose proof (keyword_matches_length _ _ Hk') as Hlen.
  destruct Ht as [[_ ->] | [_ (w & ->)]].
  - assert (x ++ a = pre) as Hpre.
    { apply (Honce (x ++ a) k' (b ++ y ++ k ++ post)); [|done].
      rewrite Hclean. rewrite Hpiece at 1. rewrite Hin. by rewrite <- !app_assoc. }
    apply (f_equal length) in Hpre. rewrite Hpiece, Hin, !length_app in Hpre. lia.
  - assert (pre ++ k ++ w ++ "-"%char :: x ++ a = pre) as Hpre.
    { apply (Honce _ k' (b ++ y)); [|done].
      rewrite Hclean. rewrite Hpiece at 1. rewrite Hin.
      rewrite <- !app_assoc. simpl. by rewrite <- !app_assoc. }
    apply (f_equal length) in Hpre. rewrite !length_app in Hpre. simpl in Hpre.
    rewrite !length_app in Hpre. lia.
Qed.

Ltac unique_occurrence :=
  lazymatch goal with
  | Heq : _ = ?a ++ _ |- ?a = [] =>
      apply (f_equal length) in Heq; rewrite !length_app in Heq; simpl in Heq;
      destruct a; [done | simpl in Heq; lia]
  | Heq : _ = ?a ++ _ |- ?a = _ :: _ =>
      let a' := fresh "a" in
      destruct a as [|? a'];
      [ simpl in Heq; discriminate Heq
      | simpl in Heq; injection Heq as <- Heq; f_equal; unique_occurrence ]
  end.

(** "{{model: opus}} refactor the parser execute": one tag, one keyword. *)
Lemma cleaned_prompt_invariant_witness :
  let body := "{{model: opus}} refactor the parser execute" in
  let out := chars (extract_task_prompt body (Some "execute")) in
  no_brace out /\ ~ has_span out /\ ~ contains_keyword "execute" out
  /\ get_task_prompt_for_agent (fetched_task body (Some "execute"))
     = extract_task_prompt body (Some "execute").
Proof.
  intros body.
  apply (cleaned_prompt_invariant body "execute").
  - by vm_compute.
  - apply (tagged_tag (chars "model") (chars " opus")
             (chars " refactor the parser execute")); try done.
    + by repeat constructor.
    + by repeat constructor.
    + repeat (apply tagged_char; [done|]). apply tagged_nil.
  - exists (chars " refactor the parser "), (chars "execute"), [].
    split; [by vm_compute|]. split; [by left|]. split; [|split].
    + intros a k' b Heq [[_ ->] | [? _]]; [|done].
      replace (sub inline_tag_re [] (chars body))
        with (chars " refactor the parser execute") in Heq by (by vm_compute).
      cbn in Heq |- *. unique_occurrence.
    + intros _. constructor.
    + discriminate.
Defined.

(** C7 as stated fails: a brace pair that is not a [key: value] tag stays
    in the prompt, and only the trailing "execute" is removed.  The same
    holds for [get_task_prompt_for_agent], where a span with a brace inside
    stays and removing every "execute" can join a new one. *)
Lemma cleaned_prompt_counterexample :
  let body := "{{wip}} execute the plan then execute" in
  let out := extract_task_prompt body (Some "execute") in
  detect_execution_trigger body = Some "execute"
  /\ out = "{{wip}} execute the plan then"
  /\ has_span (chars out)
  /\ contains_keyword "execute" (chars out)
  /\ get_task_prompt_for_agent
       (fetched_task "{{a}b}} rerun exeexecutecute execute" (Some "execute"))
     = "{{a}b}} rerun execute".
Proof.
  intros body out.
  split; [by vm_compute|]. split; [by vm_compute|]. split; [|split].
  - exists [], (chars "wip"), (chars " execute the plan then"). by vm_compute.
  - exists (chars "{{wip}} "), (chars "execute"), (chars " the plan then").
    split; [by vm_compute | by left].
  - by vm_compute.
Qed.

(** ** The task list models *)

Lemma str_in_perm s l l' : l ≡ₚ l' -> str_in s l = str_in s l'.
Proof.
  intros Hp. apply eq_true_iff_eq. rewrite !str_in_spec. by rewrite Hp.
Qed.

(** X1: [SystemTag.extract_model_from_tags] gives opus priority over sonnet
    whatever the order of the tags: it answers opus exactly when "opus" is
    among the tags, sonnet exactly when "sonnet" is and "opus" is not, and
    nothing otherwise; an answer is one of [get_model_tags], and reordering
    the tags does not change it. *)
Theorem extract_model_from_tags_priority (tags : list string) :
  (SystemTag.extract_model_from_tags tags = Some "opus" <-> "opus" ∈ tags)
  /\ (SystemTag.extract_model_from_tags tags = Some "sonnet" <->
      "sonnet" ∈ tags /\ ("opus" ∉ tags))
  /\ (SystemTag.extract_model_from_tags tags = None <->
      ("opus" ∉ tags) /\ ("sonnet" ∉ tags))
  /\ (forall m, SystemTag.extract_model_from_tags tags = Some m ->
        m ∈ SystemTag.get_model_tags)
  /\ (forall tags', tags ≡ₚ tags' ->
        SystemTag.extract_model_from_tags tags' = SystemTag.extract_model_from_tags tags).
Proof.
  unfold SystemTag.extract_model_from_tags, SystemTag.get_model_tags,
    SystemTag.OPUS, SystemTag.SONNET.
  split; [|split; [|split; [|split]]].
  - destruct (str_in "opus" tags) eqn:Ho.
    + apply str_in_spec in Ho. by split.
    + split; [by destruct (str_in "sonnet" tags)|].
      intros Hin. apply str_in_spec in Hin. congruence.
  - destruct (str_in "opus" tags) eqn:Ho.
    + apply str_in_spec in Ho. split; [discriminate | by intros [_ ?]].
    + assert (Hno : "opus" ∉ tags) by (intros H%str_in_spec; congruence).
      destruct (str_in "sonnet" tags) eqn:Hs.
      * apply str_in_spec in Hs. by split.
      * split; [discriminate|]. intros [Hin%str_in_spec _]. congruence.
  - destruct (str_in "opus" tags) eqn:Ho.
    + apply str_in_spec in Ho. split; [discriminate | by intros [? _]].
    + assert (Hno : "opus" ∉ tags) by (intros H%str_in_spec; congruence).
      destruct (str_in "sonnet" tags) eqn:Hs.
      * apply str_in_spec in Hs. split; [discriminate | by intros [_ ?]].
      * split; [|done]. intros _. split; [done|].
        intros H%str_in_spec; congruence.
  - intros m. destruct (str_in "opus" tags).
    + intros [= <-]. by left.
    + destruct (str_in "sonnet" tags); [|done]. intros [= <-]. right. by left.
  - intros tags' Hp.
    by rewrite <- (str_in_perm "opus" _ _ Hp), <- (str_in_perm "sonnet" _ _ Hp).
Qed.

Lemma pickup_done all_tasks i t :
  TaskList.status t = TaskList.Succeeded -> TaskList.pickup all_tasks (i, t) = None.
Proof. unfold TaskList.pickup. by intros ->. Qed.

Lemma omap_pickup_done all_tasks (f : nat -> TaskList.Task -> nat * TaskList.Task) l :
  (forall i t, f i t = (fst (f i t), t)) ->
  Forall (fun t => TaskList.status t = TaskList.Succeeded) l ->
  omap (TaskList.pickup all_tasks) (imap f l) = [].
Proof.
  intros Hf Hl. revert f Hf. induction Hl as [|t l Ht _ IH]; intros f Hf; [done|].
  rewrite imap_cons. cbn [omap list_omap]. rewrite Hf, pickup_done by done.
  apply IH. intros i t'. apply Hf.
Qed.

(** Below a task that has not succeeded, only the tasks that are not started
    are picked up. *)
Lemma omap_pickup_blocked all_tasks n l :
  (forall m, n <= m ->
     forallb (fun t => bool_decide (TaskList.status t = TaskList.Succeeded))
       (take m all_tasks) = false) ->
  omap (TaskList.pickup all_tasks) (imap (fun i => pair (n + i)) l)
  = filter (fun t => TaskList.status t = TaskList.NotStarted) l.
Proof.
  revert n. induction l as [|t l IH]; intros n Hn; [done|].
  rewrite imap_cons. cbn [omap list_omap].
  rewrite (imap_ext _ (fun i => pair (S n + i))) by (intros; simpl; f_equal; lia).
  rewrite IH by (intros m Hm; apply Hn; lia).
  rewrite filter_cons. unfold TaskList.pickup at 1.
  destruct (TaskList.status t) eqn:Hs; simpl.
  - done.
  - by rewrite Hn by lia.
  - done.
  - done.
  - done.
Qed.

Lemma forallb_take_false {A} (p : A -> bool) pre x post m :
  p x = false -> length pre < m -> forallb p (take m (pre ++ x :: post)) = false.
Proof.
  intros Hx Hm. apply not_true_is_false. rewrite forallb_forall.
  intros Hall. specialize (Hall x). rewrite Hall in Hx; [done|].
  apply list_elem_of_In. rewrite take_app_ge by lia.
  apply elem_of_app. right.
  destruct (m - length pre) as [|k] eqn:E; [lia|]. by left.
Qed.

Lemma forallb_true_Forall {A} (p : A -> bool) l :
  Forall (fun x => p x = true) l -> forallb p l = true.
Proof. intros H. apply forallb_forall. intros x Hin%list_elem_of_In. by eapply Forall_forall in H. Qed.

Lemma worktree_eligible_done name above :
  Forall (fun x => TaskList.status x = TaskList.Succeeded) above ->
  TaskList.get_eligible_tasks {| TaskList.name := name; TaskList.tasks := above |} = [].
Proof. intros Hdone. by apply omap_pickup_done. Qed.

Lemma worktree_eligible_open name above t rest :
  Forall (fun x => TaskList.status x = TaskList.Succeeded) above ->
  TaskList.status t <> TaskList.Succeeded ->
  TaskList.get_eligible_tasks
    {| TaskList.name := name; TaskList.tasks := above ++ t :: rest |}
  = (if TaskList.is_eligible_for_pickup t then [t] else [])
    ++ filter (fun x => TaskList.status x = TaskList.NotStarted) rest.
Proof.
  intros Hdone Ht. unfold TaskList.get_eligible_tasks. cbn [TaskList.tasks].
  rewrite imap_app, omap_app, omap_pickup_done by done.
  rewrite imap_cons. cbn [omap list_omap app].
  rewrite (imap_ext _ (fun i => pair (S (length above) + i)))
    by (intros; simpl; f_equal; lia).
  rewrite omap_pickup_blocked.
  2: { intros m Hm. apply forallb_take_false; [|lia]. by apply bool_decide_eq_false. }
  unfold TaskList.pickup, TaskList.is_eligible_for_pickup.
  rewrite Nat.add_0_r, take_app_length.
  rewrite forallb_true_Forall
    by (eapply Forall_impl; [exact Hdone|]; intros x Hx; by apply bool_decide_eq_true).
  by destruct (TaskList.status t).
Qed.

(** Every list of tasks is all successes, or successes up to a first task
    that has not succeeded. *)
Lemma first_open_task (l : list TaskList.Task) :
  Forall (fun x => TaskList.status x = TaskList.Succeeded) l
  \/ exists above t rest,
       l = above ++ t :: rest
       /\ Forall (fun x => TaskList.status x = TaskList.Succeeded) above
       /\ TaskList.status t <> TaskList.Succeeded.
Proof.
  induction l as [|x l IH]; [by left|].
  destruct (decide (TaskList.status x = TaskList.Succeeded)) as [Hx|Hx].
  - destruct IH as [Hall | (above & t & rest & -> & Hdone & Ht)].
    + left. by constructor.
    + right. exists (x :: above), t, rest. repeat split; [|done]. by constructor.
  - right. by exists [], x, l.
Qed.

(** X2: [Worktree.get_eligible_tasks] in closed form.  When every task has
    succeeded nothing is eligible.  Otherwise, with [t] the first task that
    has not succeeded: [t] is returned if it is not started or blocked (a
    blocked task is unblocked exactly when all tasks above it have
    succeeded), and of the tasks below [t] exactly the ones that are not
    started are returned, in their order. *)
Theorem worktree_get_eligible_tasks_closed_form (name : string)
    (above rest : list TaskList.Task) (t : TaskList.Task) :
  Forall (fun x => TaskList.status x = TaskList.Succeeded) above ->
  TaskList.status t <> TaskList.Succeeded ->
  TaskList.get_eligible_tasks {| TaskList.name := name; TaskList.tasks := above |} = []
  /\ TaskList.get_eligible_tasks
       {| TaskList.name := name; TaskList.tasks := above ++ t :: rest |}
     = (if TaskList.is_eligible_for_pickup t then [t] else [])
       ++ filter (fun x => TaskList.status x = TaskList.NotStarted) rest.
Proof.
  intros Hdone Ht. split;
    [by apply worktree_eligible_done | by apply worktree_eligible_open].
Qed.

(** Below a finished task, a blocked one is picked up; the second blocked
    task and the task in progress are not, the task that is not started is. *)
Lemma worktree_get_eligible_tasks_closed_form_witness :
  TaskList.get_eligible_tasks
    {| TaskList.name := "main";
       TaskList.tasks :=
         [sample_task TaskList.Succeeded "a"] ++ sample_task TaskList.Blocked "b"
           :: [sample_task TaskList.Blocked "c"; sample_task TaskList.InProgress "d";
               sample_task TaskList.NotStarted "e"] |}
  = [sample_task TaskList.Blocked "b"; sample_task TaskList.NotStarted "e"].
Proof.
  pose proof (worktree_get_eligible_tasks_closed_form "main"
                [sample_task TaskList.Succeeded "a"]
                [sample_task TaskList.Blocked "c"; sample_task TaskList.InProgress "d";
                 sample_task TaskList.NotStarted "e"]
                (sample_task TaskList.Blocked "b")) as H.
  destruct H as [_ H].
  - by repeat constructor.
  - simpl. discriminate.
  - exact H.
Defined.

(** X3: What [Worktree.get_eligible_tasks] keeps for every worktree: the result
    is a sub-list of the tasks, in their order; every task in it is eligible
    for pickup and none is completed; every task that is not started is in
    it; and a blocked task can only be its first element, so at most one
    blocked task is returned. *)
Theorem worktree_get_eligible_tasks_invariants (w : TaskList.Worktree) :
  TaskList.get_eligible_tasks w `sublist_of` TaskList.tasks w
  /\ Forall (fun t => TaskList.is_eligible_for_pickup t = true
                      /\ TaskList.is_completed t = false)
            (TaskList.get_eligible_tasks w)
  /\ filter (fun t => TaskList.status t = TaskList.NotStarted)
            (TaskList.get_eligible_tasks w)
     = filter (fun t => TaskList.status t = TaskList.NotStarted) (TaskList.tasks w)
  /\ Forall (fun t => TaskList.status t = TaskList.NotStarted)
            (tail (TaskList.get_eligible_tasks w)).
Proof.
  destruct w as [name l]. cbn [TaskList.tasks].
  assert (Hns : forall rest,
    Forall (fun t => TaskList.status t = TaskList.NotStarted)
      (filter (fun x => TaskList.status x = TaskList.NotStarted) rest)).
  { intros rest. apply Forall_forall. by intros x [? _]%list_elem_of_filter. }
  assert (Hdone_ns : forall above,
    Forall (fun x => TaskList.status x = TaskList.Succeeded) above ->
    filter (fun x => TaskList.status x = TaskList.NotStarted) above = []).
  { induction 1 as [|x above Hx _ IH]; [done|].
    rewrite filter_cons, decide_False by congruence. done. }
  destruct (first_open_task l) as [Hall | (above & t & rest & -> & Hdone & Ht)].
  - rewrite worktree_eligible_done by done.
    split; [apply sublist_nil_l|]. split; [done|]. split; [|done].
    by rewrite (Hdone_ns l) by done.
  - rewrite worktree_eligible_open by done.
    split; [|split; [|split]].
    + apply sublist_inserts_l. unfold TaskList.is_eligible_for_pickup.
      case_bool_decide; simpl.
      * apply sublist_skip, sublist_filter.
      * apply sublist_cons, sublist_filter.
    + apply Forall_app. split.
      * destruct (TaskList.is_eligible_for_pickup t) eqn:Hp; [|done].
        constructor; [|done]. split; [done|].
        unfold TaskList.is_eligible_for_pickup, TaskList.is_completed in *.
        by destruct (TaskList.status t).
      * eapply Forall_impl; [apply Hns|]. intros x Hx.
        unfold TaskList.is_eligible_for_pickup, TaskList.is_completed.
        by rewrite Hx.
    + rewrite !filter_app, (Hdone_ns above) by done. rewrite filter_cons.
      rewrite list_filter_filter.
      assert (Hrest : filter (fun x => TaskList.status x = TaskList.NotStarted
                                       /\ TaskList.status x = TaskList.NotStarted) rest
                      = filter (fun x => TaskList.status x = TaskList.NotStarted) rest).
      { apply list_filter_iff. tauto. }
      rewrite Hrest. unfold TaskList.is_eligible_for_pickup.
      destruct (TaskList.status t) eqn:Hs; simpl; rewrite ?filter_cons, ?Hs; simpl; done.
    + destruct (TaskList.is_eligible_for_pickup t); simpl; [apply Hns|].
      destruct (filter _ rest) as [|x l'] eqn:Hf; [done|].
      pose proof (Hns rest) as H. rewrite Hf in H. simpl. by apply Forall_cons in H as [_ ?].
Qed.

(** ** Status mapping *)

Lemma reverse_status_mapping_spec (c : TeamworkCronConfig) :
  (forall t k, reverse_status_mapping c !! t = Some k -> status_mapping c !! k = Some t)
  /\ (forall k t, status_mapping c !! k = Some t ->
        is_Some (reverse_status_mapping c !! t)).
Proof.
  unfold reverse_status_mapping.
  apply (map_fold_weak_ind
    (fun (r m : gmap string string) =>
       (forall t k, r !! t = Some k -> m !! k = Some t)
       /\ (forall k t, m !! k = Some t -> is_Some (r !! t)))).
  - split; intros ? ?; by rewrite lookup_empty.
  - intros i x m r Hi [Hs Hc]. split.
    + intros t k. rewrite lookup_insert. case_decide as Hx.
      * intros [= <-]. subst t. by rewrite lookup_insert_eq.
      * intros Hr. pose proof (Hs _ _ Hr) as Hm.
        rewrite lookup_insert_ne; [done|]. intros ->. congruence.
    + intros k t. rewrite lookup_insert. case_decide as Hk.
      * intros [= <-]. rewrite lookup_insert_eq. by eexists.
      * intros Hm. rewrite lookup_insert. case_decide; [by eexists|]. by eapply Hc.
Qed.

Lemma map_status_from_teamwork_value c t k :
  status_mapping c !! k = Some t ->
  exists k', map_status_from_teamwork c t = k' /\ status_mapping c !! k' = Some t.
Proof.
  intros Hk. destruct (reverse_status_mapping_spec c) as [Hs Hc].
  destruct (Hc _ _ Hk) as [k' Hk']. exists k'.
  unfold map_status_from_teamwork. rewrite Hk'. split; [done|]. by apply Hs.
Qed.

Lemma map_status_from_teamwork_other c t :
  (forall k, status_mapping c !! k <> Some t) -> map_status_from_teamwork c t = t.
Proof.
  intros Hno. destruct (reverse_status_mapping_spec c) as [Hs _].
  unfold map_status_from_teamwork.
  destruct (reverse_status_mapping c !! t) as [k|] eqn:E; [|done].
  by apply Hs, Hno in E.
Qed.

Lemma status_value_dec c t :
  (exists k, status_mapping c !! k = Some t) \/ (forall k, status_mapping c !! k <> Some t).
Proof.
  destruct (reverse_status_mapping_spec c) as [Hs Hc].
  destruct (reverse_status_mapping c !! t) as [k|] eqn:E.
  - left. exists k. by apply Hs.
  - right. intros k Hk. apply Hc in Hk as [? ?]. congruence.
Qed.

(** X4: A Teamwork status is mapped to a system status and back to itself
    exactly when it is the Teamwork name of some system status or is not
    itself a system status of the mapping; this holds for every mapping. *)
Theorem map_status_teamwork_round_trip (c : TeamworkCronConfig) (t : string) :
  map_status_to_teamwork c (map_status_from_teamwork c t) = t
  <-> (exists k, status_mapping c !! k = Some t) \/ status_mapping c !! t = None.
Proof.
  unfold map_status_to_teamwork.
  destruct (status_value_dec c t) as [(k & Hk) | Hno].
  - destruct (map_status_from_teamwork_value c t k Hk) as (k' & -> & Hk').
    rewrite Hk'. split; [intros _; left; by exists k | done].
  - rewrite map_status_from_teamwork_other by done.
    destruct (status_mapping c !! t) as [v|] eqn:E; simpl.
    + split; [intros ->; left; by exists t | intros [(k & Hk)|]; [by apply Hno in Hk | done]].
    + split; [by right | done].
Qed.

(** X5: When no two system statuses share a Teamwork status, a system status is
    mapped to Teamwork and back to itself exactly when it is a status of the
    mapping or is not the Teamwork name of one. *)
Theorem map_status_system_round_trip (c : TeamworkCronConfig) (s : string) :
  (forall k1 k2 v,
     status_mapping c !! k1 = Some v -> status_mapping c !! k2 = Some v -> k1 = k2) ->
  map_status_from_teamwork c (map_status_to_teamwork c s) = s
  <-> is_Some (status_mapping c !! s) \/ (forall k, status_mapping c !! k <> Some s).
Proof.
  intros Hinj. unfold map_status_to_teamwork.
  destruct (status_mapping c !! s) as [v|] eqn:E; simpl.
  - destruct (map_status_from_teamwork_value c v s E) as (k' & -> & Hk').
    split; [intros _; left; by eexists | intros _; by eapply Hinj].
  - destruct (status_value_dec c s) as [(k & Hk) | Hno].
    + destruct (map_status_from_teamwork_value c s k Hk) as (k' & -> & Hk').
      split.
      * intros ->. congruence.
      * intros [[? ?] | Hno]; [done | by apply Hno in Hk].
    + rewrite map_status_from_teamwork_other by done. split; [by right | done].
Qed.

(** With the default mapping, "Done" goes to "Complete" and comes back, and
    "New", a Teamwork name that is no system status, does not come back. *)
Lemma map_status_system_round_trip_witness :
  map_status_from_teamwork default_config (map_status_to_teamwork default_config "Done")
  = "Done"
  /\ map_status_from_teamwork default_config (map_status_to_teamwork default_config "New")
     <> "New".
Proof.
  assert (Hinj : forall k1 k2 v,
    status_mapping default_config !! k1 = Some v ->
    status_mapping default_config !! k2 = Some v -> k1 = k2).
  { intros k1 k2 v. cbn [default_config make_config status_mapping].
    unfold default_status_mapping. rewrite !lookup_insert, !lookup_empty.
    repeat case_decide; congruence. }
  split.
  - apply (map_status_system_round_trip default_config "Done" Hinj).
    left. vm_compute. by eexists.
  - intros H. apply (map_status_system_round_trip default_config "New" Hinj) in H.
    destruct H as [[v Hv] | Hno]; [by vm_compute in Hv|].
    by apply (Hno "Not started").
Defined.

(** ** Inline tags and the cleaned prompt, for every description *)

Lemma word_not_space c : isword c = true -> isspace c = false.
Proof. by destruct c as [[] [] [] [] [] [] [] []]. Qed.

Lemma lstrip_fixed p l :
  (forall c t, l = c :: t -> p c = false) -> dropwhile p l = l.
Proof. intros Hh. destruct l as [|c t]; [done|]. simpl. by rewrite (Hh c t). Qed.

Lemma rstrip_fixed p l :
  (forall t c, l = t ++ [c] -> p c = false) -> rstrip_chars p l = l.
Proof.
  intros Hl. destruct l as [|c l _] using rev_ind; [done|].
  apply rstrip_stop. by eapply Hl.
Qed.

Lemma strip_with_fixed p l :
  (forall c t, l = c :: t -> p c = false) ->
  (forall t c, l = t ++ [c] -> p c = false) ->
  strip_with p l = l.
Proof.
  intros Hh Hl. unfold strip_with, lstrip_chars.
  rewrite lstrip_fixed by done. by apply rstrip_fixed.
Qed.

(** A stripped text neither starts nor ends with a stripped character. *)
Lemma strip_with_ends p l :
  (forall c t, strip_with p l = c :: t -> p c = false)
  /\ (forall t c, strip_with p l = t ++ [c] -> p c = false).
Proof.
  unfold strip_with, lstrip_chars.
  destruct (dropwhile_decomp p l) as (a & Hl & Ha & Hstop).
  destruct (rstrip_decomp p (dropwhile p l)) as (b & Hb & Hb' & Hstop').
  split; [|exact Hstop'].
  intros c t Heq. rewrite Heq in Hb. by eapply Hstop.
Qed.

Lemma strip_with_idem p l : strip_with p (strip_with p l) = strip_with p l.
Proof. destruct (strip_with_ends p l). by apply strip_with_fixed. Qed.

Lemma no_space_strip l : no_space l -> strip_chars l = l.
Proof.
  intros Hl. apply strip_with_fixed.
  - intros c t ->. by apply Forall_cons in Hl as [? _].
  - intros t c ->. apply Forall_app in Hl as [_ Hl]. by apply Forall_cons in Hl as [? _].
Qed.

Lemma between_marks_app (a b : list ascii) : between_marks (a ++ b) b = a.
Proof.
  unfold between_marks. rewrite length_app.
  replace (length a + length b - length b) with (length a) by lia.
  apply take_app_length.
Qed.

(** Every pair [re.findall] reports comes from a match at some place of
    the text. *)
Lemma findall2_from_matches re skip s :
  Forall (fun kv => exists a b r, s = a ++ b /\ match_here re b = Some r
                                  /\ kv = (group1 r, group2 r))
         (findall2_from re skip s).
Proof.
  revert skip. induction s as [|c s IH]; intros skip; [constructor|].
  assert (Hshift : forall n,
    Forall (fun kv => exists a b r, c :: s = a ++ b /\ match_here re b = Some r
                                    /\ kv = (group1 r, group2 r))
           (findall2_from re n s)).
  { intros n. eapply Forall_impl; [apply IH|].
    intros kv (a & b & r & -> & Hm & ->). by exists (c :: a), b, r. }
  cbn [findall2_from]. destruct skip; [|apply Hshift].
  destruct (match_here re (c :: s)) as [r|] eqn:Hm; [|apply Hshift].
  destruct (length (c :: s) - length (snd r)); [apply Hshift|].
  constructor; [|apply Hshift]. by exists [], (c :: s), r.
Qed.

(** What a match of the tag pattern looks like. *)
Lemma inline_tag_groups_parse s r :
  match_here inline_tag_groups_re s = Some r ->
  exists key ws value rest,
    s = "{"%char :: "{"%char :: key ++ ":"%char :: ws ++ value
          ++ "}"%char :: "}"%char :: rest
    /\ key <> [] /\ all_of isword key /\ all_of isspace ws
    /\ value <> [] /\ all_of not_rbrace value
    /\ group1 r = key /\ group2 r = value.
Proof.
  intros Hm. apply match_here_sound in Hm.
  unfold inline_tag_groups_re in Hm. cbn [parses lit] in Hm.
  destruct Hm as (c1 & t1 & -> & Hc1 & c2 & t2 & -> & Hc2 & marks1 & rest1 & -> & Hp).
  destruct Hp as (k0 & kw & t3 & -> & Hk0 & Hkw & marks2 & rest2 & [= -> ->] & Hp).
  destruct Hp as (c3 & t4 & -> & Hc3 & ws & t5 & -> & Hws & marks3 & rest3 & [= -> ->] & Hp).
  destruct Hp as (v0 & vw & t6 & -> & Hv0 & Hvw & marks4 & rest4 & [= -> ->] & Hp).
  destruct Hp as (c4 & t7 & -> & Hc4 & c5 & t8 & -> & Hc5 & [= -> ->]).
  apply bool_decide_eq_true in Hc1 as ->. apply bool_decide_eq_true in Hc2 as ->.
  apply bool_decide_eq_true in Hc3 as ->. apply bool_decide_eq_true in Hc4 as ->.
  apply bool_decide_eq_true in Hc5 as ->.
  exists (k0 :: kw), ws, (v0 :: vw), t8.
  split; [done|].
  split; [done|]. split; [by apply all_of_cons|]. split; [done|].
  split; [done|]. split; [by apply all_of_cons|].
  unfold group1, group2. cbn [fst].
  split.
  - exact (between_marks_app (k0 :: kw) _).
  - exact (between_marks_app (v0 :: vw) _).
Qed.

Lemma foldl_insert_lookup {A} (f g : A -> string) (l : list A)
    (m : gmap string string) key value :
  foldl (fun acc x => <[f x := g x]> acc) m l !! key = Some value ->
  m !! key = Some value \/ exists x, x ∈ l /\ f x = key /\ g x = value.
Proof.
  revert m. induction l as [|x l IH]; intros m; simpl; [by left|].
  intros H. apply IH in H as [H | (y & Hy & ? & ?)].
  - apply lookup_insert_Some in H as [[? ?] | [_ H]]; [|by left].
    right. exists x. split; [by left | done].
  - right. exists y. split; [by right | done].
Qed.

(** X6: Every tag [extract_inline_tags] reports was written in the description
    as [{{key: text}}]: the key is a non-empty run of word characters, the
    text has no closing brace, and the value reported is the text without
    the white space around it (it can be empty). *)
Theorem extract_inline_tags_sound (description key value : string) :
  extract_inline_tags description !! key = Some value ->
  exists before ws text after,
    chars description
    = before ++ "{"%char :: "{"%char :: chars key ++ ":"%char :: ws ++ text
        ++ "}"%char :: "}"%char :: after
    /\ key <> "" /\ all_of isword (chars key)
    /\ all_of isspace ws /\ text <> [] /\ all_of not_rbrace text
    /\ value = str (strip_chars text)
    /\ strip value = value.
Proof.
  unfold extract_inline_tags. intros H.
  apply foldl_insert_lookup in H as [H | ([k v] & Hin & <- & <-)];
    [by rewrite lookup_empty in H|].
  pose proof (findall2_from_matches inline_tag_groups_re 0 (chars description)) as Hall.
  eapply Forall_forall in Hall; [|exact Hin].
  destruct Hall as (a & b & r & Hd & Hm & [= -> ->]).
  apply inline_tag_groups_parse in Hm
    as (key' & ws & text & rest & -> & Hk & Hkey & Hws & Ht & Htext & -> & ->).
  assert (Hstrip : strip_chars key' = key').
  { apply no_space_strip. eapply Forall_impl; [exact Hkey|]. apply word_not_space. }
  cbn [fst snd]. rewrite Hstrip, chars_str.
  exists a, ws, text, rest. split; [done|].
  split; [by rewrite str_nil_iff|]. split; [done|]. split; [done|].
  split; [done|]. split; [done|]. split; [done|].
  unfold strip. rewrite chars_str. unfold strip_chars. by rewrite strip_with_idem.
Qed.

(** The tag [{{model:  opus }}] of a description. *)
Lemma extract_inline_tags_sound_witness :
  exists before ws text after,
    chars "{{model:  opus }} add a flag execute"
    = before ++ "{"%char :: "{"%char :: chars "model" ++ ":"%char :: ws ++ text
        ++ "}"%char :: "}"%char :: after
    /\ all_of isspace ws /\ "opus" = str (strip_chars text).
Proof.
  destruct (extract_inline_tags_sound "{{model:  opus }} add a flag execute"
              "model" "opus") as (before & ws & text & after & H1 & _ & _ & H2 & _ & _ & H3 & _).
  - by vm_compute.
  - by exists before, ws, text, after.
Defined.

Lemma foldl_insert_ext {A} (f f' g : A -> string) (l : list A) (m : gmap string string) :
  Forall (fun x => f x = f' x) l ->
  foldl (fun acc x => <[f x := g x]> acc) m l
  = foldl (fun acc x => <[f' x := g x]> acc) m l.
Proof.
  intros H. revert m. induction H as [|x l Hx _ IH]; intros m; simpl; [done|].
  by rewrite Hx, IH.
Qed.

(** X7: [TeamworkTask.extract_tags_from_description] and [extract_inline_tags]
    of the fetch scripts compute the same tags from a description: the
    method does not strip the key, and a key never has white space to strip. *)
Theorem extract_tags_from_description_agrees (t : TeamworkTask) :
  extract_tags_from_description t = extract_inline_tags (description t).
Proof.
  unfold extract_tags_from_description, extract_inline_tags. symmetry.
  apply (foldl_insert_ext (fun kv => str (strip_chars (fst kv))) (fun kv => str (fst kv))
           (fun kv => str (strip_chars (snd kv)))).
  eapply Forall_impl; [apply findall2_from_matches|].
  intros kv (a & b & r & _ & Hm & ->). cbn [fst].
  apply inline_tag_groups_parse in Hm
    as (key & ws & value & rest & _ & _ & Hkey & _ & _ & _ & -> & _).
  f_equal. apply no_space_strip. eapply Forall_impl; [exact Hkey|]. apply word_not_space.
Qed.

Lemma sub_from_sublist re skip s : sub_from re [] skip s `sublist_of` s.
Proof.
  revert skip. induction s as [|c s IH]; intros skip; [done|]. cbn [sub_from].
  destruct skip; [|apply sublist_cons, IH].
  destruct (match_here re (c :: s)) as [[marks rest]|]; [|apply sublist_skip, IH].
  destruct (length (c :: s) - length rest); [apply sublist_skip, IH|].
  apply sublist_cons, IH.
Qed.

Lemma sub_sublist re s : sub re [] s `sublist_of` s.
Proof. apply sub_from_sublist. Qed.

Lemma strip_with_sublist p l : strip_with p l `sublist_of` l.
Proof.
  destruct (strip_with_piece p l) as (a & b & Hl & _).
  rewrite Hl at 2. apply sublist_inserts_l, sublist_inserts_r. done.
Qed.

(** The parenthesis marks of a match are places of the text. *)
Lemma parses_marks re s r :
  parses re s r -> Forall (fun mark => mark `suffix_of` s) (fst r).
Proof.
  revert s r. induction re as [|a re IH]; intros s r; simpl.
  - intros ->. constructor.
  - destruct a as [p|p|p| |].
    + intros (c & s' & -> & _ & Hp). eapply Forall_impl; [by apply IH|].
      intros mark. apply suffix_cons_r.
    + intros (w & t & -> & _ & Hp). eapply Forall_impl; [by apply IH|].
      intros mark. apply suffix_app_r.
    + intros (c & w & t & -> & _ & _ & Hp). eapply Forall_impl; [by apply IH|].
      intros mark Hm. by apply suffix_cons_r, suffix_app_r.
    + intros (marks & rest & -> & Hp). constructor; [done|]. by apply (IH _ _ Hp).
    + intros [_ Hp]. by apply IH.
Qed.

Lemma search_sound re s r :
  search re s = Some r -> exists a b, s = a ++ b /\ match_here re b = Some r.
Proof.
  induction s as [|c s IH]; simpl.
  - destruct (match_here re []) eqn:E; [|done]. intros [= <-]. by exists [], [].
  - destruct (match_here re (c :: s)) eqn:E.
    + intros [= <-]. by exists [], (c :: s).
    + intros H. destruct (IH H) as (a & b & -> & Hm). by exists (c :: a), b.
Qed.

Lemma group1_sublist re s r : search re s = Some r -> group1 r `sublist_of` s.
Proof.
  intros (a & b & -> & Hm)%search_sound.
  apply match_here_sound, parses_marks in Hm. unfold group1.
  destruct (fst r) as [|x [|y l]]; try apply sublist_nil_l.
  apply Forall_cons in Hm as [[k ->] _].
  apply sublist_inserts_l, sublist_inserts_l. apply sublist_take.
Qed.

(** X8: [extract_task_prompt] only deletes: for every description and every
    trigger value, the prompt is made of characters of the description, in
    their order, and it has no white space at either end. *)
Theorem extract_task_prompt_deletes_only (description : string)
    (trigger : option string) :
  chars (extract_task_prompt description trigger) `sublist_of` chars description
  /\ strip (extract_task_prompt description trigger)
     = extract_task_prompt description trigger.
Proof.
  assert (H : exists x, extract_task_prompt description trigger = str (strip_chars x)
                        /\ x `sublist_of` chars description).
  { unfold extract_task_prompt.
    pose proof (sub_sublist inline_tag_re (chars description)) as Htags.
    assert (Hexec : sub trailing_execute_re [] (sub inline_tag_re [] (chars description))
                      `sublist_of` chars description)
      by (etrans; [apply sub_sublist | done]).
    destruct (search continue_group_re (sub inline_tag_re [] (chars description)))
      as [m|] eqn:Hs.
    - assert (Hcont : group1 m `sublist_of` chars description)
        by (etrans; [by eapply group1_sublist | done]).
      repeat case_match; eauto.
    - repeat case_match; eauto. }
  destruct H as (x & -> & Hx). rewrite chars_str. split.
  - etrans; [apply strip_with_sublist | done].
  - unfold strip. rewrite chars_str. unfold strip_chars. by rewrite strip_with_idem.
Qed.

(** ** Reading back a tag *)

Lemma greedy_rest p (k1 k2 : list ascii -> option result) s :
  (forall t, option_Forall2 (fun r1 r2 => snd r1 = snd r2) (k1 t) (k2 t)) ->
  option_Forall2 (fun r1 r2 => snd r1 = snd r2) (greedy p k1 s) (greedy p k2 s).
Proof.
  intros Hk. induction s as [|c s IH]; cbn [greedy]; [apply Hk|].
  destruct (p c); [|apply Hk].
  destruct IH as [r1 r2 Hr|]; [by constructor | apply Hk].
Qed.

(** Parentheses do not change what a pattern matches. *)
Lemma match_here_erase re s :
  option_Forall2 (fun r1 r2 => snd r1 = snd r2)
    (match_here re s) (match_here (erase_groups re) s).
Proof.
  revert s. induction re as [|a re IH]; intros s; [by constructor|].
  destruct a as [p|p|p| |]; cbn [erase_groups List.filter match_here];
    fold (erase_groups re).
  - destruct s as [|c s]; [constructor|]. destruct (p c); [apply IH | constructor].
  - by apply greedy_rest.
  - destruct s as [|c s]; [constructor|]. destruct (p c); [|constructor].
    by apply greedy_rest.
  - destruct (IH s) as [[marks rest] r2 Hr|]; by constructor.
  - destruct (at_end s); [apply IH | constructor].
Qed.

Lemma inline_tag_groups_rest s r :
  match_here inline_tag_groups_re s = Some r ->
  exists key ws value,
    s = "{"%char :: "{"%char :: key ++ ":"%char :: ws ++ value
          ++ "}"%char :: "}"%char :: snd r
    /\ key <> [] /\ all_of isword key /\ all_of isspace ws
    /\ group1 r = key /\ group2 r = value.
Proof.
  intros Hm. apply match_here_sound in Hm.
  unfold inline_tag_groups_re in Hm. cbn [parses lit] in Hm.
  destruct Hm as (c1 & t1 & -> & Hc1 & c2 & t2 & -> & Hc2 & marks1 & rest1 & -> & Hp).
  destruct Hp as (k0 & kw & t3 & -> & Hk0 & Hkw & marks2 & rest2 & [= -> ->] & Hp).
  destruct Hp as (c3 & t4 & -> & Hc3 & ws & t5 & -> & Hws & marks3 & rest3 & [= -> ->] & Hp).
  destruct Hp as (v0 & vw & t6 & -> & Hv0 & Hvw & marks4 & rest4 & [= -> ->] & Hp).
  destruct Hp as (c4 & t7 & -> & Hc4 & c5 & t8 & -> & Hc5 & [= -> ->]).
  apply bool_decide_eq_true in Hc1 as ->. apply bool_decide_eq_true in Hc2 as ->.
  apply bool_decide_eq_true in Hc3 as ->. apply bool_decide_eq_true in Hc4 as ->.
  apply bool_decide_eq_true in Hc5 as ->.
  exists (k0 :: kw), ws, (v0 :: vw).
  split; [done|]. split; [done|]. split; [by apply all_of_cons|]. split; [done|].
  unfold group1, group2. cbn [fst].
  split.
  - exact (between_marks_app (k0 :: kw) _).
  - exact (between_marks_app (v0 :: vw) _).
Qed.

(** On a well-formed tag the pattern with groups matches the whole tag; it
    reports the key, and the value up to leading white space. *)
Lemma inline_tag_groups_match key value s :
  key <> [] -> all_of isword key -> value <> [] -> no_brace value ->
  exists r,
    match_here inline_tag_groups_re
      ("{"%char :: "{"%char :: key ++ ":"%char :: value ++ "}"%char :: "}"%char :: s)
    = Some r
    /\ snd r = s /\ group1 r = key
    /\ strip_chars (group2 r) = strip_chars value.
Proof.
  intros Hk Hkey Hv Hvalue.
  pose proof (inline_tag_match key value s Hk Hkey Hv Hvalue) as Hm.
  pose proof (match_here_erase inline_tag_groups_re
    ("{"%char :: "{"%char :: key ++ ":"%char :: value ++ "}"%char :: "}"%char :: s)) as He.
  change (erase_groups inline_tag_groups_re) with inline_tag_re in He.
  rewrite Hm in He.
  destruct (match_here inline_tag_groups_re _) as [r|] eqn:Hmr; [|inversion He].
  inversion He as [? ? Hr|]; subst. simpl in Hr.
  exists r. split; [done|]. split; [done|].
  destruct (inline_tag_groups_rest _ _ Hmr) as (key' & ws & value' & Htext & Hk' & Hkey' & Hws & -> & ->).
  rewrite Hr in Htext. injection Htext as Htext.
  destruct (class_split_unique isword key (":"%char :: value ++ "}"%char :: "}"%char :: s)
              key' (":"%char :: ws ++ value' ++ "}"%char :: "}"%char :: s))
    as [<- Hrest]; try done.
  { by intros ? ? [= <- _]. } { by intros ? ? [= <- _]. }
  split; [done|]. injection Hrest as Hrest.
  assert (value = ws ++ value') as ->.
  { apply (app_inv_tail ("}"%char :: "}"%char :: s)). by rewrite <- app_assoc. }
  unfold strip_chars. by rewrite strip_with_app_l.
Qed.

Lemma findall2_from_skip re a s :
  findall2_from re (length a) (a ++ s) = findall2_from re 0 s.
Proof. induction a as [|c a IH]; simpl; [by destruct s | done]. Qed.

Lemma findall2_cons_none re c s :
  match_here re (c :: s) = None -> findall2 re (c :: s) = findall2 re s.
Proof. unfold findall2. simpl. by intros ->. Qed.

Lemma findall2_match re m s r :
  m <> [] -> match_here re (m ++ s) = Some r -> snd r = s ->
  findall2 re (m ++ s) = (group1 r, group2 r) :: findall2 re s.
Proof.
  intros Hm Hmatch Hs. destruct m as [|c m]; [done|].
  unfold findall2. cbn [app findall2_from]. simpl in Hmatch. rewrite Hmatch, Hs.
  replace (length (c :: m ++ s) - length s) with (S (length m))
    by (simpl; rewrite length_app; lia).
  by rewrite findall2_from_skip.
Qed.

Lemma inline_tag_groups_no_match c s :
  is_brace c = false -> match_here inline_tag_groups_re (c :: s) = None.
Proof.
  unfold is_brace. rewrite orb_false_iff. intros [Hc _].
  unfold inline_tag_groups_re. cbn [match_here lit]. by rewrite Hc.
Qed.

Lemma tag_text_app key value s :
  "{"%char :: "{"%char :: key ++ ":"%char :: value ++ "}"%char :: "}"%char :: s
  = tag_text key value ++ s.
Proof.
  unfold tag_text. simpl. rewrite <- app_assoc. simpl. by rewrite <- app_assoc.
Qed.

(** The entries found in a well-formed tag followed by any text. *)
Lemma findall2_tag key value s :
  key <> [] -> all_of isword key -> value <> [] -> no_brace value ->
  tag_entry <$> findall2 inline_tag_groups_re (tag_text key value ++ s)
  = (str key, str (strip_chars value))
    :: (tag_entry <$> findall2 inline_tag_groups_re s).
Proof.
  intros Hk Hkey Hv Hvalue.
  destruct (inline_tag_groups_match key value s Hk Hkey Hv Hvalue)
    as (r & Hm & Hrest & Hg1 & Hg2).
  rewrite tag_text_app in Hm.
  rewrite (findall2_match _ _ _ r); [|done|done|done].
  rewrite fmap_cons. f_equal. unfold tag_entry. cbn [fst snd].
  rewrite Hg1, Hg2. f_equal. f_equal. apply no_space_strip.
  eapply Forall_impl; [exact Hkey|]. apply word_not_space.
Qed.

(** The entries of a text that starts with well-formed tags and
    characters that are no braces. *)
Lemma findall2_tagged_app pre s :
  tagged_text pre ->
  tag_entry <$> findall2 inline_tag_groups_re (pre ++ s)
  = (tag_entry <$> findall2 inline_tag_groups_re pre)
    ++ (tag_entry <$> findall2 inline_tag_groups_re s).
Proof.
  induction 1 as [|c pre Hc _ IH|key value pre Hk Hkey Hv Hvalue _ IH]; [done| |].
  - cbn [app]. by rewrite !findall2_cons_none by (by apply inline_tag_groups_no_match).
  - rewrite (tag_text_app key value pre), <- app_assoc.
    rewrite !findall2_tag by done. by rewrite IH.
Qed.

Lemma extract_inline_tags_entries description :
  extract_inline_tags description
  = foldl (fun tags entry => <[fst entry := snd entry]> tags) ∅
      (tag_entry <$> findall2 inline_tag_groups_re (chars description)).
Proof. unfold extract_inline_tags. by rewrite foldl_fmap. Qed.

Lemma foldl_insert_union (l : list (string * string)) (m : gmap string string) :
  foldl (fun tags entry => <[fst entry := snd entry]> tags) m l
  = foldl (fun tags entry => <[fst entry := snd entry]> tags) ∅ l ∪ m.
Proof.
  revert m. induction l as [|[k v] l IH]; intros m; simpl.
  - by rewrite (left_id_L ∅ (∪)).
  - rewrite (IH (<[k:=v]> m)), (IH (<[k:=v]> ∅)).
    rewrite <- (assoc_L (∪)). f_equal.
    by rewrite <- insert_union_l, (left_id_L ∅ (∪)).
Qed.

(** X9: Reading tags back.  For a description made of a text whose braces all
    belong to well-formed tags, then one more well-formed tag
    [{{key:value}}], then any text: the tags of the description are the tags
    of the first text, overwritten by [key] with the stripped value,
    overwritten by the tags of the text after it.  In particular the tag is
    read back with its stripped value unless a later tag has the same key. *)
Theorem extract_inline_tags_reads_back (pre key value post : list ascii) :
  tagged_text pre ->
  key <> [] -> all_of isword key -> value <> [] -> no_brace value ->
  extract_inline_tags (str (pre ++ tag_text key value ++ post))
  = extract_inline_tags (str post)
    ∪ <[str key := str (strip_chars value)]> (extract_inline_tags (str pre))
  /\ (extract_inline_tags (str post) !! str key = None ->
      extract_inline_tags (str (pre ++ tag_text key value ++ post)) !! str key
      = Some (str (strip_chars value))).
Proof.
  intros Hpre Hk Hkey Hv Hvalue.
  assert (Heq : extract_inline_tags (str (pre ++ tag_text key value ++ post))
    = extract_inline_tags (str post)
      ∪ <[str key := str (strip_chars value)]> (extract_inline_tags (str pre))).
  { rewrite !extract_inline_tags_entries, !chars_str.
    rewrite findall2_tagged_app, findall2_tag by done.
    rewrite foldl_app. cbn [foldl fst snd]. by rewrite foldl_insert_union. }
  split; [exact Heq|].
  intros Hpost. rewrite Heq, lookup_union_r by done. apply lookup_insert_eq.
Qed.

(** A description with two tags and a trigger. *)
Lemma extract_inline_tags_reads_back_witness :
  extract_inline_tags "{{model: opus}} {{prototype:  vite_vue }} add a page execute"
    !! "prototype" = Some "vite_vue".
Proof.
  destruct (extract_inline_tags_reads_back (chars "{{model: opus}} ")
              (chars "prototype") (chars "  vite_vue ") (chars " add a page execute"))
    as [_ H].
  - apply (tagged_tag (chars "model") (chars " opus")); try done.
    + by repeat constructor.
    + by repeat constructor.
    + by repeat constructor.
  - done.
  - by repeat constructor.
  - done.
  - by repeat constructor.
  - apply H. by vm_compute.
Defined.

(** ** [get_task_prompt_for_agent] *)

Lemma remove_all_from_sublist old skip l : remove_all_from old skip l `sublist_of` l.
Proof.
  revert skip. induction l as [|c l IH]; intros skip; [done|]. cbn [remove_all_from].
  destruct skip; [|apply sublist_cons, IH].
  case_bool_decide; [apply sublist_cons, IH | apply sublist_skip, IH].
Qed.

(** X10: [get_task_prompt_for_agent] returns the stored prompt as it is when the
    stored trigger is "continue" (the empty text when no prompt is stored).
    For every other task it only deletes: its result is made of characters
    of the description, in their order, and has no white space at either
    end. *)
Theorem get_task_prompt_for_agent_deletes_only (t : TeamworkTask) :
  (execution_trigger t = Some "continue" ->
     get_task_prompt_for_agent t = default "" (task_prompt t))
  /\ (execution_trigger t <> Some "continue" ->
        chars (get_task_prompt_for_agent t) `sublist_of` chars (description t)
        /\ strip (get_task_prompt_for_agent t) = get_task_prompt_for_agent t).
Proof.
  unfold get_task_prompt_for_agent. split.
  - intros ->. change (opt_is (Some "continue") "continue") with true. cbv iota.
    destruct (task_prompt t) as [s|]; [apply py_or_empty | done].
  - intros Hne. destruct (opt_is (execution_trigger t) "continue") eqn:E.
    { by apply opt_is_spec in E. }
    rewrite chars_str. split.
    + etrans; [apply strip_with_sublist|].
      etrans; [apply remove_all_from_sublist | apply sub_sublist].
    + unfold strip. rewrite chars_str. unfold strip_chars. by rewrite strip_with_idem.
Qed.

(** A task whose description mentions "execute" twice. *)
Lemma get_task_prompt_for_agent_deletes_only_witness :
  let t := plain_task "new" "{{model: opus}} execute the plan execute" ∅
             (Some "execute") None in
  chars (get_task_prompt_for_agent t) `sublist_of` chars (description t)
  /\ get_task_prompt_for_agent t = "the plan".
Proof.
  intros t.
  destruct (get_task_prompt_for_agent_deletes_only t) as [_ H].
  destruct H as [H _]; [discriminate|]. split; [exact H | by vm_compute].
Defined.

(** ** [process_task] *)

(** X11: The outcomes of [process_task].  A task whose description carries no
    trigger is passed over without an error, even when its id, name or
    status is missing; with a trigger, the first of the keys id, name and
    status that is missing raises [KeyError]; otherwise the task is
    returned, whatever its status, with the detected trigger, the tags of
    its description and the cleaned prompt. *)
Theorem process_task_outcomes (task : raw_task) :
  let trigger := detect_execution_trigger (default "" (r_description task)) in
  (process_task task = Value None <-> trigger = None)
  /\ (forall key, process_task task = KeyError key <->
        trigger <> None
        /\ ((key = "id" /\ r_id task = None)
            \/ (key = "name" /\ r_id task <> None /\ r_name task = None)
            \/ (key = "status" /\ r_id task <> None /\ r_name task <> None
                /\ r_status task = None)))
  /\ (forall p, process_task task = Value (Some p) ->
        (p_execution_trigger p = Some "execute"
         \/ p_execution_trigger p = Some "continue")
        /\ p_execution_trigger p = trigger
        /\ r_id task = Some (p_task_id p) /\ r_name task = Some (p_title p)
        /\ r_status task = Some (p_status p)
        /\ p_tags p = extract_inline_tags (p_description p)
        /\ p_task_prompt p = extract_task_prompt (p_description p) trigger).
Proof.
  intros trigger. subst trigger. unfold process_task, subscript.
  destruct (detect_execution_trigger_values (default "" (r_description task)))
    as [E|[E|E]]; rewrite E; simpl.
  { split; [done|]. split; [|done]. intros key. split; [done | by intros [? _]]. }
  all: destruct (r_id task) as [id|], (r_name task) as [name|],
         (r_status task) as [status|].
  all: split; [by split|]; split.
  all: try (intros p Hp; simplify_eq; simpl; by auto 10).
  all: intros key; split;
         [ intros Hkey; first [done | simplify_eq; split; [done|]; by auto 10]
         | intros [_ Hkey]; destruct_or!; destruct_and!; by simplify_eq ].
Qed.

(** X12: The direct fetcher and the split monitor agree on a task that has its
    id, name and status: when the split monitor keeps the task,
    [process_task] returns it with the same tags, trigger and prompt; and
    [process_task], which does not look at the status, returns a task that
    the split monitor keeps if and only if its status is new, to do or
    review. *)
Theorem process_task_agrees_with_split_check (task : raw_task)
    (id name status : string) :
  r_id task = Some id -> r_name task = Some name -> r_status task = Some status ->
  let listed := {| l_id := id; l_name := Some name;
                   l_description := r_description task; l_status := Some status;
                   l_tag_ids := []; l_priority := r_priority task |} in
  (forall e, split_check listed = Some e ->
     exists p, process_task task = Value (Some p)
               /\ p_task_id p = e_task_id e /\ p_tags p = e_tags e
               /\ p_execution_trigger p = e_execution_trigger e
               /\ p_task_prompt p = e_task_prompt e
               /\ lower (p_status p) = e_status e)
  /\ (forall p, process_task task = Value (Some p) ->
        (is_Some (split_check listed) <-> lower status ∈ eligible_statuses)).
Proof.
  intros Hid Hname Hstatus listed.
  unfold process_task, subscript. rewrite Hid, Hname, Hstatus.
  split.
  - intros e. unfold split_check. cbn [listed l_description l_status l_id l_name
                                        l_priority default].
    destruct (str_in _ _); simpl; [|done].
    destruct (truthy_opt (detect_execution_trigger _)); simpl; [|done].
    intros [= <-]. eexists. split; [reflexivity|]. by simpl.
  - intros p Hp. rewrite split_check_spec. cbn [listed l_description l_status default].
    split; [by intros [? _]|]. intros Hin. split; [done|].
    destruct (detect_execution_trigger _); [done|]. done.
Qed.

(** A task in status "completed" whose description ends in "execute": the
    direct fetcher returns it, the split monitor does not keep it. *)
Lemma process_task_agrees_with_split_check_witness :
  let task := {| r_id := Some "7"; r_name := Some "Add a flag";
                 r_status := Some "completed";
                 r_description := Some "add a flag execute"; r_tasklist := None;
                 r_createdAt := None; r_dueDate := None; r_priority := None |} in
  (exists p, process_task task = Value (Some p))
  /\ split_check {| l_id := "7"; l_name := Some "Add a flag";
                    l_description := Some "add a flag execute";
                    l_status := Some "completed"; l_tag_ids := [];
                    l_priority := None |} = None.
Proof.
  intros task.
  destruct (process_task_agrees_with_split_check task "7" "Add a flag" "completed"
              eq_refl eq_refl eq_refl) as [_ H].
  split; [by eexists|].
  destruct (split_check _) as [e|] eqn:E; [|done].
  specialize (H _ eq_refl). destruct H as [H _].
  specialize (H ltac:(by eexists)). vm_compute in H.
  repeat (apply elem_of_cons in H as [H|H]; [discriminate|]).
  by apply elem_of_nil in H.
Defined.

(** ** Worktree names *)

Lemma greedy_all_rest p s : greedy p (match_here []) s = Some ([], dropwhile p s).
Proof.
  induction s as [|c s IH]; [done|]. cbn [greedy dropwhile].
  destruct (p c); [|done]. by rewrite IH.
Qed.

Lemma match_here_run p c s :
  match_here [Plus p] (c :: s) = if p c then Some ([], dropwhile p s) else None.
Proof. cbn [match_here]. destruct (p c); [|done]. apply greedy_all_rest. Qed.

Lemma dropwhile_length p s : length (dropwhile p s) <= length s.
Proof. induction s as [|c s IH]; simpl; [done|]. destruct (p c); simpl; lia. Qed.

(** A run of characters of the class is replaced as a whole. *)
Lemma sub_run p repl c s :
  p c = true -> sub [Plus p] repl (c :: s) = repl ++ sub [Plus p] repl (dropwhile p s).
Proof.
  intros Hc. unfold sub. cbn [sub_from]. rewrite match_here_run, Hc.
  destruct (dropwhile_decomp p s) as (w & Hs & Hw & _).
  set (d := dropwhile p s) in *. clearbody d. subst s.
  replace (length (c :: w ++ d) - length d) with (S (length w))
    by (simpl; rewrite length_app; lia).
  by rewrite sub_from_skip.
Qed.

(** Induction along the way [re.sub(r'[^a-z0-9]+', '-', s)] builds its
    result. *)
Lemma slug_ind (P : list ascii -> list ascii -> Prop) :
  P [] [] ->
  (forall c s out, not_lower_alnum c = false -> P s out -> P (c :: s) (c :: out)) ->
  (forall c s out, not_lower_alnum c = true ->
     P (dropwhile not_lower_alnum s) out -> P (c :: s) ("-"%char :: out)) ->
  forall s, P s (sub non_alnum_run_re ["-"%char] s).
Proof.
  intros Hnil Hkeep Hrun s.
  assert (H : forall n s, length s <= n -> P s (sub non_alnum_run_re ["-"%char] s)).
  { clear s. induction n as [|n IH]; intros s Hn.
    - destruct s; [exact Hnil | simpl in Hn; lia].
    - destruct s as [|c s]; [exact Hnil|]. simpl in Hn.
      unfold non_alnum_run_re in *.
      destruct (not_lower_alnum c) eqn:Hc.
      + rewrite sub_run by done. apply Hrun; [done|]. apply IH.
        pose proof (dropwhile_length not_lower_alnum s). lia.
      + rewrite sub_cons_none by (by rewrite match_here_run, Hc).
        apply Hkeep; [done|]. apply IH. lia. }
  by apply (H (length s)).
Qed.

Lemma not_lower_alnum_slug c : not_lower_alnum c = false -> slug_char c = true.
Proof.
  unfold not_lower_alnum, slug_char. rewrite negb_false_iff. intros ->. done.
Qed.

Lemma not_lower_alnum_hyphen c : not_lower_alnum c = false -> is_hyphen c = false.
Proof. by destruct c as [[] [] [] [] [] [] [] []]. Qed.

Lemma not_lower_alnum_lower c :
  not_lower_alnum (lower_char c) = negb (is_ascii_alnum c).
Proof. by destruct c as [[] [] [] [] [] [] [] []]. Qed.

Lemma slug_chars s : Forall (fun c => slug_char c = true) (sub non_alnum_run_re ["-"%char] s).
Proof.
  apply (slug_ind (fun _ out => Forall (fun c => slug_char c = true) out)).
  - constructor.
  - intros c s' out Hc Hout. constructor; [by apply not_lower_alnum_slug | done].
  - intros c s' out Hc Hout. by constructor.
Qed.

Lemma slug_length s : length (sub non_alnum_run_re ["-"%char] s) <= length s.
Proof.
  apply (slug_ind (fun s out => length out <= length s)); simpl; [lia| |].
  - intros; lia.
  - intros c s' out _ Hout. pose proof (dropwhile_length not_lower_alnum s'). lia.
Qed.

Lemma slug_single_hyphens s :
  single_hyphens (sub non_alnum_run_re ["-"%char] s)
  /\ (forall t, sub non_alnum_run_re ["-"%char] s = "-"%char :: t ->
        exists c s', s = c :: s' /\ not_lower_alnum c = true).
Proof.
  apply (slug_ind (fun s out =>
    single_hyphens out
    /\ (forall t, out = "-"%char :: t ->
          exists c s', s = c :: s' /\ not_lower_alnum c = true))).
  - by split.
  - intros c s' out Hc [Hs Hh]. split.
    + destruct out as [|b out]; [done|]. split; [|done].
      intros [-> _]. done.
    + intros t [= -> _]. done.
  - intros c s' out Hc [Hs Hh]. split.
    + destruct out as [|b out]; [done|]. split; [|done].
      intros [_ ->]. destruct (Hh out eq_refl) as (c' & s'' & Hd & Hc').
      destruct (dropwhile_decomp not_lower_alnum s') as (_ & _ & _ & Hstop).
      rewrite (Hstop _ _ Hd) in Hc'. done.
    + intros t _. by exists c, s'.
Qed.

(** The slug is made of hyphens only exactly when the text has no
    character of [a-z0-9]. *)
Lemma slug_all_hyphens s :
  all_of is_hyphen (sub non_alnum_run_re ["-"%char] s) <-> all_of not_lower_alnum s.
Proof.
  apply (slug_ind (fun s out => all_of is_hyphen out <-> all_of not_lower_alnum s)).
  - split; intros _; constructor.
  - intros c s' out Hc _. rewrite !all_of_cons, Hc, (not_lower_alnum_hyphen c Hc).
    split; intros [? _]; done.
  - intros c s' out Hc IH. rewrite !all_of_cons, IH, Hc.
    destruct (dropwhile_decomp not_lower_alnum s') as (w & Hs & Hw & _).
    split; intros [_ H]; (split; [done|]).
    + rewrite Hs. by apply all_of_app.
    + rewrite Hs in H. by apply all_of_app in H as [_ ?].
Qed.

Lemma strip_with_nil p l : strip_with p l = [] <-> all_of p l.
Proof.
  split; [|apply strip_with_all].
  intros H. destruct (strip_with_piece p l) as (a & b & Hl & Ha & Hb).
  rewrite H in Hl. rewrite Hl. by apply all_of_app.
Qed.

Lemma all_of_lower_chars l :
  all_of not_lower_alnum (lower_chars l) <-> Forall (fun c => is_ascii_alnum c = false) l.
Proof.
  unfold all_of, lower_chars. rewrite Forall_map. apply Forall_iff. intros c.
  rewrite not_lower_alnum_lower. by destruct (is_ascii_alnum c).
Qed.

Lemma single_hyphens_app a b :
  single_hyphens (a ++ b) -> single_hyphens a /\ single_hyphens b.
Proof.
  induction a as [|x a IH]; [done|]. destruct a as [|y a].
  - simpl. destruct b; [done|]. intros [_ ?]. done.
  - cbn [app single_hyphens]. intros [Hxy H]. destruct (IH H) as [Ha Hb]. done.
Qed.

Lemma single_hyphens_take n l : single_hyphens l -> single_hyphens (take n l).
Proof.
  intros H. rewrite <- (take_drop n l) in H. by apply single_hyphens_app in H as [? _].
Qed.

(** What the three steps lower-case, replace and strip leave of a text. *)
Lemma slug_spec s :
  let name := strip_with is_hyphen (sub non_alnum_run_re ["-"%char] (lower_chars s)) in
  Forall (fun c => slug_char c = true) name
  /\ length name <= length s
  /\ head name <> Some "-"%char /\ last name <> Some "-"%char
  /\ single_hyphens name
  /\ (name = [] <-> Forall (fun c => is_ascii_alnum c = false) s).
Proof.
  intros name. subst name.
  set (out := sub non_alnum_run_re ["-"%char] (lower_chars s)).
  destruct (strip_with_piece is_hyphen out) as (a & b & Hout & Ha & Hb).
  destruct (strip_with_ends is_hyphen out) as [Hhead Hlast].
  pose proof (slug_chars (lower_chars s)) as Hchars.
  pose proof (slug_length (lower_chars s)) as Hlen.
  pose proof (proj1 (slug_single_hyphens (lower_chars s))) as Hsingle.
  fold out in Hchars, Hlen, Hsingle.
  rewrite Hout in Hchars, Hlen, Hsingle.
  split; [|split; [|split; [|split; [|split]]]].
  - apply Forall_app in Hchars as [_ H]. by apply Forall_app in H as [? _].
  - rewrite !length_app in Hlen. unfold lower_chars in Hlen.
    rewrite length_map in Hlen. lia.
  - destruct (strip_with is_hyphen out) as [|c t] eqn:E; [done|].
    simpl. intros [= ->]. by specialize (Hhead _ _ eq_refl).
  - destruct (strip_with is_hyphen out) as [|c t _] eqn:E using rev_ind; [done|].
    rewrite last_snoc. intros [= ->]. by specialize (Hlast _ _ eq_refl).
  - apply single_hyphens_app in Hsingle as [_ H]. by apply single_hyphens_app in H as [? _].
  - rewrite strip_with_nil. unfold out. by rewrite slug_all_hyphens, all_of_lower_chars.
Qed.

(** X13: The name [_generate_worktree_name] makes from a task title is "proto-"
    or "feat-" followed by at most 50 characters of [a-z0-9-] that do not
    start with a hyphen and have no two hyphens in a row.  A title that
    holds an ASCII letter or digit gives a part after the prefix that is
    not empty; an ASCII title that holds none gives the bare prefix. *)
Theorem generate_worktree_name_slug (task : TeamworkTask) :
  exists name,
    _generate_worktree_name task
    = (if truthy_opt (prototype task) then "proto-" else "feat-") +:+ str name
    /\ Forall (fun c => slug_char c = true) name
    /\ length name <= 50
    /\ head name <> Some "-"%char
    /\ single_hyphens name
    /\ ((exists c, c ∈ chars (title task) /\ is_ascii_alnum c = true) -> name <> [])
    /\ (isascii (chars (title task)) ->
        Forall (fun c => is_ascii_alnum c = false) (chars (title task)) -> name = []).
Proof.
  unfold _generate_worktree_name.
  destruct (slug_spec (chars (title task))) as (Hc & _ & Hh & _ & Hs & Hnil).
  set (n := strip_with is_hyphen _) in *.
  exists (if bool_decide (50 < length n) then take 50 n else n).
  split; [by destruct (truthy_opt (prototype task))|].
  assert (Hsome : (exists c, c ∈ chars (title task) /\ is_ascii_alnum c = true) -> n <> []).
  { intros (c & Hin & Halnum) Hn. apply Hnil in Hn.
    eapply Forall_forall in Hn; [|exact Hin]. congruence. }
  case_bool_decide as Hlen.
  - split; [by apply Forall_take|]. split; [rewrite length_take; lia|].
    split; [by destruct n|]. split; [by apply single_hyphens_take|]. split.
    + intros _. destruct n; [simpl in Hlen; lia | done].
    + intros _ Hall. apply Hnil in Hall. rewrite Hall in Hlen. simpl in Hlen. lia.
  - split; [done|]. split; [lia|]. split; [done|]. split; [done|]. split; [done|].
    intros _ Hall. by apply Hnil.
Qed.

(** The title "Fix the login bug!!" and the empty title. *)
Lemma generate_worktree_name_slug_witness :
  (exists name, _generate_worktree_name (login_task "1") = "feat-" +:+ str name
                /\ name <> [])
  /\ _generate_worktree_name (plain_task "new" "" ∅ None None) = "feat-".
Proof.
  split.
  - destruct (generate_worktree_name_slug (login_task "1"))
      as (name & Hname & _ & _ & _ & _ & Hsome & _).
    exists name. split; [exact Hname|].
    apply Hsome. exists "F"%char. split; [by left | done].
  - destruct (generate_worktree_name_slug (plain_task "new" "" ∅ None None))
      as (name & Hname & _ & _ & _ & _ & _ & Hnone).
    rewrite Hname, Hnone; [done | constructor | constructor].
Defined.

(** X14: [make_worktree_name] of the split monitor works on the first 50
    characters of the description.  When they hold an ASCII letter or digit
    the name is the prefix, a hyphen and a non-empty run of characters of
    [a-z0-9-] that neither starts nor ends with a hyphen and has no two
    hyphens in a row, and no identifier is generated; the run has at most
    50 characters when the description is ASCII.  When the first 50
    characters are ASCII and hold no letter or digit, the name is the
    prefix followed by "-task-" and a freshly generated identifier.  The
    simple monitor's [make_worktree_name] is the same function with the
    prefix "proto". *)
Theorem make_worktree_name_slug (env : Env) (task_description : string)
    (has_prototype : bool) (st : State) :
  let run := make_worktree_name env task_description has_prototype st in
  let prefix := if has_prototype then "proto" else "feat" in
  let text := take 50 (chars task_description) in
  ((exists c, c ∈ text /\ is_ascii_alnum c = true) ->
     exists name,
       fst run = prefix +:+ "-" +:+ str name
       /\ name <> [] /\ Forall (fun c => slug_char c = true) name
       /\ head name <> Some "-"%char /\ last name <> Some "-"%char
       /\ single_hyphens name
       /\ (isascii text -> length name <= 50)
       /\ snd run = st)
  /\ (isascii text -> Forall (fun c => is_ascii_alnum c = false) text ->
        fst run = prefix +:+ "-task-" +:+ generate_short_id env (tick st)
        /\ tick (snd run) = S (tick st)
        /\ trace (snd run) = trace st)
  /\ Simple.make_worktree_name env task_description st
     = make_worktree_name env task_description true st.
Proof.
  intros run prefix text. subst run. unfold make_worktree_name, Simple.make_worktree_name.
  fold text.
  destruct (slug_spec text) as (Hc & Hlen & Hh & Hl & Hs & Hnil).
  set (n := strip_with is_hyphen _) in *.
  split; [|split].
  - intros (c & Hin & Halnum).
    assert (Hne : n <> []).
    { intros Hn. apply Hnil in Hn. eapply Forall_forall in Hn; [|exact Hin]. congruence. }
    exists n. destruct n as [|x n']; [done|].
    split; [done|]. split; [done|]. split; [done|]. split; [done|]. split; [done|].
    split; [done|]. split; [|done].
    intros _. etrans; [exact Hlen|]. unfold text. rewrite length_take. lia.
  - intros _ Hall. apply Hnil in Hall. rewrite Hall. done.
  - by destruct n.
Qed.

(** A description that starts with a tag and one made of punctuation only. *)
Lemma make_worktree_name_slug_witness :
  let env := scripted_env (fun _ => "a1b2c3d4") (fun _ _ => Returned true "ok")
               (fun _ _ => None) [] [] in
  fst (make_worktree_name env "Fix: the LOGIN bug!" false initial_state)
  = "feat-fix-the-login-bug"
  /\ fst (make_worktree_name env "?!" true initial_state) = "proto-task-a1b2c3d4".
Proof.
  intros env.
  destruct (make_worktree_name_slug env "Fix: the LOGIN bug!" false initial_state)
    as (H1 & _ & _).
  destruct (make_worktree_name_slug env "?!" true initial_state) as (_ & H2 & _).
  split.
  - destruct H1 as (name & Hname & _).
    + exists "F"%char. split; [by left | done].
    + by vm_compute.
  - destruct H2 as (Hname & _).
    + by repeat constructor.
    + by repeat constructor.
    + exact Hname.
Defined.

(** ** [delegate_task], continued *)

Lemma update_slash_command config task req status payload :
  status_update config task req status payload ->
  slash_command req = "/update_teamwork_task".
Proof. by intros [? _]. Qed.

(** X15: [delegate_task] changes the in-flight set at its own identifier only:
    afterwards the identifier it chose is in the set exactly when the
    delegation succeeded, and every other identifier is in the set exactly
    when it was before. *)
Theorem delegate_task_in_flight (env : Env) (config : TeamworkCronConfig)
    (task : TeamworkTask) (st : State) :
  let run := delegate_task env config task st in
  (fst run = true <-> chosen_id env st ∈ active_adw_ids (snd run))
  /\ (forall x, x <> chosen_id env st ->
        (x ∈ active_adw_ids (snd run) <-> x ∈ active_adw_ids st)).
Proof.
  intros run. subst run.
  destruct (delegate_task_run env config task st) as (new & _ & _ & Hrun).
  destruct Hrun; split; try (intros x Hx);
    rewrite ?elem_of_difference, ?elem_of_union, ?elem_of_singleton;
    intuition (done || congruence).
Qed.

(** X16: The course of one [delegate_task].  The first thing it does is the
    claim: a status update to the mapping of "In progress".  [Popen] is
    called if and only if the claim was accepted and the monitor is not in
    dry-run mode, and then with the command line of the task's workflow.  It
    returns True if and only if the claim was accepted and no [Popen] call
    raised; a second status update is sent exactly when a [Popen] call
    raised. *)
Theorem delegate_task_course (env : Env) (config : TeamworkCronConfig)
    (task : TeamworkTask) (st : State) :
  let run := delegate_task env config task st in
  exists claim res rest timestamp,
    trace (snd run) = trace st ++ EvTemplate claim res :: rest
    /\ status_update config task claim "In progress"
         (claim_payload env task (chosen_id env st) timestamp)
    /\ ((exists argv raised, EvPopen argv raised ∈ rest) <->
        accepted res /\ dry_run config = false)
    /\ (forall argv raised, EvPopen argv raised ∈ rest ->
          argv = spawn_argv config task (chosen_id env st))
    /\ (fst run = true <->
        accepted res /\ forall argv e, EvPopen argv (Some e) ∉ rest)
    /\ (count is_update rest = 1 <-> exists argv e, EvPopen argv (Some e) ∈ rest)
    /\ count is_update rest <= 1.
Proof.
  intros run. subst run.
  destruct (delegate_task_run env config task st) as (new & Htr & _ & Hrun).
  destruct Hrun as [claim res ts Hc Hres | claim out ts Hc Hdry
                   | claim out ts Hc Hdry | claim out ts e' rollback res ts' Hc Hdry Hr].
  - exists claim, res, [], ts. rewrite Htr. split; [done|]. split; [done|].
    split; [|split; [|split; [|split]]].
    + split; [intros (? & ? & Hin); by apply elem_of_nil in Hin|].
      intros [[out ->] _]. by specialize (Hres out).
    + intros ? ? Hin. by apply elem_of_nil in Hin.
    + split; [done|]. intros [[out ->] _]. by specialize (Hres out).
    + split; [done|]. intros (? & ? & Hin). by apply elem_of_nil in Hin.
    + unfold count. simpl. lia.
  - exists claim, (Returned true out), [], ts. rewrite Htr.
    split; [done|]. split; [done|].
    split; [|split; [|split; [|split]]].
    + split; [intros (? & ? & Hin); by apply elem_of_nil in Hin|].
      intros [_ ?]. congruence.
    + intros ? ? Hin. by apply elem_of_nil in Hin.
    + split; [|done]. intros _. split; [by eexists|].
      intros ? ? Hin. by apply elem_of_nil in Hin.
    + split; [done|]. intros (? & ? & Hin). by apply elem_of_nil in Hin.
    + unfold count. simpl. lia.
  - exists claim, (Returned true out), [EvPopen (spawn_argv config task (chosen_id env st)) None], ts.
    rewrite Htr. split; [done|]. split; [done|].
    split; [|split; [|split; [|split]]].
    + split; [intros _; split; [by eexists | done]|].
      intros _. eexists _, _. by left.
    + intros ? ? Hin. split_events. done.
    + split; [|done]. intros _. split; [by eexists|].
      intros ? ? Hin. split_events.
    + split; [done|]. intros (? & ? & Hin). split_events.
    + unfold count. simpl. lia.
  - exists claim, (Returned true out),
      [EvPopen (spawn_argv config task (chosen_id env st)) (Some e'); EvTemplate rollback res],
      ts.
    rewrite Htr. split; [done|]. split; [done|].
    apply update_slash_command in Hr.
    split; [|split; [|split; [|split]]].
    + split; [intros _; split; [by eexists | done]|].
      intros _. eexists _, _. by left.
    + intros ? ? Hin. split_events. done.
    + split; [done|]. intros [_ Hno]. exfalso. eapply Hno. by left.
    + split; [|unfold count; simpl; by rewrite Hr].
      intros _. eexists _, _. by left.
    + unfold count. simpl. rewrite Hr. simpl. lia.
Qed.

(** ** [get_eligible_tasks] *)

(** X17: [get_eligible_tasks] sends one [/get_teamwork_tasks] request, with the
    project, the status filter and the limit, and leaves the in-flight set
    alone.  Every task it returns is eligible for processing.  It returns
    no task when the request fails or raises or its output cannot be
    parsed; otherwise it returns, in the order of the output, the eligible
    tasks among the entries a [TeamworkTask] can be built from.  Those are
    the entries that have a task id, a project id and a status and whose
    [created_time] is missing or is a [datetime]: any other entry is passed
    over and does not keep the rest from being returned. *)
Theorem get_eligible_tasks_safe (env : Env) (config : TeamworkCronConfig)
    (limit : nat) (st : State) :
  let run := get_eligible_tasks env config limit st in
  exists fetch res,
    trace (snd run) = trace st ++ [EvTemplate fetch res]
    /\ slash_command fetch = "/get_teamwork_tasks"
    /\ args fetch = [cfg_project_id config; json_dumps_list env (status_filter config);
                     pretty limit]
    /\ active_adw_ids (snd run) = active_adw_ids st
    /\ Forall (fun t => is_eligible_for_processing t = true) (fst run)
    /\ (~ accepted res -> fst run = [])
    /\ (forall output, res = Returned true output ->
          match parse_json env output with
          | None => fst run = []
          | Some task_data =>
              fst run `sublist_of` omap task_of_dict task_data
              /\ (forall d t, d ∈ task_data -> task_of_dict d = Some t ->
                    is_eligible_for_processing t = true -> t ∈ fst run)
          end)
    /\ (forall d, is_Some (task_of_dict d) <->
          is_Some (d_task_id d) /\ is_Some (d_project_id d) /\ is_Some (d_status d)
          /\ (forall raw, d_created_time d <> Some (NotDateTime raw))).
Proof.
  assert (Hbuilt : forall d, is_Some (task_of_dict d) <->
            is_Some (d_task_id d) /\ is_Some (d_project_id d) /\ is_Some (d_status d)
            /\ (forall raw, d_created_time d <> Some (NotDateTime raw))).
  { intros d. unfold task_of_dict, read_datetime.
    destruct (d_task_id d) as [tid|];
      [|split; [by intros [? [=]] | by intros [[? [=]] _]]].
    destruct (d_project_id d) as [pid|];
      [|split; [by intros [? [=]] | by intros (_ & [? [=]] & _)]].
    destruct (d_status d) as [status|];
      [|split; [by intros [? [=]] | by intros (_ & _ & [? [=]] & _)]].
    destruct (d_created_time d) as [[iso|raw]|].
    - split; [|by eexists]. intros _. repeat split; by (eexists || intros ? [=]).
    - split; [by intros [? [=]]|]. intros (_ & _ & _ & Hraw). by destruct (Hraw raw).
    - split; [|by eexists]. intros _. repeat split; by (eexists || intros ? [=]). }
  unfold get_eligible_tasks, bind, short_id, call_template, ret; simpl.
  match goal with |- context [execute_template env ?n ?r] =>
    exists r, (execute_template env n r);
    destruct (execute_template env n r) as [[|] out|e] end; simpl.
  2,3: do 6 (split; [done|]); (split; [|done]); intros ? [=].
  destruct (parse_json env out) as [task_data|] eqn:Hparse; simpl.
  - split; [done|]. split; [done|]. split; [done|]. split; [done|].
    split; [|split; [|split; [|done]]].
    + apply Forall_forall. by intros t [? _]%list_elem_of_filter.
    + intros Hno. exfalso. apply Hno. by eexists.
    + intros output [= <-]. rewrite Hparse. split; [apply sublist_filter|].
      intros d t Hd Ht He. apply list_elem_of_filter. split; [done|].
      apply list_elem_of_omap. by exists d.
  - split; [done|]. split; [done|]. split; [done|]. split; [done|].
    split; [done|]. split; [done|]. split; [|done].
    intros output [= <-]. by rewrite Hparse.
Qed.

(** Of four entries, the one whose [created_time] is no date and the one
    without a project are passed over; the other two are returned. *)
Lemma get_eligible_tasks_safe_witness :
  let undated := login_dict_created "101" (NotDateTime "yesterday") in
  let dated := login_dict_created "104" (DateTime "2025-11-11T09:00:00") in
  let no_project :=
    {| d_task_id := Some "103"; d_project_id := None; d_title := None;
       d_status := Some "new"; d_description := None; d_tags := None;
       d_execution_trigger := Some "execute"; d_task_prompt := None;
       d_assigned_to := None; d_created_time := None; d_due_date := None |} in
  let env := scripted_env (fun _ => "a1b2c3d4") (fun _ _ => Returned true "ok")
               (fun _ _ => None) [undated; login_dict "102"; no_project; dated] [] in
  let run := get_eligible_tasks env default_config 3 initial_state in
  map task_id (fst run) = ["102"; "104"]
  /\ login_task "102" ∈ fst run
  /\ ~ is_Some (task_of_dict undated)
  /\ ~ is_Some (task_of_dict no_project).
Proof.
  intros undated dated no_project env run.
  destruct (get_eligible_tasks_safe env default_config 3 initial_state)
    as (fetch & res & Htr & _ & _ & _ & _ & _ & Hout & Hbuilt).
  assert (Hres : res = Returned true "ok").
  { vm_compute in Htr. by injection Htr as _ ->. }
  specialize (Hout "ok" Hres). simpl in Hout. destruct Hout as [_ Hall].
  split; [by vm_compute|]. split; [|split].
  - apply (Hall (login_dict "102")); [|done..]. right. by left.
  - intros (_ & _ & _ & Hraw)%Hbuilt. by destruct (Hraw "yesterday").
  - intros (_ & [? [=]] & _)%Hbuilt.
Defined.

(** ** The polling cycle, continued *)

Lemma delegation_accounting env config task ids id ok new ids' :
  delegation env config task ids id ok new ids' ->
  (dry_run config = false -> count is_spawned new = (if ok then 1 else 0))
  /\ (dry_run config = true ->
      count is_popen new = 0 /\ count is_accepted_update new = (if ok then 1 else 0))
  /\ count is_fetch new = 0
  /\ (forall k, count (is_sleep k) new = 0).
Proof.
  unfold count.
  destruct 1 as [claim res ts [Hc _] Hres | claim out ts [Hc _] Hdry
                | claim out ts [Hc _] Hdry
                | claim out ts e' rollback res ts' [Hc _] Hdry [Hr _]];
    simpl; rewrite ?Hc, ?Hr; simpl.
  - repeat split; try done. destruct res as [[|] out|e]; [|done..].
    by specialize (Hres out).
  - repeat split; try done. congruence.
  - repeat split; try done; congruence.
  - repeat split; try done; congruence.
Qed.

Lemma delegate_all_accounting env config tasks processed st :
  let run := delegate_all env config tasks processed st in
  exists new,
    trace (snd run) = trace st ++ new
    /\ (dry_run config = false -> fst run = processed + count is_spawned new)
    /\ (dry_run config = true ->
        count is_popen new = 0 /\ fst run = processed + count is_accepted_update new)
    /\ count is_fetch new = 0
    /\ count (is_sleep 1) new = length tasks
    /\ (forall k, k <> 1 -> count (is_sleep k) new = 0).
Proof.
  revert processed st. induction tasks as [|task rest IH]; intros processed st; simpl.
  - exists []. rewrite app_nil_r. unfold count; simpl. repeat split; lia.
  - unfold bind.
    destruct (delegate_task_run env config task st) as (new1 & Htr1 & _ & Hrun).
    destruct (delegate_task env config task st) as [ok st1]. simpl in *.
    apply delegation_accounting in Hrun as (Hwet & Hdry & Hf & Hsl).
    set (st2 := {| active_adw_ids := active_adw_ids st1; tick := S (tick st1);
                   trace := trace st1 ++ [EvSleep 1] |}).
    specialize (IH (if ok then S processed else processed) st2).
    destruct (delegate_all env config rest (if ok then S processed else processed) st2)
      as [n st3].
    destruct IH as (new2 & Htr2 & Hwet2 & Hdry2 & Hf2 & Hsl2 & Hother). simpl in *.
    exists (new1 ++ EvSleep 1 :: new2).
    rewrite Htr2, Htr1, <- !app_assoc. simpl.
    rewrite !count_app, !count_cons. simpl.
    split; [done|]. split; [|split; [|split; [|split]]].
    + intros Hd. rewrite (Hwet2 Hd), (Hwet Hd). destruct ok; lia.
    + intros Hd. destruct (Hdry Hd) as [Hp Ha]. destruct (Hdry2 Hd) as [Hp2 Ha2].
      rewrite Hp, Hp2, Ha2, Ha. destruct ok; lia.
    + lia.
    + rewrite (Hsl 1), Hsl2. lia.
    + intros k Hk. rewrite count_app, count_cons, (Hsl k), (Hother k Hk).
      simpl. rewrite bool_decide_eq_false_2 by lia. lia.
Qed.

Lemma get_eligible_tasks_event env config limit st :
  let run := get_eligible_tasks env config limit st in
  exists fetch res,
    trace (snd run) = trace st ++ [EvTemplate fetch res]
    /\ is_fetch (EvTemplate fetch res) = true.
Proof.
  destruct (get_eligible_tasks_run env config limit st) as (fetch & res & Htr & Hcmd & _).
  exists fetch, res. split; [done|]. simpl. by rewrite Hcmd.
Qed.

Lemma run_once_accounts env config st :
  let run := run_once env config st in
  let tasks := fst (get_eligible_tasks env config (max_concurrent_tasks config) st) in
  exists fetch res new,
    trace (snd run) = trace st ++ EvTemplate fetch res :: new
    /\ is_fetch (EvTemplate fetch res) = true
    /\ (dry_run config = false -> fst run = count is_spawned new)
    /\ (dry_run config = true ->
        count is_popen new = 0 /\ fst run = count is_accepted_update new)
    /\ count is_fetch new = 0
    /\ count (is_sleep 1) new = length tasks
    /\ (forall k, k <> 1 -> count (is_sleep k) new = 0).
Proof.
  unfold run_once, bind.
  destruct (get_eligible_tasks_event env config (max_concurrent_tasks config) st)
    as (fetch & res & Htr & Hf).
  destruct (get_eligible_tasks env config (max_concurrent_tasks config) st)
    as [tasks st1]. simpl in *.
  exists fetch, res.
  destruct tasks as [|task rest].
  - exists []. simpl. unfold count; simpl. repeat split; done.
  - pose proof (delegate_all_accounting env config (task :: rest) 0 st1) as H.
    destruct (delegate_all env config (task :: rest) 0 st1) as [n st2].
    destruct H as (new & Htr2 & Hwet & Hdry & Hf2 & Hsl & Hother). simpl in *.
    exists new. rewrite Htr2, Htr, <- app_assoc. simpl. repeat split; try done.
    + by apply Hdry.
    + by apply Hdry.
Qed.

(** X18: What [run_once] returns.  Outside dry-run mode it is the number of
    workflows the cycle started, that is of [Popen] calls that did not
    raise.  In dry-run mode no [Popen] call is made and the result is the
    number of tasks claimed, for the claims are still sent.  After each
    eligible task, delegated or not, the cycle sleeps for one second; when
    the fetch yields no eligible task nothing follows the fetch. *)
Theorem run_once_accounting (env : Env) (config : TeamworkCronConfig) (st : State) :
  let run := run_once env config st in
  let tasks := fst (get_eligible_tasks env config (max_concurrent_tasks config) st) in
  exists fetch res new,
    trace (snd run) = trace st ++ EvTemplate fetch res :: new
    /\ slash_command fetch = "/get_teamwork_tasks"
    /\ (dry_run config = false -> fst run = count is_spawned new)
    /\ (dry_run config = true ->
        count is_popen new = 0 /\ fst run = count is_accepted_update new)
    /\ count (is_sleep 1) new = length tasks
    /\ (tasks = [] -> new = [] /\ fst run = 0).
Proof.
  intros run tasks.
  destruct (run_once_accounts env config st)
    as (fetch & res & new & Htr & Hf & Hwet & Hdry & _ & Hsl & _).
  exists fetch, res, new. fold run in Htr, Hwet, Hdry. fold tasks in Hsl.
  split; [done|]. split; [by apply eqb_true_iff in Hf|].
  split; [done|]. split; [done|]. split; [done|].
  intros Hnil. subst run. unfold run_once, bind in *. fold tasks in Htr |- *.
  destruct (get_eligible_tasks_event env config (max_concurrent_tasks config) st)
    as (fetch' & res' & Htr' & _).
  destruct (get_eligible_tasks env config (max_concurrent_tasks config) st)
    as [tasks' st1]. simpl in *. subst tasks tasks'. simpl in *.
  rewrite Htr' in Htr. apply app_inv_head in Htr. injection Htr as _ _ <-. done.
Qed.

(** ** [run_continuous] *)

Lemma run_once_events env config st :
  let run := run_once env config st in
  exists new,
    trace (snd run) = trace st ++ new
    /\ count is_fetch new = 1
    /\ (forall k, k <> 1 -> count (is_sleep k) new = 0).
Proof.
  destruct (run_once_accounts env config st)
    as (fetch & res & new & Htr & Hf & _ & _ & Hf2 & _ & Hother).
  exists (EvTemplate fetch res :: new). split; [done|].
  rewrite count_cons, Hf, Hf2. split; [done|].
  intros k Hk. rewrite count_cons, (Hother k Hk). done.
Qed.

(** X19: The first [cycles] iterations of [run_continuous], for a polling
    interval that satisfies the constraint of the configuration (at least 5
    seconds): the monitor fetches exactly once per iteration and sleeps for
    the polling interval exactly once per iteration, at its end. *)
Theorem run_continuous_cycles (env : Env) (config : TeamworkCronConfig)
    (cycles : nat) (st : State) :
  5 <= polling_interval config ->
  let run := run_continuous env config cycles st in
  exists new,
    trace (snd run) = trace st ++ new
    /\ count is_fetch new = cycles
    /\ count (is_sleep (polling_interval config)) new = cycles
    /\ (cycles <> 0 -> last new = Some (EvSleep (polling_interval config)))
    /\ (cycles = 0 -> new = []).
Proof.
  intros Hint. revert st. induction cycles as [|n IH]; intros st; simpl.
  - exists []. rewrite app_nil_r. by repeat split.
  - unfold bind.
    destruct (run_once_events env config st) as (new1 & Htr1 & Hf1 & Hs1).
    destruct (run_once env config st) as [processed st1]. simpl in *.
    set (st2 := {| active_adw_ids := active_adw_ids st1; tick := S (tick st1);
                   trace := trace st1 ++ [EvSleep (polling_interval config)] |}).
    specialize (IH st2). destruct (run_continuous env config n st2) as [[] st3].
    destruct IH as (new2 & Htr2 & Hf2 & Hs2 & Hlast & Hzero). simpl in *.
    exists (new1 ++ EvSleep (polling_interval config) :: new2).
    rewrite Htr2, Htr1, <- !app_assoc. simpl.
    rewrite !count_app, !count_cons, Hf1, Hf2, Hs2, Hs1 by lia. simpl.
    rewrite bool_decide_eq_true_2 by done.
    split; [done|]. split; [lia|]. split; [lia|]. split; [|done]. intros _.
    rewrite last_app_cons. destruct n as [|n'].
    + by rewrite Hzero.
    + destruct new2 as [|e new2]; [by specialize (Hlast ltac:(done))|].
      rewrite last_cons_cons. by apply Hlast.
Qed.

(** Three iterations with the default interval of 15 seconds. *)
Lemma run_continuous_cycles_witness :
  let env := scripted_env (fun n => "id" +:+ pretty n) (fun _ _ => Returned true "ok")
               (fun _ _ => None) [login_dict "101"] [] in
  count is_fetch (trace (snd (run_continuous env default_config 3 initial_state))) = 3
  /\ count (is_sleep 15)
       (trace (snd (run_continuous env default_config 3 initial_state))) = 3.
Proof.
  intros env.
  destruct (run_continuous_cycles env default_config 3 initial_state)
    as (new & Htr & Hf & Hs & _ & _).
  - simpl. lia.
  - rewrite Htr. split; [exact Hf | exact Hs].
Defined.

(** ** The routing of the split monitor *)

Lemma spawn_all_scripts env config tasks processed st :
  dry_run config = false ->
  let run := spawn_all env config tasks processed st in
  exists new,
    trace (snd run) = trace st ++ new
    /\ popen_scripts new = map split_script tasks.
Proof.
  intros Hdry. revert processed st.
  induction tasks as [|task rest IH]; intros processed st.
  - exists []. simpl. by rewrite app_nil_r.
  - cbn [spawn_all]. unfold bind, short_id. cbn [fst snd].
    set (st1 := {| active_adw_ids := active_adw_ids st; tick := S (tick st);
                   trace := trace st |}).
    pose proof (make_worktree_name_trace env (e_task_prompt task)
                  (truthy_opt (e_tags task !! "prototype")) st1) as Hwt.
    destruct (make_worktree_name env (e_task_prompt task)
                (truthy_opt (e_tags task !! "prototype")) st1) as [wt st2].
    simpl in Hwt.
    assert (Hstep : forall script_path script_args,
      let run :=
        (let (ok, st3) := spawn_workflow env script_path script_args (dry_run config) st2 in
         spawn_all env config rest (if ok then S processed else processed) st3) in
      exists new,
        trace (snd run) = trace st ++ new
        /\ popen_scripts new = script_path :: map split_script rest).
    { intros script_path script_args.
      pose proof (spawn_workflow_run env script_path script_args (dry_run config) st2) as Hsp.
      destruct (spawn_workflow env script_path script_args (dry_run config) st2)
        as [ok st3]. simpl in Hsp.
      specialize (IH (if ok then S processed else processed) st3).
      destruct (spawn_all env config rest (if ok then S processed else processed) st3)
        as [n st4].
      destruct IH as (new2 & Htr2 & Hscripts). simpl in *.
      destruct Hsp as [(Hd & _) | (_ & raised & _ & Htr & _)]; [congruence|].
      exists (EvPopen (script_path :: script_args) raised :: new2).
      rewrite Htr2, Htr, Hwt, <- app_assoc. simpl. split; [done|].
      unfold popen_scripts in *. cbn. by rewrite Hscripts. }
    cbn [map]. unfold split_script at 1.
    destruct (truthy_opt (e_tags task !! "prototype")); apply Hstep.
Qed.

(** X20: Outside dry-run mode the split monitor calls [Popen] once for each of
    the first [max_concurrent_tasks] eligible tasks of the listing, in their
    order, and the script it runs depends on the [prototype] tag only: the
    plan-implement script when the tag has a non-empty value, the build
    script otherwise, whatever the [workflow] tag and the length of the
    prompt are. *)
Theorem split_cycle_routing (env : Env) (config : TeamworkCronConfig) (st : State) :
  dry_run config = false ->
  let run := split_cycle env config st in
  exists listing res new,
    trace (snd run) = trace st ++ EvTemplate listing res :: new
    /\ (forall output tasks,
          res = Returned true output -> json_loads_tasks env output = Some tasks ->
          popen_scripts new
          = map split_script (take (max_concurrent_tasks config) (omap split_check tasks)))
    /\ (forall task, split_script task = plan_implement_script <->
          truthy_opt (e_tags task !! "prototype") = true).
Proof.
  intros Hdry. unfold split_cycle, bind, short_id, call_template, ret; simpl.
  assert (Hscript : forall task, split_script task = plan_implement_script <->
            truthy_opt (e_tags task !! "prototype") = true).
  { intros task. unfold split_script. by destruct (truthy_opt _). }
  match goal with |- context [execute_template env ?n ?r] =>
    exists r, (execute_template env n r);
    destruct (execute_template env n r) as [[|] out|e] end; simpl.
  2,3: exists []; split; [done|]; split; [intros ? ? [=] | done].
  destruct (json_loads_tasks env out) as [tasks|] eqn:Hl; simpl.
  2: { exists []. split; [done|]. split; [|done]. intros ? ? [= <-] ?. congruence. }
  match goal with |- context [spawn_all env config ?l 0 ?s] =>
    pose proof (spawn_all_scripts env config l 0 s Hdry) as H;
    destruct (spawn_all env config l 0 s) as [n st2] end.
  destruct H as (new & Htr & Hscripts). simpl in *.
  exists new. rewrite Htr, <- app_assoc. simpl. split; [done|]. split; [|done].
  intros output tasks' [= <-] Ht. by assert (tasks' = tasks) as -> by congruence.
Qed.

(** A task tagged [{{workflow: plan}}] without a [prototype] tag is run
    with the build script. *)
Lemma split_cycle_routing_witness :
  let env := scripted_env (fun n => "id" +:+ pretty n) (fun _ _ => Returned true "ok")
               (fun _ _ => None) []
               [{| l_id := "201"; l_name := Some "Refactor";
                   l_description := Some "{{workflow: plan}} refactor the parser execute";
                   l_status := Some "new"; l_tag_ids := []; l_priority := None |}] in
  popen_scripts (trace (snd (split_cycle env default_config initial_state)))
  = [build_script].
Proof.
  intros env.
  destruct (split_cycle_routing env default_config initial_state eq_refl)
    as (listing & res & new & Htr & Hscripts & _).
  assert (Hres : res = Returned true "ok").
  { simpl in Htr. vm_compute in Htr. by injection Htr as _ ->. }
  rewrite Htr. simpl. change (popen_scripts (EvTemplate listing res :: new))
    with (popen_scripts new).
  rewrite (Hscripts "ok" _ Hres eq_refl). by vm_compute.
Defined.

(** ** The loop of the split monitor *)




(** ** The workflows, continued *)

Lemma send_update_exit env o id task mdl worktree_name dir content st :
  let code := fst (send_update env o id task mdl worktree_name dir content st) in
  let st' := snd (send_update env o id task mdl worktree_name dir content st) in
  exists req res,
    trace st' = trace st ++ [EvTemplate req res]
    /\ slash_command req = "/update_teamwork_task"
    /\ in_context id mdl dir (EvTemplate req res)
    /\ (code = 0%Z <-> workflow_success o = true /\ returned res)
    /\ (code = 0%Z \/ code = 1%Z).
Proof.
  unfold send_update, bind, call_template, ret; simpl.
  match goal with |- context [execute_template env (tick st) ?r] =>
    exists r, (execute_template env (tick st) r);
    destruct (execute_template env (tick st) r) as [ok out|e] end; simpl.
  - split; [done|]. split; [done|]. split; [done|].
    destruct (workflow_success o); split; try (by auto).
    + split; [intros _; split; [done | by eexists _, _] | done].
    + split; [done | by intros [? _]].
  - split; [done|]. split; [done|]. split; [done|]. split; [|by right].
    split; [done | by intros [_ (? & ? & ?)]].
Qed.

(** X22: The exit status of a workflow is 0 if and only if its command (for the
    plan-implement workflow, both of its commands) reported success and the
    final update call returned; it does not depend on the commit hash, nor
    on whether Teamwork accepted the update.  Otherwise it is 1. *)
Theorem workflow_exit_status (env : Env) (id task task_description worktree_name
    mdl : string) (project : option string) (st : State) :
  (let run := build_main env id task task_description worktree_name mdl project st in
   exists before req res,
     trace (snd run) = trace st ++ before ++ [EvTemplate req res]
     /\ slash_command req = "/update_teamwork_task"
     /\ Forall (fun e => is_update e = false) before
     /\ (fst run = 0%Z <-> command_succeeded "/build" before /\ returned res)
     /\ (fst run = 0%Z \/ fst run = 1%Z))
  /\ (forall proto,
      let run := plan_implement_main env id task task_description worktree_name
                   proto mdl project st in
      exists before req res,
        trace (snd run) = trace st ++ before ++ [EvTemplate req res]
        /\ slash_command req = "/update_teamwork_task"
        /\ Forall (fun e => is_update e = false) before
        /\ (fst run = 0%Z <->
            (command_succeeded (plan_command proto) before
             /\ command_succeeded "/implement" before)
            /\ returned res)
        /\ (fst run = 0%Z \/ fst run = 1%Z)).
Proof.
  split; [|intros proto].
  - unfold build_main, bind.
    set (dir := workflow_dir env worktree_name).
    destruct (build_try_spec env id task_description worktree_name mdl dir st)
      as (before & Htr & Hnot & Hok & _).
    destruct (build_try env id task_description worktree_name mdl dir st) as [o st1].
    unfold now; simpl in *.
    match goal with |- context [send_update env o id task mdl worktree_name dir ?c ?s] =>
      destruct (send_update_exit env o id task mdl worktree_name dir c s)
        as (req & res & Htr2 & Hcmd & _ & Hcode & Hvalues);
      destruct (send_update env o id task mdl worktree_name dir c s) as [code st2] end.
    simpl in *. exists before, req, res.
    split; [by rewrite Htr2, Htr, app_assoc|]. split; [done|]. split; [done|].
    split; [by rewrite Hcode, Hok | done].
  - unfold plan_implement_main, bind.
    set (dir := workflow_dir env worktree_name).
    destruct (plan_implement_try_spec env id task_description worktree_name proto mdl dir st)
      as (before & Htr & Hnot & Hok & _).
    destruct (plan_implement_try env id task_description worktree_name proto mdl dir st)
      as [o st1].
    unfold now; simpl in *.
    match goal with |- context [send_update env o id task mdl worktree_name dir ?c ?s] =>
      destruct (send_update_exit env o id task mdl worktree_name dir c s)
        as (req & res & Htr2 & Hcmd & _ & Hcode & Hvalues);
      destruct (send_update env o id task mdl worktree_name dir c s) as [code st2] end.
    simpl in *. exists before, req, res.
    split; [by rewrite Htr2, Htr, app_assoc|]. split; [done|]. split; [done|].
    split; [by rewrite Hcode, Hok | done].
Qed.




